(** * UPLOADERBOT: scheduled delivery, backend fallback and thumbnails

    A shallow embedding of the handlers of the bot
    ([handlers/callback_handlers.py], [handlers/message_handlers.py]) and of
    [utils/thumb_utils.py], with the properties of the scheduled delivery
    engine stated over it.

    Conventions of the embedding:
    - Python [int] values are [Z]; sizes are bytes, times are seconds.
    - A Python [dict] with a fixed set of keys is a record whose fields are
      [option]s ([None] is an absent key or a Python [None]).
    - The file system, the posts table and the scheduler's job store are
      finite maps ([gmap]).
    - A call into a library or into a module of the bot that is not part of
      these three files is an oracle: a field of an environment record that
      says what the call returns or which exception it raises. A call that
      Python refuses whatever the library would answer (a keyword that names
      no parameter, an operand of the wrong type) is written out. *)

From Stdlib Require Import ZArith String Ascii List Lia.
From stdpp Require Import base option list gmap strings pretty.

Local Open Scope string_scope.
Local Open Scope Z_scope.

(** ** Python values and exceptions *)

Module Py.

(** The outcome of a statement that can raise: [Exc msg] carries [str(e)]. *)
Inductive res (A : Type) : Type :=
| Ok (a : A)
| Exc (msg : string).
Arguments Ok {A} a.
Arguments Exc {A} msg.

(** Truthiness of an optional string: [None] and [''] are falsy. *)
Definition truthy_str (s : option string) : bool :=
  match s with
  | None => false
  | Some s => negb (String.eqb s "")
  end.

(** [prefix in s] for [str.startswith]. *)
Fixpoint startswith (p s : string) : bool :=
  match p, s with
  | EmptyString, _ => true
  | String a p', String b s' => Ascii.eqb a b && startswith p' s'
  | String _ _, EmptyString => false
  end.

(** [needle in s] on strings. *)
Fixpoint contains (needle s : string) : bool :=
  startswith needle s ||
  match s with
  | EmptyString => false
  | String _ s' => contains needle s'
  end.

(** [str.lower] on the ASCII letters (the error texts matched by the
    handlers are ASCII). *)
Definition lower_ascii (c : ascii) : ascii :=
  let n := nat_of_ascii c in
  if (Nat.leb 65 n && Nat.leb n 90)%bool then ascii_of_nat (n + 32) else c.

Fixpoint lower (s : string) : string :=
  match s with
  | EmptyString => EmptyString
  | String c s' => String (lower_ascii c) (lower s')
  end.

(** [s.lstrip('@')]. *)
Fixpoint lstrip_at (s : string) : string :=
  match s with
  | String "@" s' => lstrip_at s'
  | _ => s
  end.

(** [os.path.join(a, b)] for a relative [b] and a folder [a] written
    without a trailing separator. *)
Definition path_join (a b : string) : string := a +:+ "/" +:+ b.

(** A path held as a [str] or as a [pathlib.Path] ([File.download_to_drive]
    of python-telegram-bot returns a [Path]). *)
Inductive pathlike : Type :=
| PathStr (s : string)
| PathObj (s : string).

(** [os.fspath]. *)
Definition fspath (x : pathlike) : string :=
  match x with
  | PathStr s => s
  | PathObj s => s
  end.

(** Truthiness: a [str] is falsy when empty, a [Path] object never is. *)
Definition truthy_path (x : pathlike) : bool :=
  match x with
  | PathStr s => negb (String.eqb s "")
  | PathObj _ => true
  end.

(** [s == x] for a [str] [s]: a [Path] is never equal to a [str]. *)
Definition str_eq (s : string) (x : pathlike) : bool :=
  match x with
  | PathStr s' => String.eqb s s'
  | PathObj _ => false
  end.

(** [x + suffix] for a [str] suffix: concatenation on a [str]; a [Path]
    has no [__add__] and a [str] no [__radd__] for it, so Python raises
    [TypeError]. *)
Definition add_str (x : pathlike) (suffix : string) : res pathlike :=
  match x with
  | PathStr s => Ok (PathStr (s +:+ suffix))
  | PathObj _ => Exc "unsupported operand type(s) for +: 'PosixPath' and 'str'"
  end.

End Py.
Export Py.

(** ** The file system seen by [os.path] and [os.remove] *)

Module FS.

Inductive node : Type :=
| File (size : Z) (readable : bool)
| Dir.

Abbreviation t := (gmap string node).

Definition exists_ (fs : t) (p : string) : bool := bool_decide (is_Some (fs !! p)).

Definition isfile (fs : t) (p : string) : bool :=
  match fs !! p with
  | Some (File _ _) => true
  | _ => false
  end.

(** [os.path.getsize]; raises on a missing path. A directory reports the
    size of its entry, which is never zero. *)
Definition getsize (fs : t) (p : string) : res Z :=
  match fs !! p with
  | Some (File sz _) => Ok sz
  | Some Dir => Ok 4096
  | None => Exc "No such file or directory"
  end.

Definition readable (fs : t) (p : string) : bool :=
  match fs !! p with
  | Some (File _ r) => r
  | Some Dir => true
  | None => false
  end.

(** [os.remove]: deletes a file, raises on a missing path or a directory. *)
Definition remove (fs : t) (p : string) : res t :=
  match fs !! p with
  | Some (File _ _) => Ok (delete p fs)
  | Some Dir => Exc "Is a directory"
  | None => Exc "No such file or directory"
  end.

(** [try: os.remove(p) except: pass]. *)
Definition remove_quiet (fs : t) (p : string) : t :=
  match remove fs p with
  | Ok fs' => fs'
  | Exc _ => fs
  end.

(** [p[:i]] and [p[i:]] for [i = p.rfind('/') + 1]. *)
Fixpoint cut_last_slash (p : string) : string * string :=
  match p with
  | EmptyString => (EmptyString, EmptyString)
  | String c p' =>
      let '(head, tail) := cut_last_slash p' in
      if negb (String.eqb head "") then (String c head, tail)
      else if Ascii.eqb c "/" then ("/", p')
      else (EmptyString, String c p')
  end.

(** [s.rstrip('/')]. *)
Fixpoint rstrip_slash (s : string) : string :=
  match s with
  | EmptyString => EmptyString
  | String c s' =>
      match rstrip_slash s' with
      | EmptyString => if Ascii.eqb c "/" then EmptyString else String c EmptyString
      | r => String c r
      end
  end.

(** [posixpath.split]: the head loses its trailing slashes unless it is
    made of slashes only. *)
Definition split (p : string) : string * string :=
  let '(head, tail) := cut_last_slash p in
  (if String.eqb (rstrip_slash head) "" then head else rstrip_slash head, tail).

(** [os.path.dirname]. *)
Definition dirname (p : string) : string := fst (split p).

(** The root: a path that is not empty and made of slashes only. It is
    there whatever the map holds. *)
Definition is_root (p : string) : bool :=
  negb (String.eqb p "") && String.eqb (rstrip_slash p) "".

(** The path as the system calls read it: trailing slashes do not count. *)
Definition norm (p : string) : string :=
  if is_root p then p else rstrip_slash p.

(** [os.path.exists] and [os.path.isdir] as [os.makedirs] uses them. *)
Definition present (fs : t) (p : string) : bool :=
  is_root p || exists_ fs (norm p).

Definition isdir (fs : t) (p : string) : bool :=
  is_root p ||
  (negb (String.eqb p "") &&
   match fs !! norm p with
   | Some Dir => true
   | _ => false
   end).

(** [os.mkdir]: [FileNotFoundError] for the empty path or a missing
    parent, [FileExistsError] for a path that is there,
    [NotADirectoryError] for a parent that is a file. A path without a
    parent part is created in the current directory. *)
Definition mkdir (fs : t) (name : string) : res t :=
  if String.eqb name "" then Exc "No such file or directory"
  else if present fs name then Exc "File exists"
  else
    let parent := dirname (norm name) in
    if String.eqb parent "" || isdir fs parent then Ok (<[norm name := Dir]> fs)
    else if present fs parent then Exc "Not a directory"
    else Exc "No such file or directory".

(** [os.makedirs(name, exist_ok=True)]: the missing ancestors first, then
    the directory itself; an [OSError] of the last [mkdir] is let through
    unless the path is a directory. The result is the outcome and the file
    system left behind. [fuel] bounds the recursion on the head. *)
Fixpoint makedirs_from (fuel : nat) (name : string) (fs : t) : res unit * t :=
  let '(head, tail) := split name in
  let '(head, tail) := if String.eqb tail "" then split head else (head, tail) in
  let create (fs1 : t) : res unit * t :=
    match mkdir fs1 name with
    | Ok fs2 => (Ok tt, fs2)
    | Exc e => if isdir fs1 name then (Ok tt, fs1) else (Exc e, fs1)
    end in
  if negb (String.eqb head "") && negb (String.eqb tail "") && negb (present fs head)
  then
    match fuel with
    | O => (Exc "maximum recursion depth exceeded", fs)
    | S fuel' =>
        let '(r, fs1) := makedirs_from fuel' head fs in
        match r with
        | Exc e =>
            if String.eqb e "File exists" then
              if String.eqb tail "." then (Ok tt, fs1) else create fs1
            else (Exc e, fs1)
        | Ok _ => if String.eqb tail "." then (Ok tt, fs1) else create fs1
        end
    end
  else create fs.

(** The head is shorter than the name at every round, so the length of the
    name is fuel enough. *)
Definition makedirs (name : string) (fs : t) : res unit * t :=
  makedirs_from (String.length name) name fs.

(** [fs'] holds what [fs] held, and directories besides. *)
Definition grown (fs fs' : t) : Prop :=
  (forall p x, fs !! p = Some x -> fs' !! p = Some x) /\
  (forall p x, fs' !! p = Some x -> fs !! p = Some x \/ x = Dir).

End FS.

(** ** [utils/thumb_utils.py] *)

Module Thumb.

(** [config.settings] is not part of the three files: the fields read by
    [thumb_utils] are taken as a record. *)
Record settings : Type := {
  temp_folder : string;
  thumb_quality : Z;
  max_thumb_size : Z
}.

(** What PIL makes of a path. [Image.open] raises on a missing file or on
    a file that is not an image ([None]); otherwise the image, once
    flattened to RGB and scaled by [img.thumbnail(settings.thumb_size)], is
    known by the size in bytes of its progressive JPEG encoding at each
    quality, which is all that [optimize_thumbnail] observes. [img.save]
    can raise ([None] at that quality). *)
Definition encoder : Type := Z -> option Z.

Inductive loop_result : Type :=
| Finished (quality : Z) (size : Z)
| SaveRaised
| OutOfFuel.

(** The [while] loop of lines 48-54: [size] is what [os.path.getsize]
    reports for the file written last, [q] is [current_quality]. *)
Fixpoint reduce_quality (fuel : nat) (enc : encoder) (cap : Z) (q size : Z)
  : loop_result :=
  if (cap <? size) && (5 <? q) then
    match fuel with
    | O => OutOfFuel
    | S fuel' =>
        match enc (q - 5) with
        | Some size' => reduce_quality fuel' enc cap (q - 5) size'
        | None => SaveRaised
        end
    end
  else Finished q size.

Section WithSettings.
Variable cfg : settings.
Variable Image_open : string -> option encoder.

Definition default_output : string :=
  path_join (temp_folder cfg) "thumb_temp.jpg".

(** The [except] clause of [optimize_thumbnail]: remove the output file
    if it is there, return [None]. *)
Definition optimize_failed (fs : FS.t) (out : string) : option string * FS.t :=
  (None, if FS.exists_ fs out then FS.remove_quiet fs out else fs).

(** Lines 20-21: the path written to. *)
Definition chosen_output (output_path : option string) : string :=
  match output_path with
  | Some p => if truthy_str output_path then p else default_output
  | None => default_output
  end.

(** [optimize_thumbnail(image_path, output_path)]. The result is the
    returned path and the file system left behind. The folder of the output
    is made first (line 24); when that raises, the [except] clause answers
    [None] like for any other failure. [img.save] raises too when the output
    path is a directory. *)
Definition optimize_thumbnail (fs : FS.t) (image_path : string)
    (output_path : option string) : option string * FS.t :=
  let out := chosen_output output_path in
  match FS.makedirs (FS.dirname out) fs with
  | (Exc _, fs0) => optimize_failed fs0 out
  | (Ok _, fs0) =>
      match Image_open image_path with
      | None => optimize_failed fs0 out
      | Some enc =>
          let q0 := thumb_quality cfg in
          match enc q0, fs0 !! out with
          | None, _ => optimize_failed fs0 out
          | Some _, Some FS.Dir => optimize_failed fs0 out
          | Some size0, _ =>
              let fs1 := <[out := FS.File size0 true]> fs0 in
              if max_thumb_size cfg <? size0 then
                match reduce_quality (Z.to_nat q0) enc (max_thumb_size cfg) q0 size0 with
                | Finished _ size => (Some out, <[out := FS.File size true]> fs0)
                | SaveRaised | OutOfFuel => optimize_failed fs1 out
                end
              else (Some out, fs1)
          end
      end
  end.

End WithSettings.

End Thumb.

(** ** The state of the bot and the effects of a handler *)

Module Bot.

(** A post of [context.user_data['posts']] (a [dict]). *)
Record post : Type := {
  p_type : option string;
  p_content : option string;
  p_caption : option string;
  p_filename : option string;
  p_channel : option (option string);     (* absent key / value *)
  p_channel_name : option string;
  p_file_size : option Z;
  p_duration : option Z;
  p_local_path : option string;
  p_thumbnail : option string;
  p_has_custom_thumbnail : option bool;
  p_original_file_id : option string;
  p_reactions : list string;
  p_buttons : list (string * string)
}.

(** [context.user_data['selected_channel']]. *)
Record channel : Type := {
  ch_id : option Z;
  ch_username : option string;
  ch_name : option string
}.

(** [context.user_data]. *)
Record user_data : Type := {
  posts : option (list post);
  selected_channel : option channel;
  schedule_day : option string;
  current_scheduled_post : option Z;      (* its ['id'] *)
  auto_destruction_time : option Z;
  thumbnail_prompt_message_id : option Z;
  original_file_message_id : option Z
}.

(** [context.user_data.clear()]. *)
Definition cleared : user_data :=
  {| posts := None; selected_channel := None; schedule_day := None;
     current_scheduled_post := None; auto_destruction_time := None;
     thumbnail_prompt_message_id := None; original_file_message_id := None |}.

(** A row of the [posts] table. [scheduled_time] holds the naive datetime
    whose ['%Y-%m-%d %H:%M:%S'] rendering the column stores, as seconds on
    its own wall clock: [strptime] with the same format reads back the
    datetime that [strftime] wrote. *)
Record row : Type := {
  r_channel_id : option Z;
  r_type : string;
  r_content : string;
  r_caption : option string;
  r_scheduled_time : Z
}.

(** A job armed in [scheduler_manager.scheduler] by [add_job] with
    [trigger="date"]: the instant (UTC seconds) of [run_date] and the
    [post_id] captured by the [send_post_job] closure. *)
Record job : Type := {
  j_run_at : Z;
  j_post_id : Z
}.

(** A job of [context.application.job_queue] created by [run_once] in
    [schedule_auto_destruction]. *)
Record destruct_job : Type := {
  d_name : string;
  d_chat_id : option string;
  d_message_id : Z;
  d_fire_at : Z
}.

(** The transports that can fetch or send a file. *)
Inductive backend : Type :=
| BotAPI
| Pyrogram
| Telethon.

(** What the handlers tell the user, by kind. *)
Inductive ui_msg : Type :=
| MsgNoChannel
| MsgLimit24
| MsgUnsupported
| MsgDownloadFailed
| MsgPostShown (index : nat)
| MsgHandlerError
| MsgNoDay
| MsgNoContent
| MsgBadFormat
| MsgBadHour
| MsgPastTime
| MsgScheduled (count : Z)
| MsgScheduleError
| MsgNoScheduledPost
| MsgCancelled
| MsgCancelError
| MsgProgress (step : nat)
| MsgThumbError (stage : string)
| MsgThumbApplied
| MsgNothingToSend
| MsgThumbNotApplied (index : nat)
| MsgSent (count : Z) (channel : string)
| MsgSendError
| MsgDelete (message_id : Z)
| MsgAnswer.

Inductive log_entry : Type :=
| LogJobSent (post_id : Z)
| LogJobError (post_id : Z) (reason : string)
| LogScheduleError (reason : string)
| LogNoScheduler
| LogCleanupWarning (path : string)
| LogDestructFailed (reason : string)
| LogSendError (reason : string).

Record world : Type := {
  ud : user_data;
  db_posts : gmap Z row;
  scheduler : option (gmap string job);
  job_queue : option (list destruct_job);
  fs : FS.t;
  attempts : list backend;
  dispatched : list Z;
  outbox : list ui_msg;
  ui_calls : nat;
  log : list log_entry;
  (** the local variable [temp_files] of the running
      [process_thumbnail_and_upload] *)
  temp_files : list string
}.

Definition set_ud (f : user_data -> user_data) (w : world) : world :=
  {| ud := f (ud w); db_posts := db_posts w; scheduler := scheduler w;
     job_queue := job_queue w; fs := fs w; attempts := attempts w;
     dispatched := dispatched w; outbox := outbox w; ui_calls := ui_calls w;
     log := log w; temp_files := temp_files w |}.
Definition set_db (f : gmap Z row -> gmap Z row) (w : world) : world :=
  {| ud := ud w; db_posts := f (db_posts w); scheduler := scheduler w;
     job_queue := job_queue w; fs := fs w; attempts := attempts w;
     dispatched := dispatched w; outbox := outbox w; ui_calls := ui_calls w;
     log := log w; temp_files := temp_files w |}.
Definition set_scheduler (f : option (gmap string job) -> option (gmap string job))
    (w : world) : world :=
  {| ud := ud w; db_posts := db_posts w; scheduler := f (scheduler w);
     job_queue := job_queue w; fs := fs w; attempts := attempts w;
     dispatched := dispatched w; outbox := outbox w; ui_calls := ui_calls w;
     log := log w; temp_files := temp_files w |}.
Definition set_job_queue (f : option (list destruct_job) -> option (list destruct_job))
    (w : world) : world :=
  {| ud := ud w; db_posts := db_posts w; scheduler := scheduler w;
     job_queue := f (job_queue w); fs := fs w; attempts := attempts w;
     dispatched := dispatched w; outbox := outbox w; ui_calls := ui_calls w;
     log := log w; temp_files := temp_files w |}.
Definition set_fs (f : FS.t -> FS.t) (w : world) : world :=
  {| ud := ud w; db_posts := db_posts w; scheduler := scheduler w;
     job_queue := job_queue w; fs := f (fs w); attempts := attempts w;
     dispatched := dispatched w; outbox := outbox w; ui_calls := ui_calls w;
     log := log w; temp_files := temp_files w |}.
Definition add_attempt (b : backend) (w : world) : world :=
  {| ud := ud w; db_posts := db_posts w; scheduler := scheduler w;
     job_queue := job_queue w; fs := fs w; attempts := attempts w ++ [b];
     dispatched := dispatched w; outbox := outbox w; ui_calls := ui_calls w;
     log := log w; temp_files := temp_files w |}.
Definition add_dispatched (post_id : Z) (w : world) : world :=
  {| ud := ud w; db_posts := db_posts w; scheduler := scheduler w;
     job_queue := job_queue w; fs := fs w; attempts := attempts w;
     dispatched := dispatched w ++ [post_id]; outbox := outbox w;
     ui_calls := ui_calls w; log := log w; temp_files := temp_files w |}.
Definition add_log (e : log_entry) (w : world) : world :=
  {| ud := ud w; db_posts := db_posts w; scheduler := scheduler w;
     job_queue := job_queue w; fs := fs w; attempts := attempts w;
     dispatched := dispatched w; outbox := outbox w; ui_calls := ui_calls w;
     log := log w ++ [e]; temp_files := temp_files w |}.
(** One more call into the Telegram API on behalf of the user interface;
    [sent] is the message that got through, if one did. *)
Definition ui_step (sent : option ui_msg) (w : world) : world :=
  {| ud := ud w; db_posts := db_posts w; scheduler := scheduler w;
     job_queue := job_queue w; fs := fs w; attempts := attempts w;
     dispatched := dispatched w;
     outbox := match sent with Some m => outbox w ++ [m] | None => outbox w end;
     ui_calls := S (ui_calls w); log := log w; temp_files := temp_files w |}.

Definition set_temp_files (f : list string -> list string) (w : world) : world :=
  {| ud := ud w; db_posts := db_posts w; scheduler := scheduler w;
     job_queue := job_queue w; fs := fs w; attempts := attempts w;
     dispatched := dispatched w; outbox := outbox w; ui_calls := ui_calls w;
     log := log w; temp_files := f (temp_files w) |}.

Definition set_posts (ps : option (list post)) (u : user_data) : user_data :=
  {| posts := ps; selected_channel := selected_channel u;
     schedule_day := schedule_day u;
     current_scheduled_post := current_scheduled_post u;
     auto_destruction_time := auto_destruction_time u;
     thumbnail_prompt_message_id := thumbnail_prompt_message_id u;
     original_file_message_id := original_file_message_id u |}.

(** *** The handler monad: state and exceptions *)

Definition M (A : Type) : Type := world -> res A * world.

Definition ret {A} (a : A) : M A := fun w => (Ok a, w).
Definition raise {A} (msg : string) : M A := fun w => (Exc msg, w).
Definition bind {A B} (m : M A) (k : A -> M B) : M B :=
  fun w => match m w with
           | (Ok a, w') => k a w'
           | (Exc e, w') => (Exc e, w')
           end.
Definition get : M world := fun w => (Ok w, w).
Definition modify (f : world -> world) : M unit := fun w => (Ok tt, f w).
Definition lift {A} (r : res A) : M A := fun w => (r, w).

(** [try: m except Exception as e: h(str(e))]. *)
Definition try_catch {A} (m : M A) (h : string -> M A) : M A :=
  fun w => match m w with
           | (Ok a, w') => (Ok a, w')
           | (Exc e, w') => h e w'
           end.

(** [try: m finally: f]. An exception of [f] replaces the outcome of [m]. *)
Definition finally {A} (m : M A) (f : M unit) : M A :=
  fun w => match m w with
           | (r, w') =>
               match f w' with
               | (Ok _, w'') => (r, w'')
               | (Exc e, w'') => (Exc e, w'')
               end
           end.

Declare Scope eff_scope.
Delimit Scope eff_scope with eff.
Notation "'let*' x ':=' m 'in' k" := (bind m (fun x => k))
  (at level 10, x name, m at level 100, k at level 200) : eff_scope.
Notation "m '>>' k" := (bind m (fun _ => k))
  (at level 90, right associativity) : eff_scope.

(** Weakest precondition of a handler computation for a postcondition on
    its outcome and final state. *)
Definition wp {A} (m : M A) (Q : res A -> world -> Prop) (w : world) : Prop :=
  Q (fst (m w)) (snd (m w)).

(** [m] meets [R], a relation between the state before, the outcome and
    the state after. *)
Definition spec {A} (m : M A) (R : world -> res A -> world -> Prop) : Prop :=
  forall w, R w (fst (m w)) (snd (m w)).

(** A computation is [stable] when it leaves the list of posts of the
    session as it found it. *)
Definition stable {A} (m : M A) : Prop :=
  forall w, posts (ud (snd (m w))) = posts (ud w).

End Bot.

(** ** Oracles: Telegram, the clients and the modules outside the three files *)

Module Env.
Import Bot.

(** The outcome of a download call ([download_to_drive],
    [download_media]): it raises, or it returns a path (or [None]) and may
    have written a file of [size] bytes there. *)
Inductive dl : Type :=
| DlRaise (msg : string)
| DlReturn (path : option string) (size : option Z).

(** [client_manager.get_best_client(...)]: the ["client"] entry (is it a
    client or [None]) and the ["type"] entry. *)
Record client_info : Type := {
  ci_client : bool;
  ci_type : string
}.

(** [db_manager.get_thumbnail]: the new format is a [dict], the old one a
    bare [file_id]. *)
Inductive thumb_data : Type :=
| ThumbDict (file_id : option string) (local_path : option string)
| ThumbId (file_id : string).

(** The [dict] returned by [send_file_smart]. *)
Record smart_result : Type := {
  sr_success : bool;
  sr_message_id : option Z;
  sr_file_id : option string;
  sr_error : option string
}.

Record env : Type := {
  (** does the [n]-th call made for the user interface raise *)
  ui_fails : nat -> bool;
  (** the [message_id] of the message the [n]-th such call returns *)
  ui_message_id : nat -> option Z;
  (** [context.bot.get_file(file_id)] then [download_to_drive(...)] *)
  bot_download : string -> dl;
  (** [client_manager.get_best_client(size, "download")] *)
  get_best_client : Z -> res client_info;
  (** [client.download_media(file_id, ...)] of an advanced client *)
  client_download : backend -> string -> dl;
  (** [DatabaseManager().get_thumbnail(clean_username, user_id)] *)
  get_thumbnail : string -> res (option thumb_data);
  (** [send_file_smart(chat_id, file_path, caption, thumb_id, ...)] *)
  send_file_smart : string -> option string -> res smart_result;
  (** [context.bot.send_photo/send_video/send_document/send_message] to a
      channel ([chat_id], kind, content): the [message_id] of the message
      sent, [None] for a falsy result *)
  bot_send : option string -> string -> option string -> res (option Z);
  (** [send_scheduled_file({"id": post_id}, application)] on the posts
      table: what it leaves in the table and whether it raises *)
  send_scheduled_file : Z -> gmap Z row -> gmap Z row * res unit;
  (** [job_queue.remove_job(job_id)]: the queue it leaves, or it raises *)
  remove_job : list destruct_job -> string -> res (list destruct_job);
  (** the clock, in seconds since the epoch (UTC) *)
  now_utc : Z;
  (** [DatabaseManager().get_user_timezone(user_id)] *)
  get_user_timezone : res (option string);
  (** [pytz.timezone(name)]: the zone, as the UTC offset in seconds in
      force at each UTC instant, or [UnknownTimeZoneError] *)
  pytz_timezone : string -> res (Z -> Z);
  (** the builtin [int] on a string ([None] is [ValueError]) *)
  py_int : string -> option Z;
  (** [str.strip] *)
  py_strip : string -> string;
  (** the exception every SQL statement raises when the database is out
      of reach *)
  sqlite_error : option string;
  (** does [SchedulerManager("UTC")], the last resort of
      [get_scheduler_manager], raise *)
  manager_unavailable : bool
}.

End Env.

(** ** Conversation states returned by the handlers *)

Inductive conv_state : Type :=
| MAIN_MENU
| SCHEDULE_SELECT_CHANNEL
| SCHEDULE_SEND
| WAITING_PUBLICATION_CONTENT.

(** ** Primitive effects shared by the handlers *)

Module Prim.
Import Bot Env.
Local Open Scope eff_scope.

Section WithEnv.
Variable E : env.

(** A message to the user ([reply_text], [edit_message_text],
    [send_photo] to the user's own chat...): raises when Telegram does. *)
Definition ui (m : ui_msg) : M unit :=
  fun w =>
    if ui_fails E (ui_calls w)
    then (Exc "telegram error", ui_step None w)
    else (Ok tt, ui_step (Some m) w).

(** The same for a call whose returned [message_id] is used. *)
Definition ui_sending (m : ui_msg) : M (option Z) :=
  fun w =>
    if ui_fails E (ui_calls w)
    then (Exc "telegram error", ui_step None w)
    else (Ok (ui_message_id E (ui_calls w)), ui_step (Some m) w).

(** A download through backend [b]: the attempt is recorded, the file
    the call wrote appears in the file system. *)
Definition download (b : backend) (d : dl) : M (option string) :=
  fun w =>
    let w1 := add_attempt b w in
    match d with
    | DlRaise msg => (Exc msg, w1)
    | DlReturn (Some p) (Some sz) =>
        (Ok (Some p), set_fs (fun f => <[p := FS.File sz true]> f) w1)
    | DlReturn p _ => (Ok p, w1)
    end.

(** [not p or not os.path.exists(p) or os.path.getsize(p) == 0]. *)
Definition invalid_download (f : FS.t) (p : option string) : bool :=
  match p with
  | None => true
  | Some p =>
      negb (truthy_str (Some p)) || negb (FS.exists_ f p) ||
      match FS.getsize f p with
      | Ok sz => sz =? 0
      | Exc _ => true
      end
  end.

(** The test of lines 595-596 of [message_handlers.py] and 3199-3200 of
    [callback_handlers.py] on [str(e)]. *)
Definition too_big_or_expired (error_str : string) : bool :=
  contains "File is too big" error_str ||
  contains "file is too big" (lower error_str) ||
  contains "FILE_REFERENCE_EXPIRED" error_str ||
  contains "file reference" (lower error_str).

(** The narrower test of line 539 (photo). *)
Definition too_big (error_str : string) : bool :=
  contains "File is too big" error_str ||
  contains "file is too big" (lower error_str).

End WithEnv.

(** The keyword parameters of [JobQueue.run_once] in python-telegram-bot 20
    and later, the version whose interface the handlers are written for
    ([async] handlers, [context.application], [File.download_to_drive]):
    the [context] parameter of the earlier versions became [data]. *)
Definition run_once_parameters : list string :=
  ["callback"; "when"; "data"; "name"; "chat_id"; "user_id"; "job_kwargs"].

(** A call of [job_queue.run_once] with the keyword arguments [keywords]:
    Python raises [TypeError] for a keyword that names no parameter, before
    the body of the method runs and any job is created. *)
Definition run_once (keywords : list string) : res unit :=
  match List.find (fun k => negb (bool_decide (k ∈ run_once_parameters))) keywords with
  | Some k =>
      Exc ("JobQueue.run_once() got an unexpected keyword argument '" +:+ k +:+ "'")
  | None => Ok tt
  end.

End Prim.

(** ** [handlers/message_handlers.py]: content intake *)

Module Intake.
Import Bot Env Prim.
Local Open Scope eff_scope.

(** A photo size, a video or a document of [update.message]. *)
Record media : Type := {
  file_id : string;
  file_size : option Z;
  duration : option Z;
  file_name : option string
}.

Record message : Type := {
  text : option string;
  photo : list media;
  video : option media;
  document : option media;
  caption : option string
}.

(** [x or 0] on an optional integer. *)
Definition or_zero (x : option Z) : Z :=
  match x with
  | Some n => n
  | None => 0
  end.

(** [x or ''] on an optional string. *)
Definition or_empty (x : option string) : string :=
  match x with
  | Some s => s
  | None => ""
  end.

(** The part of [post_data] set at lines 518-521. *)
Definition post_for (ch : channel) : post :=
  {| p_type := None; p_content := None; p_caption := None;
     p_filename := None; p_channel := Some (ch_username ch);
     p_channel_name := ch_name ch; p_file_size := None; p_duration := None;
     p_local_path := None; p_thumbnail := None;
     p_has_custom_thumbnail := None; p_original_file_id := None;
     p_reactions := []; p_buttons := [] |}.

Definition with_content (p : post) (type : string) (content : string)
    (cap : option string) (size : option Z) (dur : option Z)
    (fname : option string) (local_path : option string) : post :=
  {| p_type := Some type; p_content := Some content; p_caption := cap;
     p_filename := fname; p_channel := p_channel p;
     p_channel_name := p_channel_name p; p_file_size := size;
     p_duration := dur; p_local_path := local_path;
     p_thumbnail := p_thumbnail p;
     p_has_custom_thumbnail := p_has_custom_thumbnail p;
     p_original_file_id := p_original_file_id p;
     p_reactions := p_reactions p; p_buttons := p_buttons p |}.

Section WithEnv.
Variable E : env.

(** [client.download_media(file_id, ...)] on [client_info["client"]]. *)
Definition via_client (b : backend) (ci : client_info) (fid : string)
  : M (option string) :=
  if ci_client ci then download b (client_download E b fid)
  else raise "'NoneType' object has no attribute 'download_media'".

(** Lines 534-572: save the photo locally. [inl s] is [return s]. *)
Definition save_photo (ph : media) : M (conv_state + option string) :=
  try_catch
    (let* p := download BotAPI (bot_download E (file_id ph)) in ret (inr p))
    (fun error_str =>
       if too_big error_str then
         try_catch
           (let* ci := lift (get_best_client E (or_zero (file_size ph))) in
            if String.eqb (ci_type ci) "pyrogram" then
              let* p := via_client Pyrogram ci (file_id ph) in ret (inr p)
            else if String.eqb (ci_type ci) "telethon" then
              let* p := via_client Telethon ci (file_id ph) in ret (inr p)
            else raise "Aucun client avancé disponible")
           (fun _ => ui E MsgDownloadFailed >> ret (inl MAIN_MENU))
       else ui E MsgDownloadFailed >> ret (inl MAIN_MENU)).

(** Lines 584-658: save the video locally, Bot API first. *)
Definition save_video (v : media) : M (conv_state + option string) :=
  try_catch
    (let* p := download BotAPI (bot_download E (file_id v)) in ret (inr p))
    (fun error_str =>
       if too_big_or_expired error_str then
         try_catch
           (let* ci := lift (get_best_client E (or_zero (file_size v))) in
            if negb (ci_client ci) then raise "Aucun client avancé disponible"
            else
              let* p :=
                (if String.eqb (ci_type ci) "pyrogram" then
                   download Pyrogram (client_download E Pyrogram (file_id v))
                 else if String.eqb (ci_type ci) "telethon" then
                   download Telethon (client_download E Telethon (file_id v))
                 else raise "Client non supporté") in
              let* w := get in
              if invalid_download (fs w) p
              then raise "Fichier téléchargé invalide ou vide"
              else ret (inr p))
           (fun _ => ui E MsgDownloadFailed >> ret (inl MAIN_MENU))
       else ui E MsgDownloadFailed >> ret (inl MAIN_MENU)).

(** Lines 660-689: validate the saved video and fill [post_data]. *)
Definition video_post (base : post) (msg : message) (v : media)
  : M (conv_state + post) :=
  let* saved := save_video v in
  match saved with
  | inl s => ret (inl s)
  | inr local_path =>
      let* w := get in
      match local_path with
      | Some lp =>
          if negb (truthy_str local_path) || negb (FS.exists_ (fs w) lp) then
            ui E MsgDownloadFailed >> ret (inl MAIN_MENU)
          else
            let* file_size_check := lift (FS.getsize (fs w) lp) in
            if file_size_check =? 0 then
              modify (set_fs (fun f => FS.remove_quiet f lp)) >>
              ui E MsgDownloadFailed >> ret (inl MAIN_MENU)
            else
              let size := match file_size v with
                          | Some n => if n =? 0 then file_size_check else n
                          | None => file_size_check
                          end in
              ret (inr (with_content base "video" (file_id v)
                          (Some (or_empty (caption msg))) (Some size)
                          (Some (or_zero (duration v))) None local_path))
      | None => ui E MsgDownloadFailed >> ret (inl MAIN_MENU)
      end
  end.

(** Lines 523-710: the type of the content and [post_data]. *)
Definition make_post (base : post) (msg : message) : M (conv_state + post) :=
  if truthy_str (text msg) then
    ret (inr (with_content base "text" (or_empty (text msg)) None
                None None None None))
  else
    match last (photo msg), video msg, document msg with
    | Some ph, _, _ =>
        let* saved := save_photo ph in
        match saved with
        | inl s => ret (inl s)
        | inr local_path =>
            ret (inr (with_content base "photo" (file_id ph)
                        (Some (or_empty (caption msg)))
                        (Some (or_zero (file_size ph))) None None local_path))
        end
    | None, Some v, _ => video_post base msg v
    | None, None, Some d =>
        let filename :=
          if truthy_str (file_name d) then or_empty (file_name d)
          else "document_" +:+ file_id d in
        ret (inr (with_content base "document" (file_id d)
                    (Some (or_empty (caption msg)))
                    (Some (or_zero (file_size d))) None (Some filename) None))
    | None, None, None =>
        ui E MsgUnsupported >> ret (inl WAITING_PUBLICATION_CONTENT)
    end.

(** [_send_post_with_buttons]. *)
Definition _send_post_with_buttons (post_index : nat) : M unit :=
  try_catch
    (let* sent := ui_sending E (MsgPostShown post_index) in
     (match sent with
      | Some mid =>
          modify (set_ud (fun u =>
            {| posts := posts u; selected_channel := selected_channel u;
               schedule_day := schedule_day u;
               current_scheduled_post := current_scheduled_post u;
               auto_destruction_time := auto_destruction_time u;
               thumbnail_prompt_message_id := thumbnail_prompt_message_id u;
               original_file_message_id := Some mid |}))
      | None => ret tt
      end) >>
     ui E (MsgPostShown post_index))
    (fun _ => ui E (MsgPostShown post_index)).

(** [handle_post_content(update, context)]. *)
Definition handle_post_content (msg : message) : M conv_state :=
  try_catch
    (let* w := get in
     let ps := default [] (posts (ud w)) in
     match selected_channel (ud w) with
     | None => ui E MsgNoChannel >> ret MAIN_MENU
     | Some ch =>
         if (24 <=? Z.of_nat (length ps)) then
           ui E MsgLimit24 >> ret WAITING_PUBLICATION_CONTENT
         else
           let* made := make_post (post_for ch) msg in
           match made with
           | inl s => ret s
           | inr post_data =>
               let post_index := length ps in
               modify (set_ud (set_posts (Some (ps ++ [post_data])%list))) >>
               _send_post_with_buttons post_index >>
               ret WAITING_PUBLICATION_CONTENT
           end
     end)
    (fun _ => ui E MsgHandlerError >> ret MAIN_MENU).

End WithEnv.
End Intake.

(** ** [process_thumbnail_and_upload]: the thumbnail substitution pipeline *)

Module Pipeline.
Import Bot Env Prim.
Local Open Scope eff_scope.

(** [l[i]] with Python's negative indices: the position read, or
    [IndexError]. *)
Definition py_index {A} (l : list A) (i : Z) : res nat :=
  let n := Z.of_nat (length l) in
  if (0 <=? i) && (i <? n) then Ok (Z.to_nat i)
  else if (i <? 0) && (- n <=? i) then Ok (Z.to_nat (n + i))
  else Exc "list index out of range".

(** [normalize_channel_username]. *)
Definition normalize_channel_username (channel_username : option string)
  : option string :=
  if truthy_str channel_username then
    match channel_username with
    | Some s => Some (lstrip_at s)
    | None => None
    end
  else None.

(** Step 5 (lines 3332-3334): the three assignments on the post. *)
Definition swap_content (p : post) (new_file_id : string) : post :=
  {| p_type := p_type p; p_content := Some new_file_id;
     p_caption := p_caption p; p_filename := p_filename p;
     p_channel := p_channel p; p_channel_name := p_channel_name p;
     p_file_size := p_file_size p; p_duration := p_duration p;
     p_local_path := p_local_path p; p_thumbnail := p_thumbnail p;
     p_has_custom_thumbnail := Some true;
     p_original_file_id := p_content p;
     p_reactions := p_reactions p; p_buttons := p_buttons p |}.

Definition pop_prompt (u : user_data) : user_data :=
  {| posts := posts u; selected_channel := selected_channel u;
     schedule_day := schedule_day u;
     current_scheduled_post := current_scheduled_post u;
     auto_destruction_time := auto_destruction_time u;
     thumbnail_prompt_message_id := None;
     original_file_message_id := original_file_message_id u |}.

Definition pop_original (u : user_data) : user_data :=
  {| posts := posts u; selected_channel := selected_channel u;
     schedule_day := schedule_day u;
     current_scheduled_post := current_scheduled_post u;
     auto_destruction_time := auto_destruction_time u;
     thumbnail_prompt_message_id := thumbnail_prompt_message_id u;
     original_file_message_id := None |}.

(** One round of the [finally] loop: [if os.path.exists(f): os.remove(f)]
    under its own [try]. *)
Definition cleanup_one (p : string) : M unit :=
  fun w =>
    if FS.exists_ (fs w) p then
      match FS.remove (fs w) p with
      | Ok f' => (Ok tt, set_fs (fun _ => f') w)
      | Exc _ => (Ok tt, add_log (LogCleanupWarning p) w)
      end
    else (Ok tt, w).

Fixpoint cleanup (l : list string) : M unit :=
  match l with
  | [] => ret tt
  | p :: l' => cleanup_one p >> cleanup l'
  end.

Section WithEnv.
Variable E : env.

(** [try: await context.bot.delete_message(...) except: warning]. *)
Definition delete_quiet (mid : Z) : M unit :=
  try_catch (ui E (MsgDelete mid)) (fun _ => ret tt).

(** Lines 3113-3169: the post has a [local_path]. [inl b] is
    [return b]. *)
Definition check_local (local_path : string) : M (bool + option string) :=
  let* w := get in
  if negb (FS.exists_ (fs w) local_path) then
    ui E (MsgThumbError "absent") >> ret (inl false)
  else if negb (FS.isfile (fs w) local_path) then
    ui E (MsgThumbError "not a file") >> ret (inl false)
  else
    let* file_size := lift (FS.getsize (fs w) local_path) in
    if file_size =? 0 then
      ui E (MsgThumbError "empty") >> ret (inl false)
    else if negb (FS.readable (fs w) local_path) then
      ui E (MsgThumbError "unreadable") >> ret (inl false)
    else ret (inr (Some local_path)).

(** Lines 3202-3228: the advanced client, inside its own [try]. *)
Definition fetch_advanced (content : string) : M (option string) :=
  let* ci := lift (get_best_client E (100 * 1024 * 1024)) in
  let* p :=
    (if String.eqb (ci_type ci) "pyrogram" then
       if ci_client ci then download Pyrogram (client_download E Pyrogram content)
       else raise "'NoneType' object has no attribute 'download_media'"
     else if String.eqb (ci_type ci) "telethon" then
       if ci_client ci then download Telethon (client_download E Telethon content)
       else raise "'NoneType' object has no attribute 'download_media'"
     else raise "Aucun client avancé disponible") in
  let* w := get in
  if invalid_download (fs w) p
  then raise "Fichier téléchargé invalide via client avancé"
  else
    modify (set_temp_files (fun t => t ++ [default "" p])%list) >>
    ret p.

(** Lines 3172-3257: no local file, fetch the original by [file_id]. *)
Definition fetch_original (content : string) : M (bool + option string) :=
  ui E (MsgProgress 2) >>
  try_catch
    (let* p := download BotAPI (bot_download E content) in
     let* w := get in
     if invalid_download (fs w) p
     then raise "Fichier téléchargé invalide via API Bot"
     else
       modify (set_temp_files (fun t => t ++ [default "" p])%list) >>
       ret (inr p))
    (fun error_str =>
       if too_big_or_expired error_str then
         try_catch
           (let* p := fetch_advanced content in ret (inr p))
           (fun _ => ui E (MsgThumbError "fetch") >> ret (inl false))
       else ui E (MsgThumbError "download") >> ret (inl false)).

(** Lines 3338-3439: after the swap. *)
Definition after_swap (post_type : string) : M bool :=
  try_catch
    (let* w := get in
     (match thumbnail_prompt_message_id (ud w) with
      | Some mid => delete_quiet mid >> modify (set_ud pop_prompt)
      | None => ret tt
      end) >>
     let* w := get in
     match original_file_message_id (ud w) with
     | Some mid => delete_quiet mid >> modify (set_ud pop_original)
     | None => ret tt
     end)
    (fun _ => ret tt) >>
  try_catch
    (if String.eqb post_type "photo" || String.eqb post_type "video" ||
        String.eqb post_type "document" || String.eqb post_type "text"
     then ui E MsgThumbApplied
     else ret tt)
    (fun _ => ui E MsgThumbApplied) >>
  ret true.

(** Lines 3289-3444: upload with the thumbnail, then replace the
    [file_id]. [k] is the position of the post in the list. *)
Definition upload_and_swap (k : nat) (p : post) (post_type : string)
    (file_path : string) (thumb : thumb_data) : M bool :=
  ui E (MsgProgress 3) >>
  let* w := get in
  let thumbnail_file_id :=
    match thumb with
    | ThumbDict fid _ => fid
    | ThumbId fid => Some fid
    end in
  let thumbnail_local_path :=
    match thumb with
    | ThumbDict _ lp => lp
    | ThumbId _ => None
    end in
  let thumb_to_use :=
    match thumbnail_local_path with
    | Some lp =>
        if truthy_str thumbnail_local_path && FS.exists_ (fs w) lp
        then thumbnail_local_path else thumbnail_file_id
    | None => thumbnail_file_id
    end in
  let* result := lift (send_file_smart E file_path thumb_to_use) in
  if sr_success result then
    (match sr_message_id result with
     | Some mid => if mid =? 0 then ret tt else delete_quiet mid
     | None => ret tt
     end) >>
    match sr_file_id result with
    | Some new_file_id =>
        if truthy_str (Some new_file_id) then
          modify (set_ud (fun u =>
            set_posts (option_map (fun ps => <[k := swap_content p new_file_id]> ps)
                         (posts u)) u)) >>
          after_swap post_type
        else raise "Aucun file_id retourné par send_file_smart"
    | None => raise "Aucun file_id retourné par send_file_smart"
    end
  else raise "Échec de send_file_smart".

(** Lines 3030-3444: the body of the [try]. *)
Definition process_body (post_index : Z) : M bool :=
  let* w := get in
  match posts (ud w) with
  | None => ret false
  | Some ps =>
      if Z.of_nat (length ps) <=? post_index then ret false
      else
        let* k := lift (py_index ps post_index) in
        match ps !! k with
        | None => raise "list index out of range"
        | Some p =>
            match p_type p, p_content p with
            | Some post_type, Some content =>
                if negb (truthy_str (Some post_type)) ||
                   negb (truthy_str (Some content)) then
                  ui E (MsgThumbError "invalid post") >> ret false
                else
                  let channel_username :=
                    match p_channel p with
                    | Some c => c
                    | None =>
                        match selected_channel (ud w) with
                        | Some ch => ch_username ch
                        | None => None
                        end
                    end in
                  match normalize_channel_username channel_username with
                  | None => ui E (MsgThumbError "channel") >> ret false
                  | Some clean_username =>
                      if negb (truthy_str (Some clean_username)) then
                        ui E (MsgThumbError "channel") >> ret false
                      else
                        let* thumbnail_data := lift (get_thumbnail E clean_username) in
                        match thumbnail_data with
                        | None => ui E (MsgThumbError "no thumbnail") >> ret false
                        | Some (ThumbId "") =>
                            ui E (MsgThumbError "no thumbnail") >> ret false
                        | Some thumb =>
                            ui E (MsgProgress 1) >>
                            let* fetched :=
                              (match p_local_path p with
                               | Some lp =>
                                   if truthy_str (Some lp) then check_local lp
                                   else fetch_original content
                               | None => fetch_original content
                               end) in
                            match fetched with
                            | inl b => ret b
                            | inr None =>
                                ui E (MsgThumbError "not found") >> ret false
                            | inr (Some file_path) =>
                                let* w := get in
                                if negb (truthy_str (Some file_path)) ||
                                   negb (FS.exists_ (fs w) file_path) then
                                  ui E (MsgThumbError "not found") >> ret false
                                else
                                  let* final_file_size :=
                                    lift (FS.getsize (fs w) file_path) in
                                  if final_file_size =? 0 then
                                    ui E (MsgThumbError "empty") >> ret false
                                  else upload_and_swap k p post_type file_path thumb
                            end
                        end
                  end
            | _, _ => ui E (MsgThumbError "invalid post") >> ret false
            end
        end
  end.

(** [process_thumbnail_and_upload(update, context, post_index)]. *)
Definition process_thumbnail_and_upload (post_index : Z) : M bool :=
  modify (set_temp_files (fun _ => [])) >>
  finally
    (try_catch (process_body post_index)
       (fun _ => ui E (MsgThumbError "processing") >> ret false))
    (let* w := get in cleanup (temp_files w)).

End WithEnv.
End Pipeline.

(** ** [prepare_thumbnail]: download a thumbnail and optimise it *)

Module ThumbPrep.
Import Bot Env Prim.
Local Open Scope eff_scope.

Section WithEnv.
Variable E : env.
Variable cfg : Thumb.settings.
Variable Image_open : string -> option Thumb.encoder.

(** [optimize_thumbnail] on the file system of the bot. *)
Definition optimize (image_path : string) : M (option string) :=
  fun w =>
    let '(out, f) := Thumb.optimize_thumbnail cfg Image_open (fs w) image_path None in
    (Ok out, set_fs (fun _ => f) w).

(** [prepare_thumbnail(client, thumb_id)] for a client of kind [b]. *)
Definition prepare_thumbnail (b : backend) (thumb_id : string) : M (option string) :=
  try_catch
    (let* downloaded_path := download b (client_download E b thumb_id) in
     match downloaded_path with
     | Some p =>
         if truthy_str downloaded_path then
           let* optimized_path := optimize p in
           modify (set_fs (fun f => FS.remove_quiet f p)) >>
           ret optimized_path
         else ret None
     | None => ret None
     end)
    (fun _ => ret None).

End WithEnv.
End ThumbPrep.

(** ** Datetimes as the handlers use them *)

Module Time.

(** A naive datetime at the resolution of a second: the seconds elapsed
    on its own wall clock since 1970-01-01 00:00:00. *)
Definition naive : Type := Z.

(** A [pytz] zone: the UTC offset, in seconds, in force at a UTC instant. *)
Definition zone : Type := Z -> Z.

(** An aware datetime: the wall-clock fields and the fixed offset of the
    [tzinfo] that [pytz] attached to it. *)
Record aware : Type := {
  wall : naive;
  offset : Z
}.

(** [datetime.now(tz)] at the UTC instant [utc]. *)
Definition now (tz : zone) (utc : Z) : aware :=
  {| wall := utc + tz utc; offset := tz utc |}.

(** [d.replace(hour=h, minute=m, second=0, microsecond=0)]: the date and
    the [tzinfo] are kept. *)
Definition replace_time (d : aware) (h m : Z) : aware :=
  {| wall := wall d - wall d mod 86400 + 3600 * h + 60 * m;
     offset := offset d |}.

(** [d + timedelta(days=n)]: wall-clock arithmetic, same [tzinfo]. *)
Definition add_days (d : aware) (n : Z) : aware :=
  {| wall := wall d + 86400 * n; offset := offset d |}.

(** The instant an aware datetime denotes, in UTC seconds. *)
Definition to_utc (d : aware) : Z := wall d - offset d.

(** [a <= b] on aware datetimes. *)
Definition le (a b : aware) : bool := to_utc a <=? to_utc b.

(** [d.strftime('%Y-%m-%d %H:%M:%S')], as the naive datetime it spells. *)
Definition strftime (d : aware) : naive := wall d.

(** [n.replace(tzinfo=pytz.UTC).astimezone(tz)]. *)
Definition utc_to_local (tz : zone) (n : naive) : aware := now tz n.

End Time.

(** ** Scheduling, cancelling and firing *)

Module Scheduler.
Import Bot Env Prim.
Local Open Scope eff_scope.

(** [s.split(':')]; [cur] is the part being read. *)
Fixpoint split_colon (s cur : string) : list string :=
  match s with
  | EmptyString => [cur]
  | String c s' =>
      if Ascii.eqb c ":" then cur :: split_colon s' ""
      else split_colon s' (cur +:+ String c "")
  end.

(** [cursor.lastrowid] after an [INSERT] into a table keyed by an integer
    [id]: one more than the largest id in use. *)
Definition lastrowid (db : gmap Z row) : Z :=
  1 + map_fold (fun k _ acc => Z.max k acc) 0 db.

(** [f"post_{post_id}"]. *)
Definition job_id (post_id : Z) : string := "post_" +:+ pretty post_id.

Section WithEnv.
Variable E : env.

(** Lines 932-939: [Some (hour, minute)], or [None] for [ValueError]. *)
Definition parse_time (text : string) : option (Z * Z) :=
  let time_text := py_strip E text in
  if contains ":" time_text then
    match split_colon time_text "" with
    | [h; m] =>
        match py_int E h, py_int E m with
        | Some hour, Some minute => Some (hour, minute)
        | _, _ => None
        end
    | _ => None
    end
  else
    match py_int E time_text with
    | Some hour => Some (hour, 0)
    | None => None
    end.

(** A statement on the database. *)
Definition sql (f : gmap Z row -> gmap Z row) : M unit :=
  match sqlite_error E with
  | Some e => raise e
  | None => modify (set_db f)
  end.

(** [send_scheduled_file({"id": post_id}, context.application)]. *)
Definition dispatch (post_id : Z) : M unit :=
  fun w =>
    let '(db', r) := send_scheduled_file E post_id (db_posts w) in
    (r, add_dispatched post_id (set_db (fun _ => db') w)).

(** The closure [send_post_job] (lines 1024-1046). *)
Definition send_post_job (post_id : Z) : M unit :=
  try_catch
    (dispatch post_id >> modify (add_log (LogJobSent post_id)))
    (fun job_error => modify (add_log (LogJobError post_id job_error))).

(** What [get_scheduler_manager()] hands out: the manager registered
    globally or on the application, whose scheduler holds the job store
    [scheduler w]; failing that a [SchedulerManager("UTC")] made on the
    spot, whose jobs nobody runs; [None] when making it raises. *)
Inductive manager : Type :=
| Registered
| Temporary
| NoManager.

Definition get_scheduler_manager (w : world) : manager :=
  match scheduler w with
  | Some _ => Registered
  | None => if manager_unavailable E then NoManager else Temporary
  end.

(** One round of the loop of lines 1004-1063. *)
Definition schedule_post (mgr : manager) (channel_id : option Z)
    (target : Time.aware) (p : post) (success_count : Z) : M Z :=
  try_catch
    (match p_type p, p_content p with
     | Some ty, Some content =>
         let* w := get in
         let post_id := lastrowid (db_posts w) in
         sql (fun db =>
                <[post_id := {| r_channel_id := channel_id; r_type := ty;
                                r_content := content;
                                r_caption := p_caption p;
                                r_scheduled_time := Time.strftime target |}]> db) >>
         match mgr with
         | Registered =>
             modify (set_scheduler
               (option_map (fun jobs =>
                  <[job_id post_id := {| j_run_at := Time.to_utc target;
                                         j_post_id := post_id |}]> jobs))) >>
             ret (success_count + 1)
         | Temporary => ret (success_count + 1)
         | NoManager => modify (add_log LogNoScheduler) >> ret success_count
         end
     | _, _ => raise "KeyError"
     end)
    (fun e => modify (add_log (LogScheduleError e)) >> ret success_count).

Fixpoint schedule_posts (mgr : manager) (channel_id : option Z)
    (target : Time.aware) (ps : list post) (success_count : Z) : M Z :=
  match ps with
  | [] => ret success_count
  | p :: ps' =>
      let* n := schedule_post mgr channel_id target p success_count in
      schedule_posts mgr channel_id target ps' n
  end.

(** Lines 958-981: the target of the request on the user's clock. *)
Definition target_date_local (tz : Time.zone) (day : string) (hour minute : Z)
  : Time.aware :=
  let local_now := Time.now tz (now_utc E) in
  let t := Time.replace_time local_now hour minute in
  if String.eqb day "tomorrow" then Time.add_days t 1 else t.

(** [handle_schedule_time(update, context)]; [text] is
    [update.message.text]. *)
Definition handle_schedule_time (text : option string) : M conv_state :=
  try_catch
    (match text with
     | None => ret SCHEDULE_SEND
     | Some txt =>
     if negb (truthy_str text) then ret SCHEDULE_SEND else
     let* w := get in
     match schedule_day (ud w) with
     | None => ui E MsgNoDay >> ret SCHEDULE_SEND
     | Some day =>
     let ps := default [] (posts (ud w)) in
     if bool_decide (ps = []) && negb (bool_decide (is_Some (current_scheduled_post (ud w))))
     then ui E MsgNoContent >> ret MAIN_MENU else
     match parse_time txt with
     | None => ui E MsgBadFormat >> ret SCHEDULE_SEND
     | Some (hour, minute) =>
     if negb ((0 <=? hour) && (hour <=? 23)) || negb ((0 <=? minute) && (minute <=? 59))
     then ui E MsgBadHour >> ret SCHEDULE_SEND else
     let* stored_tz := lift (get_user_timezone E) in
     let user_timezone :=
       if truthy_str stored_tz then default "" stored_tz else "Europe/Paris" in
     let* tz := lift (pytz_timezone E user_timezone) in
     let local_now := Time.now tz (now_utc E) in
     let target := target_date_local tz day hour minute in
     if Time.le target local_now then ui E MsgPastTime >> ret SCHEDULE_SEND else
     let channel_id :=
       match selected_channel (ud w) with
       | Some ch => ch_id ch
       | None => None
       end in
     let* success_count :=
       (match current_scheduled_post (ud w) with
        | Some _ => ret 0
        | None => schedule_posts (get_scheduler_manager w) channel_id target ps 0
        end) in
     (if 0 <? success_count then ui E (MsgScheduled success_count)
      else ui E MsgScheduleError) >>
     modify (set_ud (fun _ => cleared)) >>
     ret MAIN_MENU
     end end end)
    (fun _ => try_catch (ui E MsgHandlerError) (fun _ => ret tt) >> ret MAIN_MENU).

Definition pop_current (u : user_data) : user_data :=
  {| posts := posts u; selected_channel := selected_channel u;
     schedule_day := schedule_day u; current_scheduled_post := None;
     auto_destruction_time := auto_destruction_time u;
     thumbnail_prompt_message_id := thumbnail_prompt_message_id u;
     original_file_message_id := original_file_message_id u |}.

(** Lines 1216-1223: [context.application.job_queue.remove_job(job_id)]
    under [try ... except Exception: pass]. The queue of the application
    is not the scheduler of the scheduler manager. *)
Definition job_queue_remove (id : string) : M unit :=
  fun w =>
    match job_queue w with
    | Some q =>
        match remove_job E q id with
        | Ok q' => (Ok tt, set_job_queue (fun _ => Some q') w)
        | Exc _ => (Ok tt, w)
        end
    | None => (Ok tt, w)
    end.

(** [handle_confirm_cancel(update, context)]. *)
Definition handle_confirm_cancel : M conv_state :=
  ui E MsgAnswer >>
  try_catch
    (let* w := get in
     match current_scheduled_post (ud w) with
     | None => ui E MsgNoScheduledPost >> ret MAIN_MENU
     | Some post_id =>
         sql (fun db => delete post_id db) >>
         job_queue_remove (job_id post_id) >>
         ui E MsgCancelled >>
         modify (set_ud pop_current) >>
         ret MAIN_MENU
     end)
    (fun _ => ui E MsgCancelError >> ret MAIN_MENU).

(** The scheduler reaches instant [t]: the job named [id], when armed
    and due, runs once and leaves the job store (a [date] trigger has no
    next run). *)
Definition on_trigger (t : Z) (id : string) : M unit :=
  let* w := get in
  match scheduler w with
  | Some jobs =>
      match jobs !! id with
      | Some j =>
          if j_run_at j <=? t then
            modify (set_scheduler (option_map (fun js => delete id js))) >>
            send_post_job (j_post_id j)
          else ret tt
      | None => ret tt
      end
  | None => ret tt
  end.

(** The rows [planifier_post] shows (lines 1825-1862) with the time it
    prints for each: the stored time is read as UTC and moved to the
    user's zone. The order of the rows is not modelled. *)
Definition shown_time (tz : Time.zone) (r : row) : Time.naive :=
  Time.wall (Time.utc_to_local tz (r_scheduled_time r)).

Definition planifier_post_rows (tz : Time.zone) (db : gmap Z row) : gmap Z Time.naive :=
  shown_time tz <$> filter (fun kr => now_utc E < r_scheduled_time (snd kr)) db.

End WithEnv.
End Scheduler.

(** ** Sending now and auto-destruction *)

Module SendNow.
Import Bot Env Prim.
Local Open Scope eff_scope.

Section WithEnv.
Variable E : env.

(** The job handed to [run_once] (lines 117-130): due
    [timedelta(seconds=auto_destruction_time)] from now, named after the
    message, carrying the chat and the message to delete. *)
Definition destruct_job_for (chat_id : option string)
    (message_id auto_destruction_time : Z) : destruct_job :=
  {| d_name := "auto_delete_" +:+ pretty message_id;
     d_chat_id := chat_id;
     d_message_id := message_id;
     d_fire_at := now_utc E + auto_destruction_time |}.

(** [schedule_auto_destruction(context, chat_id, message_id,
    auto_destruction_time)]: [run_once] is called with the keywords [when],
    [name] and [context] (lines 125-130); the job joins the queue when the
    call returns. *)
Definition schedule_auto_destruction (chat_id : option string)
    (message_id auto_destruction_time : Z) : M bool :=
  try_catch
    (let* w := get in
     match job_queue w with
     | Some q =>
         let j := destruct_job_for chat_id message_id auto_destruction_time in
         lift (run_once ["when"; "name"; "context"]) >>
         modify (set_job_queue (fun _ => Some (q ++ [j])%list)) >>
         ret true
     | None => ret false
     end)
    (fun _ => ret false).

(** [auto_destruction_time and auto_destruction_time > 0]. *)
Definition destruct_requested (auto_destruction_time : option Z) : option Z :=
  match auto_destruction_time with
  | Some t => if 0 <? t then Some t else None
  | None => None
  end.

(** One delivery (lines 2421-2454, 2518-2551, 2555-2570): the send, the
    count and the auto-destruction, under their [try]. The result is the
    new [success_count] and whether the loop [continue]s. *)
Definition deliver (channel : option string) (post_type : string)
    (content : option string) (auto_destruction_time : option Z)
    (success_count : Z) : M (Z * bool) :=
  try_catch
    (let* sent_message := lift (bot_send E channel post_type content) in
     match sent_message with
     | Some message_id =>
         (match destruct_requested auto_destruction_time with
          | Some t =>
              let* _ := schedule_auto_destruction channel message_id t in ret tt
          | None => ret tt
          end) >>
         ret (success_count + 1, false)
     | None => ret (success_count, false)
     end)
    (fun e => modify (add_log (LogSendError e)) >> ret (success_count, true)).

Definition after_send (u : user_data) : user_data :=
  {| posts := Some []; selected_channel := None;
     schedule_day := schedule_day u;
     current_scheduled_post := current_scheduled_post u;
     auto_destruction_time := auto_destruction_time u;
     thumbnail_prompt_message_id := thumbnail_prompt_message_id u;
     original_file_message_id := original_file_message_id u |}.

(** The [for] loop of [send_post_now] (lines 2325-2607). The clean-up,
    the confirmation and [return MAIN_MENU] sit inside the loop body:
    the loop ends at the first post that does not [continue]. Captions,
    keyboards and the client diagnostics do not touch the state and are
    left out. *)
Fixpoint send_posts (channel : option string) (ps : list post)
    (post_index : nat) (success_count : Z) : M (option conv_state) :=
  match ps with
  | [] => ret None
  | p :: ps' =>
      let* w := get in
      let auto_destruction_time := auto_destruction_time (ud w) in
      let post_type := default "" (p_type p) in
      let is_file := String.eqb post_type "photo" || String.eqb post_type "video"
                     || String.eqb post_type "document" in
      let custom := default false (p_has_custom_thumbnail p) in
      let* step :=
        (if is_file then
           if custom then
             deliver channel post_type (p_content p) auto_destruction_time success_count
           else if truthy_str (p_thumbnail p) then
             ui E (MsgThumbNotApplied post_index) >> ret (success_count, true)
           else
             deliver channel post_type (p_content p) auto_destruction_time success_count
         else if String.eqb post_type "text" then
           deliver channel post_type (p_content p) auto_destruction_time success_count
         else ret (success_count, false)) in
      if snd step then send_posts channel ps' (S post_index) (fst step)
      else
        modify (set_ud after_send) >>
        ui E (MsgSent (fst step) (default "" channel)) >>
        ret (Some MAIN_MENU)
  end.

(** Lines 2318-2320: a public channel name gets its [@]. *)
Definition with_at (channel : option string) : option string :=
  match channel with
  | Some c =>
      if negb (startswith "@" c) && negb (startswith "-100" c)
      then Some ("@" +:+ c) else Some c
  | None => None
  end.

(** [send_post_now(update, context)] for the posts of the session. *)
Definition send_post_now : M (option conv_state) :=
  try_catch
    (let* w := get in
     let ps := default [] (posts (ud w)) in
     match ps with
     | [] => ui E MsgNothingToSend >> ret (Some MAIN_MENU)
     | first :: _ =>
         let of_post := match p_channel first with Some c => c | None => None end in
         let channel :=
           if truthy_str of_post then of_post
           else match selected_channel (ud w) with
                | Some ch => match ch_username ch with
                             | Some u => Some u
                             | None => Some "@default_channel"
                             end
                | None => Some "@default_channel"
                end in
         send_posts (with_at channel) ps 0 0
     end)
    (fun _ => ui E MsgSendError >> ret (Some MAIN_MENU)).

End WithEnv.
End SendNow.

(** * Specification predicates *)

Module Spec.
Import Bot Env Prim.

(** The original of a post reached the pipeline as [file_path]: it was the
    local copy of the post, or a download returned it. *)
Definition fetched (E : env) (p : post) (content file_path : string) : Prop :=
  p_local_path p = Some file_path \/
  (exists sz, bot_download E content = DlReturn (Some file_path) sz) \/
  (exists b sz, client_download E b content = DlReturn (Some file_path) sz).

(** [new] is the post [old] once its content reference was replaced by
    [new_file_id]: the reference and the flag are both set, the reference it
    had is kept aside, and every other entry of the post is as it was. *)
Definition swapped (old : post) (new_file_id : string) (new : post) : Prop :=
  p_content new = Some new_file_id /\
  p_has_custom_thumbnail new = Some true /\
  p_original_file_id new = p_content old /\
  p_type new = p_type old /\
  p_caption new = p_caption old /\
  p_filename new = p_filename old /\
  p_channel new = p_channel old /\
  p_channel_name new = p_channel_name old /\
  p_file_size new = p_file_size old /\
  p_duration new = p_duration old /\
  p_local_path new = p_local_path old /\
  p_thumbnail new = p_thumbnail old /\
  p_reactions new = p_reactions old /\
  p_buttons new = p_buttons old.

(** [new_file_id] is the [file_id] that an upload of [file_path] through
    [send_file_smart] succeeded with. *)
Definition uploaded (E : env) (file_path new_file_id : string) : Prop :=
  exists thumb_to_use result,
    send_file_smart E file_path thumb_to_use = Ok result /\
    sr_success result = true /\
    sr_file_id result = Some new_file_id /\
    new_file_id <> "".

(** Between [w] and [w'] the post at [post_index] went through every stage
    of the pipeline: the post was found, a thumbnail was registered, the
    original was fetched, the upload succeeded and returned a [file_id], and
    the list of posts of [w'] is that of [w] with this post replaced by one
    that carries the returned [file_id] and the flag. *)
Definition substituted (E : env) (post_index : Z) (w w' : world) : Prop :=
  exists ps k old content clean thumb file_path new_file_id new,
    posts (ud w) = Some ps /\
    Pipeline.py_index ps post_index = Ok k /\
    ps !! k = Some old /\
    p_content old = Some content /\
    get_thumbnail E clean = Ok (Some thumb) /\
    fetched E old content file_path /\
    uploaded E file_path new_file_id /\
    swapped old new_file_id new /\
    posts (ud w') = Some (<[k := new]> ps).

(** The stages at which the pipeline can fail. *)
Definition no_post (post_index : Z) (w : world) : Prop :=
  match posts (ud w) with
  | None => True
  | Some ps => Z.of_nat (length ps) <= post_index
  end.

Definition no_thumbnail (E : env) : Prop :=
  forall name t, get_thumbnail E name <> Ok (Some t).

Definition refetch_fails (E : env) (w : world) : Prop :=
  (forall ps p, posts (ud w) = Some ps -> p ∈ ps -> p_local_path p = None) /\
  (forall c fp sz, bot_download E c <> DlReturn (Some fp) sz) /\
  (forall b c fp sz, client_download E b c <> DlReturn (Some fp) sz).

Definition upload_fails (E : env) : Prop :=
  forall fp th result,
    send_file_smart E fp th = Ok result ->
    sr_success result = false \/ sr_file_id result = None \/
    sr_file_id result = Some "".

(** The backends tried after the Bot API: none, or one advanced client. *)
Definition one_fallback (rest : list backend) : Prop :=
  rest = [] \/ rest = [Pyrogram] \/ rest = [Telethon].

End Spec.

(** * The Dispatcher of the specification *)

Module Dispatcher.
Import Bot.

(** Modelled from the spec: the capability descriptor that every transport
    backend exposes, [{maxInlineSize, supportsUpload}] (section 6), and the
    record the Transport Capability Registry keeps for a backend: is it
    usable now, and what are its constraints (section 2). In the bot the
    backends of a send are chosen by [send_file_smart]
    ([handlers/media_handler.py]) and [send_scheduled_file]
    ([utils/scheduler_utils.py]), which are not among the three files. *)
Record capability : Type := {
  maxInlineSize : Z;
  supportsUpload : bool
}.

Record entry : Type := {
  backend_of : backend;
  usable : bool;
  constraints : capability
}.

(** Modelled from the spec: the capability a delivery requires (step 1 of
    section 4.2): the size of the payload, and whether fresh bytes must be
    uploaded or the stored reference can be used again. *)
Record requirement : Type := {
  payload_size : Z;
  fresh_upload : bool
}.

(** Modelled from the spec: the failure kinds of a send (step 4). *)
Inductive error_kind : Type :=
| TooLarge
| ReferenceExpired
| TransientNetwork
| PermissionDenied
| Unsupported.

(** Modelled from the spec: what [Send(content, target)] of a backend
    answers, a message handle or an error. *)
Inductive sent : Type :=
| Handle (message_id : Z)
| Error (kind : error_kind).

(** Modelled from the spec: what [Deliver] answers; [NoBackend] when no
    backend of the registry can carry the item. *)
Inductive outcome : Type :=
| Delivered (message_id : Z)
| Failed (kind : error_kind)
| NoBackend.

(** Modelled from the spec: the declared constraints of a usable backend
    satisfy the requirement. *)
Definition satisfies (e : entry) (r : requirement) : bool :=
  usable e &&
  (payload_size r <=? maxInlineSize (constraints e)) &&
  implb (fresh_upload r) (supportsUpload (constraints e)).

(** Modelled from the spec: the first backend, in the preference order of
    the registry, whose declared constraints satisfy the requirement
    (step 2), with the backends that come after it. *)
Fixpoint first_capable (registry : list entry) (r : requirement)
  : option (entry * list entry) :=
  match registry with
  | [] => None
  | e :: rest => if satisfies e r then Some (e, rest) else first_capable rest r
  end.

(** Modelled from the spec: [TransientNetwork] is retried up to a small
    fixed bound, 2 retries. *)
Definition retry_bound : nat := 2.

(** Modelled from the spec: the attempts on one backend. [send b n] is the
    answer of backend [b] to the [n]-th attempt of the call; the result is
    the last answer and the attempts made. *)
Fixpoint attempt (send : backend -> nat -> sent) (b : backend)
    (retries n : nat) : sent * list backend :=
  match send b n with
  | Error TransientNetwork =>
      match retries with
      | O => (Error TransientNetwork, [b])
      | S retries' =>
          let '(answer, made) := attempt send b retries' (S n) in
          (answer, b :: made)
      end
  | answer => (answer, [b])
  end.

(** Modelled from the spec: the answer of the last send is the outcome of
    the call. *)
Definition outcome_of (answer : sent) : outcome :=
  match answer with
  | Handle message_id => Delivered message_id
  | Error kind => Failed kind
  end.

(** Modelled from the spec: [Deliver] (section 4.2, steps 2 to 5). The
    send is attempted on the first capable backend; [TooLarge] and
    [ReferenceExpired] trigger one fallback to the next capable backend in
    preference order within the same call; the other kinds propagate. The
    result is the outcome and the backends attempted, in order. *)
Definition deliver (send : backend -> nat -> sent) (registry : list entry)
    (r : requirement) : outcome * list backend :=
  match first_capable registry r with
  | None => (NoBackend, [])
  | Some (e, rest) =>
      let '(answer, made) := attempt send (backend_of e) retry_bound 0 in
      match answer with
      | Error TooLarge | Error ReferenceExpired =>
          match first_capable rest r with
          | Some (e', _) =>
              let '(answer', made') :=
                attempt send (backend_of e') retry_bound (length made) in
              (outcome_of answer', (made ++ made')%list)
          | None => (outcome_of answer, made)
          end
      | _ => (outcome_of answer, made)
      end
  end.

End Dispatcher.

(** * Concrete sessions *)

Module Scenario.
Import Bot Env Prim.

(** [int] on a string of decimal digits. *)
Fixpoint digits (s : string) (acc : Z) : option Z :=
  match s with
  | EmptyString => Some acc
  | String c s' =>
      let n := Z.of_nat (nat_of_ascii c) in
      if (48 <=? n) && (n <=? 57) then digits s' (10 * acc + (n - 48)) else None
  end.

Definition int_of_digits (s : string) : option Z :=
  match s with
  | EmptyString => None
  | _ => digits s 0
  end.

(** Europe/Paris in winter: UTC+1. *)
Definition paris_winter : Time.zone := fun _ => 3600.

(** 2026-01-15 10:00:00 UTC, that is 11:00 in Paris. *)
Definition morning : Z := 1768471200.

(** An environment where Telegram answers every call of the user
    interface; the oracles that vary between the scenarios are arguments. *)
Definition environment (bot_dl : string -> dl)
    (dispatch : Z -> gmap Z row -> gmap Z row * res unit)
    (remove : list destruct_job -> string -> res (list destruct_job)) : env :=
  {| ui_fails := fun _ => false;
     ui_message_id := fun n => Some (Z.of_nat n);
     bot_download := bot_dl;
     get_best_client := fun _ => Ok {| ci_client := true; ci_type := "pyrogram" |};
     client_download := fun _ fid => DlReturn (Some ("downloads/" +:+ fid)) (Some 1000);
     get_thumbnail := fun _ => Ok (Some (ThumbId "thumb-file-id"));
     send_file_smart := fun _ _ =>
       Ok {| sr_success := true; sr_message_id := Some 77;
             sr_file_id := Some "new-file-id"; sr_error := None |};
     bot_send := fun _ _ _ => Ok (Some 555);
     send_scheduled_file := dispatch;
     remove_job := remove;
     now_utc := morning;
     get_user_timezone := Ok (Some "Europe/Paris");
     pytz_timezone := fun _ => Ok paris_winter;
     py_int := int_of_digits;
     py_strip := fun s => s;
     sqlite_error := None;
     manager_unavailable := false |}.

(** The Bot API refuses the file as too big; a scheduled dispatch fails
    because the bot was removed from the channel; the job queue of the
    application has no [remove_job]. *)
Definition E0 : env :=
  environment (fun _ => DlRaise "File is too big")
    (fun _ db => (db, Exc "Forbidden: bot is not a member of the channel chat"))
    (fun _ _ => Exc "'JobQueue' object has no attribute 'remove_job'").

(** The same with a generous job queue: [remove_job] drops the jobs of
    that name from the queue of the application. *)
Definition E_remove : env :=
  environment (fun _ => DlRaise "File is too big")
    (fun _ db => (db, Ok tt))
    (fun q id => Ok (filter (fun j => d_name j <> id) q)).

(** The Bot API download comes back with an empty file. *)
Definition E_empty : env :=
  environment (fun _ => DlReturn (Some "AgADBAAD_video.mp4") (Some 0))
    (fun _ db => (db, Ok tt))
    (fun _ _ => Exc "'JobQueue' object has no attribute 'remove_job'").

Definition text_post : post :=
  {| p_type := Some "text"; p_content := Some "hello"; p_caption := None;
     p_filename := None; p_channel := Some (Some "@news");
     p_channel_name := Some "News"; p_file_size := None; p_duration := None;
     p_local_path := None; p_thumbnail := None;
     p_has_custom_thumbnail := None; p_original_file_id := None;
     p_reactions := []; p_buttons := [] |}.

(** A video forwarded to the bot, without a local copy. *)
Definition video_post : post :=
  {| p_type := Some "video"; p_content := Some "BAACAgQAAx0"; p_caption := Some "";
     p_filename := None; p_channel := Some (Some "@news");
     p_channel_name := Some "News"; p_file_size := Some 7340032;
     p_duration := Some 12; p_local_path := None; p_thumbnail := None;
     p_has_custom_thumbnail := None; p_original_file_id := None;
     p_reactions := []; p_buttons := [] |}.

Definition news : channel :=
  {| ch_id := Some 3; ch_username := Some "news"; ch_name := Some "News" |}.

Definition session (ps : list post) (day : option string)
    (current : option Z) (auto : option Z) : user_data :=
  {| posts := Some ps; selected_channel := Some news; schedule_day := day;
     current_scheduled_post := current; auto_destruction_time := auto;
     thumbnail_prompt_message_id := None; original_file_message_id := None |}.

Definition start (u : user_data) : world :=
  {| ud := u; db_posts := ∅; scheduler := Some ∅; job_queue := Some [];
     fs := ∅; attempts := []; dispatched := []; outbox := []; ui_calls := 0;
     log := []; temp_files := [] |}.

(** [show_scheduled_post] (line 1934): the user opens a scheduled post,
    which becomes [current_scheduled_post]. *)
Definition open_post (post_id : Z) (w : world) : world :=
  set_ud (fun u =>
    {| posts := posts u; selected_channel := selected_channel u;
       schedule_day := schedule_day u; current_scheduled_post := Some post_id;
       auto_destruction_time := auto_destruction_time u;
       thumbnail_prompt_message_id := thumbnail_prompt_message_id u;
       original_file_message_id := original_file_message_id u |}) w.

(** 14:30 in Paris on 2026-01-15, as a wall clock and as a UTC instant,
    and 15:30 on the same wall clock. *)
Definition half_past_two_wall : Z := 1768487400.
Definition half_past_two_utc : Z := 1768483800.
Definition half_past_three_wall : Z := 1768491000.

(** A 2 GB video sent to the bot. *)
Definition big_video : Intake.message :=
  {| Intake.text := None; Intake.photo := [];
     Intake.video := Some {| Intake.file_id := "BAACAgQAAx0";
                             Intake.file_size := Some 2147483648;
                             Intake.duration := Some 5400;
                             Intake.file_name := None |};
     Intake.document := None; Intake.caption := None |}.

(** Thumbnails of at most 200 kB, first encoded at quality 85. *)
Definition thumb_settings : Thumb.settings :=
  {| Thumb.temp_folder := "temp"; Thumb.thumb_quality := 85;
     Thumb.max_thumb_size := 204800 |}.

(** An image whose JPEG takes 250 kB and 1 kB more per point of quality:
    335 kB at quality 85, 255 kB at quality 5. *)
Definition heavy_image : Thumb.encoder := fun q => Some (250000 + 1000 * q).

Definition open_heavy : string -> option Thumb.encoder := fun _ => Some heavy_image.

(** The size limit the spec gives for the primary backend: 50 MB. *)
Definition primary_limit : Z := 50 * 1024 * 1024.

(** Modelled from the spec: the primary backend of the end-to-end scenario
    of section 8, with its limit of 50 MB; the fallback clients below can
    carry the 2 GB video of that scenario. *)
Definition primary : Dispatcher.entry :=
  {| Dispatcher.backend_of := BotAPI; Dispatcher.usable := true;
     Dispatcher.constraints :=
       {| Dispatcher.maxInlineSize := primary_limit;
          Dispatcher.supportsUpload := true |} |}.

(** Modelled from the spec: the two richer fallback clients, in their
    preference order. *)
Definition fallbacks : list Dispatcher.entry :=
  [ {| Dispatcher.backend_of := Pyrogram; Dispatcher.usable := true;
       Dispatcher.constraints :=
         {| Dispatcher.maxInlineSize := 2 * 1024 * 1024 * 1024;
            Dispatcher.supportsUpload := true |} |};
    {| Dispatcher.backend_of := Telethon; Dispatcher.usable := true;
       Dispatcher.constraints :=
         {| Dispatcher.maxInlineSize := 2 * 1024 * 1024 * 1024;
            Dispatcher.supportsUpload := true |} |} ].

(** Modelled from the spec: the registry, the primary backend first. *)
Definition registry : list Dispatcher.entry := primary :: fallbacks.

End Scenario.

(** * The rest of the handlers *)

(** ** More of [str]: [split], [join] and [replace] *)

Module Str.

(** [s.split(sep)] for a separator of one character; [cur] is the part
    being read. *)
Fixpoint split_on (sep : ascii) (s cur : string) : list string :=
  match s with
  | EmptyString => [cur]
  | String c s' =>
      if Ascii.eqb c sep then cur :: split_on sep s' ""
      else split_on sep s' (cur +:+ String c "")
  end.

Definition split (sep : ascii) (s : string) : list string := split_on sep s "".

(** [parts[-1]] of a [split], which is never empty. *)
Definition last_part (sep : ascii) (s : string) : string :=
  default "" (last (split sep s)).

(** [sep.join(parts)]. *)
Fixpoint join (sep : string) (parts : list string) : string :=
  match parts with
  | [] => ""
  | p :: rest =>
      match rest with
      | [] => p
      | _ => p +:+ sep +:+ join sep rest
      end
  end.

(** [s.replace(old, '')] for a non-empty [old]: the occurrences of [old]
    are dropped from left to right, without overlap; [skip] counts the
    characters of the occurrence being dropped that are still to come. *)
Fixpoint remove_go (old s : string) (skip : nat) : string :=
  match s with
  | EmptyString => EmptyString
  | String c s' =>
      match skip with
      | S k => remove_go old s' k
      | O =>
          if startswith old s then remove_go old s' (String.length old - 1)
          else String c (remove_go old s' 0)
      end
  end.

Definition remove_all (old s : string) : string :=
  match old with
  | EmptyString => s
  | _ => remove_go old s 0
  end.

(** [c in s] for one character. *)
Fixpoint mentions (c : ascii) (s : string) : bool :=
  match s with
  | EmptyString => false
  | String a s' => Ascii.eqb a c || mentions c s'
  end.

(** [c in '0123456789']. *)
Definition is_digit (c : ascii) : bool :=
  let n := nat_of_ascii c in (Nat.leb 48 n && Nat.leb n 57)%bool.

Fixpoint all_digits (s : string) : bool :=
  match s with
  | EmptyString => true
  | String c s' => is_digit c && all_digits s'
  end.

End Str.

(** ** Inline keyboards *)

Module Keyboard.
Import Bot.

(** An [InlineKeyboardButton]: its label and its [callback_data] or its
    [url]. *)
Record button : Type := {
  b_text : string;
  b_callback_data : option string;
  b_url : option string
}.

(** Lines 2394-2397, 2492-2495 and 2880-2883: the button of a reaction
    under the post at [post_index]. *)
Definition reaction_data (post_index : nat) (reaction : string) : string :=
  "reaction_" +:+ pretty post_index +:+ "_" +:+ reaction.

Definition reaction_button (post_index : nat) (reaction : string) : button :=
  {| b_text := reaction;
     b_callback_data := Some (reaction_data post_index reaction);
     b_url := None |}.

(** The loop of lines 2391-2402: rows of four reactions, the row left
    open when the reactions run out is appended after the loop. *)
Fixpoint reaction_rows (post_index : nat) (reactions : list string)
    (current_row : list button) (keyboard : list (list button))
  : list (list button) :=
  match reactions with
  | [] =>
      match current_row with
      | [] => keyboard
      | _ => (keyboard ++ [current_row])%list
      end
  | reaction :: rest =>
      let row := (current_row ++ [reaction_button post_index reaction])%list in
      if Nat.eqb (length row) 4
      then reaction_rows post_index rest [] (keyboard ++ [row])%list
      else reaction_rows post_index rest row keyboard
  end.

(** Lines 2380-2416: the keyboard sent with a post, [None] when it has
    no row. The reactions and the URL buttons are held as lists (the JSON
    text the database keeps is decoded before). *)
Definition post_keyboard (post_index : nat) (p : post)
  : option (list (list button)) :=
  let reactions_part :=
    match p_reactions p with
    | [] => []
    | reactions => reaction_rows post_index reactions [] []
    end in
  let keyboard :=
    (reactions_part ++
     map (fun b => [{| b_text := fst b; b_callback_data := None;
                       b_url := Some (snd b) |}]) (p_buttons p))%list in
  match keyboard with
  | [] => None
  | _ => Some keyboard
  end.

(** Lines 1774-1777: the button of a channel, from its ['name'] and its
    ['username']. *)
Definition channel_button (ch : string * string) : button :=
  {| b_text := fst ch;
     b_callback_data := Some ("select_channel_" +:+ snd ch);
     b_url := None |}.

(** The loop of lines 1773-1782 over [enumerate(channels)]: [n] is
    [len(channels)], [i] the index of the channel at the head. *)
Fixpoint channel_rows (n i : nat) (channels : list (string * string))
    (current_row : list button) (keyboard : list (list button))
  : list (list button) :=
  match channels with
  | [] => keyboard
  | ch :: rest =>
      let row := (current_row ++ [channel_button ch])%list in
      if Nat.eqb (length row) 2 || Nat.eqb i (n - 1)
      then channel_rows n (S i) rest [] (keyboard ++ [row])%list
      else channel_rows n (S i) rest row keyboard
  end.

(** The rows of the channels in the keyboard of
    [handle_create_publication]; two rows of actions follow them. *)
Definition channel_keyboard (channels : list (string * string))
  : list (list button) :=
  channel_rows (length channels) 0 channels [] [].

End Keyboard.

(** ** Reactions clicked in the channel *)

Module Reaction.

(** What [query.answer] is given. *)
Inductive notification : Type :=
| Counted (reaction : string)
| FormatError.

(** Lines 585-612 of [handle_callback]: the update of
    [context.bot_data['reaction_counts']] ([None] is the absent key) and
    the notification that follows it. *)
Definition reaction_click (callback_data : string)
    (reaction_counts : option (gmap string Z))
  : option (gmap string Z) * notification :=
  let parts := Str.split "_" callback_data in
  if (3 <=? length parts)%nat then
    let post_index := nth 1 parts "" in
    let reaction := Str.join "_" (drop 2 parts) in
    let counts := default ∅ reaction_counts in
    let reaction_key := post_index +:+ "_" +:+ reaction in
    let current_count := default 0 (counts !! reaction_key) in
    (Some (<[reaction_key := current_count + 1]> counts), Counted reaction)
  else (reaction_counts, FormatError).

(** The key of [reaction_counts] that the handler builds for a click on
    the button of [reaction] under the post at [post_index]. *)
Definition reaction_key (post_index : nat) (reaction : string) : string :=
  pretty post_index +:+ "_" +:+ reaction.

(** [reaction_counts.get(key, 0)] on the dictionary of the bot. *)
Definition count_of (reaction_counts : option (gmap string Z)) (key : string) : Z :=
  default 0 (default ∅ reaction_counts !! key).

End Reaction.

(** ** [handle_callback]: the dispatch on [callback_data] *)

Module Router.

(** The branch of [handle_callback] that runs, with the argument it
    extracts from [callback_data] (before [int] where the branch converts
    it). *)
Inductive target : Type :=
| ignored
| main_menu_keyboard
| to_handle_create_publication
| to_planifier_post
| to_schedule_send
| to_send_post_now
| auto_destruction_keyboard
| auto_dest (seconds : string)
| schedule_day_chosen (day : string)
| to_handle_edit_time
| to_handle_cancel_post
| to_handle_confirm_cancel
| to_custom_settings_menu
| to_manage_channels_menu
| to_handle_timezone_settings
| to_handle_set_timezone (timezone_code : string)
| to_handle_manual_timezone
| to_add_channel_prompt
| to_use_default_channel
| to_select_channel (channel_username : string)
| to_show_channel_options (channel_username : string)
| to_custom_channel_settings (channel_username : string)
| to_thumbnail_handler (action : string)
| confirm_large_thumbnail
| to_delete_channel (channel_id : string)
| to_confirm_delete_channel (channel_id : string)
| to_show_edit_file_menu (post_index : string)
| preview_all
| delete_all_posts
| to_handle_rename_post (post_index : string)
| to_handle_add_thumbnail_to_post_callback (post_index : string)
| add_thumb (post_index : string)
| to_add_reactions_to_post (post_index : string)
| to_add_url_button_to_post (post_index : string)
| to_remove_reactions (post_index : string)
| to_remove_url_buttons (post_index : string)
| to_handle_delete_post (post_index : string)
| to_handle_edit_tag (channel_username : string)
| to_show_scheduled_post
| reaction_clicked
| unhandled.

(** The chain of [if]/[elif] of lines 199-619, in its order. *)
Definition route (callback_data : string) : target :=
  let equals := String.eqb callback_data in
  let starts p := startswith p callback_data in
  let without p := Str.remove_all p callback_data in
  let last_part := Str.last_part "_" callback_data in
  if equals "" then ignored
  else if equals "main_menu" then main_menu_keyboard
  else if equals "create_publication" then to_handle_create_publication
  else if equals "planifier_post" then to_planifier_post
  else if equals "schedule_send" then to_schedule_send
  else if equals "send_now" then to_send_post_now
  else if equals "auto_destruction" then auto_destruction_keyboard
  else if starts "auto_dest_" then auto_dest last_part
  else if equals "schedule_today" || equals "schedule_tomorrow" then
    schedule_day_chosen (if equals "schedule_today" then "today" else "tomorrow")
  else if equals "modifier_heure" then to_handle_edit_time
  else if equals "envoyer_maintenant" then to_send_post_now
  else if equals "annuler_publication" then to_handle_cancel_post
  else if equals "confirm_cancel" then to_handle_confirm_cancel
  else if equals "retour" then to_planifier_post
  else if equals "settings" then to_custom_settings_menu
  else if equals "manage_channels" then to_manage_channels_menu
  else if equals "timezone_settings" then to_handle_timezone_settings
  else if starts "set_timezone_" then to_handle_set_timezone (without "set_timezone_")
  else if equals "manual_timezone" then to_handle_manual_timezone
  else if equals "add_channel" then to_add_channel_prompt
  else if equals "use_default_channel" then to_use_default_channel
  else if starts "select_channel_" then to_select_channel (without "select_channel_")
  else if starts "channel_" then to_show_channel_options (without "channel_")
  else if starts "custom_channel_" then
    to_custom_channel_settings (without "custom_channel_")
  else if equals "custom_settings" then to_custom_settings_menu
  else if equals "thumbnail_menu" then to_thumbnail_handler "handle_thumbnail_functions"
  else if equals "view_thumbnail" then to_thumbnail_handler "handle_view_thumbnail"
  else if equals "delete_thumbnail" then to_thumbnail_handler "handle_delete_thumbnail"
  else if equals "add_thumbnail" then to_thumbnail_handler "handle_add_thumbnail"
  else if equals "confirm_large_thumbnail" then confirm_large_thumbnail
  else if starts "delete_channel_" then to_delete_channel (without "delete_channel_")
  else if starts "confirm_delete_channel_" then
    to_confirm_delete_channel (without "confirm_delete_channel_")
  else if starts "edit_file_" then to_show_edit_file_menu (without "edit_file_")
  else if equals "preview_all" then preview_all
  else if equals "delete_all_posts" then delete_all_posts
  else if starts "rename_post_" then to_handle_rename_post (without "rename_post_")
  else if starts "edit_file_" then to_show_edit_file_menu (without "edit_file_")
  else if starts "add_thumbnail_" then
    to_handle_add_thumbnail_to_post_callback (without "add_thumbnail_")
  else if starts "add_thumb_" then add_thumb last_part
  else if starts "add_reactions_" then to_add_reactions_to_post last_part
  else if starts "add_url_button_" then to_add_url_button_to_post last_part
  else if starts "remove_reactions_" then to_remove_reactions last_part
  else if starts "remove_url_buttons_" then to_remove_url_buttons last_part
  else if starts "delete_post_" then to_handle_delete_post last_part
  else if starts "edit_tag_" then to_handle_edit_tag (without "edit_tag_")
  else if starts "show_post_" then to_show_scheduled_post
  else if starts "reaction_" then reaction_clicked
  else unhandled.

(** The [callback_data] of the buttons shown under a post, by
    [_send_post_with_buttons] (lines 742-745 of [message_handlers.py]),
    by [show_edit_file_menu] (lines 2033-2035) and by
    [process_thumbnail_and_upload] (lines 3372-3385 and 3454). *)
Definition post_button (action : string) (post_index : nat) : string :=
  action +:+ "_" +:+ pretty post_index.

(** The [callback_data] of the buttons that name a channel (lines 407,
    1264, 1406-1407, 1448-1449, 1490 and 1776). *)
Definition channel_data (action channel_username : string) : string :=
  action +:+ "_" +:+ channel_username.

End Router.

(** ** The handlers behind the buttons of a pending post *)

Module Callback.
Import Bot Env Prim.
Local Open Scope eff_scope.

Definition set_auto_destruction_time (t : option Z) (u : user_data) : user_data :=
  {| posts := posts u; selected_channel := selected_channel u;
     schedule_day := schedule_day u;
     current_scheduled_post := current_scheduled_post u;
     auto_destruction_time := t;
     thumbnail_prompt_message_id := thumbnail_prompt_message_id u;
     original_file_message_id := original_file_message_id u |}.

Definition set_schedule_day (day : string) (u : user_data) : user_data :=
  {| posts := posts u; selected_channel := selected_channel u;
     schedule_day := Some day;
     current_scheduled_post := current_scheduled_post u;
     auto_destruction_time := auto_destruction_time u;
     thumbnail_prompt_message_id := thumbnail_prompt_message_id u;
     original_file_message_id := original_file_message_id u |}.

Definition set_thumbnail_prompt (mid : option Z) (u : user_data) : user_data :=
  {| posts := posts u; selected_channel := selected_channel u;
     schedule_day := schedule_day u;
     current_scheduled_post := current_scheduled_post u;
     auto_destruction_time := auto_destruction_time u;
     thumbnail_prompt_message_id := mid;
     original_file_message_id := original_file_message_id u |}.

Section WithEnv.
Variable E : env.

(** A message to the user whose text is none of the kinds of [ui_msg]:
    the call counts and can raise like any other call made for the user
    interface; the outbox keeps no trace of its text. *)
Definition ui_text : M unit :=
  fun w =>
    if ui_fails E (ui_calls w)
    then (Exc "telegram error", ui_step None w)
    else (Ok tt, ui_step None w).

(** [safe_edit_callback_message(query, text, ...)]. *)
Definition safe_edit_callback_message : M unit :=
  try_catch ui_text
    (fun e => if contains "Message is not modified" e then ret tt else raise e).

(** [handle_delete_post(update, context, post_index)]. *)
Definition handle_delete_post (post_index : Z) : M conv_state :=
  try_catch
    (ui E MsgAnswer >>
     let* w := get in
     match posts (ud w) with
     | None => ui_text >> ret WAITING_PUBLICATION_CONTENT
     | Some ps =>
         if Z.of_nat (length ps) <=? post_index then
           ui_text >> ret WAITING_PUBLICATION_CONTENT
         else
           (* deleted_post = posts[post_index], then posts.pop(post_index) *)
           let* k := lift (Pipeline.py_index ps post_index) in
           modify (set_ud (set_posts (Some (delete k ps)))) >>
           ui_text >>
           ret WAITING_PUBLICATION_CONTENT
     end)
    (fun _ => ui_text >> ret WAITING_PUBLICATION_CONTENT).

(** [handle_add_thumbnail_to_post_callback(update, context, post_index)];
    [message_id] is [query.message.message_id]. *)
Definition handle_add_thumbnail_to_post_callback (message_id : option Z)
    (post_index : Z) : M conv_state :=
  try_catch
    (modify (set_ud (set_thumbnail_prompt message_id)) >>
     let* success := Pipeline.process_thumbnail_and_upload E post_index in
     if success then ret WAITING_PUBLICATION_CONTENT else ret MAIN_MENU)
    (fun _ => safe_edit_callback_message >> ret MAIN_MENU).

(** The branches of [handle_callback] that work on the session. [other]
    stands for the handlers and the branches that are not embedded; the
    value is the state the conversation moves to ([None] when the handler
    returns nothing). *)
Definition branch (message_id : option Z)
    (other : Router.target -> M (option conv_state)) (t : Router.target)
  : M (option conv_state) :=
  match t with
  | Router.to_send_post_now => SendNow.send_post_now E
  | Router.auto_dest last =>
      match py_int E last with
      | None => raise "invalid literal for int() with base 10"
      | Some seconds =>
          (if seconds =? 0 then
             modify (set_ud (set_auto_destruction_time None)) >>
             safe_edit_callback_message
           else
             modify (set_ud (set_auto_destruction_time (Some seconds))) >>
             safe_edit_callback_message) >>
          ret (Some MAIN_MENU)
      end
  | Router.schedule_day_chosen day =>
      modify (set_ud (set_schedule_day day)) >>
      ui_text >>
      ret (Some SCHEDULE_SEND)
  | Router.to_handle_confirm_cancel =>
      let* s := Scheduler.handle_confirm_cancel E in ret (Some s)
  | Router.delete_all_posts =>
      modify (set_ud (fun u =>
        match posts u with
        | Some _ => set_posts (Some []) u
        | None => u
        end)) >>
      ui_text >>
      ret (Some WAITING_PUBLICATION_CONTENT)
  | Router.to_handle_add_thumbnail_to_post_callback post_index =>
      match py_int E post_index with
      | None => raise "invalid literal for int() with base 10"
      | Some i =>
          let* s := handle_add_thumbnail_to_post_callback message_id i in
          ret (Some s)
      end
  | Router.to_handle_delete_post last =>
      match py_int E last with
      | None => ui E MsgAnswer >> ret (Some MAIN_MENU)
      | Some i => let* s := handle_delete_post i in ret (Some s)
      end
  | _ => other t
  end.

(** [handle_callback(update, context)] for [query.data = callback_data]. *)
Definition handle_callback (message_id : option Z)
    (other : Router.target -> M (option conv_state)) (callback_data : string)
  : M (option conv_state) :=
  match Router.route callback_data with
  | Router.ignored => ret None
  | t =>
      try_catch
        (ui E MsgAnswer >> branch message_id other t)
        (fun _ => ui_text >> ret (Some MAIN_MENU))
  end.

End WithEnv.
End Callback.

(** ** Sending a scheduled post by hand, and sending all the pending posts *)

Module Sending.
Import Bot Env Prim.
Local Open Scope eff_scope.

(** The [post] dictionary given to [handle_send_scheduled_post]. *)
Record scheduled_post : Type := {
  sp_id : Z;
  sp_channel_username : option string;
  sp_type : option string;
  sp_content : option string;
  sp_caption : option string;
  sp_reactions : list string
}.

(** [post_type] is one of the four kinds the handlers send. *)
Definition sendable_type (post_type : string) : bool :=
  String.eqb post_type "photo" || String.eqb post_type "video" ||
  String.eqb post_type "document" || String.eqb post_type "text".

(** Lines 2970-2972: what is left of the session after
    [handle_send_normal_posts]. *)
Definition after_normal_send (u : user_data) : user_data :=
  {| posts := Some []; selected_channel := None;
     schedule_day := schedule_day u;
     current_scheduled_post := current_scheduled_post u;
     auto_destruction_time := None;
     thumbnail_prompt_message_id := thumbnail_prompt_message_id u;
     original_file_message_id := original_file_message_id u |}.

Section WithEnv.
Variable E : env.
(** The query of lines 2645-2651 on the tables [posts] and [channels]:
    the username of the channel of a post, [None] when no row comes
    back. *)
Variable channel_of_post : Z -> res (option string).
(** Does [from mon_bot_telegram.handlers.reaction_functions import
    create_reactions_keyboard] raise, and does the call. *)
Variable import_reaction_functions : res unit.
Variable create_reactions_keyboard : list string -> res unit.
(** [DatabaseManager().list_channels(user_id)]: the ['username'] of each
    channel ([None] for a channel without the key). *)
Variable list_channels : res (list (option string)).

(** [channel if channel.startswith('@') else f"@{channel}"]. *)
Definition at_prefixed (channel : string) : string :=
  if startswith "@" channel then channel else "@" +:+ channel.

(** Lines 2639-2666: the channel of a scheduled post. *)
Definition scheduled_channel (post : scheduled_post) : M string :=
  let* channel :=
    (if truthy_str (sp_channel_username post)
     then ret (default "" (sp_channel_username post))
     else
       match channel_of_post (sp_id post) with
       | Ok (Some username) => ret (at_prefixed username)
       | _ => raise "Impossible de déterminer le canal de destination"
       end) in
  ret (if negb (startswith "@" channel) && negb (startswith "-" channel)
       then "@" +:+ channel else channel).

(** Lines 2755-2768: the job of the post leaves the scheduler of the
    scheduler manager, under [try ... except: warning]. *)
Definition remove_scheduled_job (id : string) : M unit :=
  let* w := get in
  match Scheduler.get_scheduler_manager E w with
  | Scheduler.Registered =>
      modify (set_scheduler (option_map (fun jobs => delete id jobs)))
  | Scheduler.Temporary => ret tt
  | Scheduler.NoManager => modify (add_log LogNoScheduler)
  end.

(** [handle_send_scheduled_post(update, context, post)]. The keyboard of
    URL buttons it builds is not passed to any call and is left out. *)
Definition handle_send_scheduled_post (post : scheduled_post) : M conv_state :=
  try_catch
    (let* channel := scheduled_channel post in
     if negb (truthy_str (sp_content post)) then raise "Contenu du post manquant"
     else if negb (truthy_str (sp_type post)) then raise "Type de post manquant"
     else
       let post_type := default "" (sp_type post) in
       let* sent_message :=
         (if sendable_type post_type then
            lift import_reaction_functions >>
            (match sp_reactions post with
             | [] => ret tt
             | reactions => lift (create_reactions_keyboard reactions)
             end) >>
            lift (bot_send E (Some channel) post_type (sp_content post))
          else raise "Type de post non supporté") in
       match sent_message with
       | Some _ =>
           Scheduler.sql E (fun db => delete (sp_id post) db) >>
           remove_scheduled_job (Scheduler.job_id (sp_id post)) >>
           Callback.ui_text E >>
           modify (set_ud Scheduler.pop_current) >>
           ret MAIN_MENU
       | None => raise "Échec de l'envoi du message"
       end)
    (fun _ => Callback.ui_text E >> ret MAIN_MENU).

(** Telegram takes the post and the database takes the [DELETE]: the
    channel is found, the content and the type are there, the keyboard of
    the reactions can be made, the send returns the message. *)
Definition goes_out (post : scheduled_post) (w : world) : Prop :=
  exists channel sent,
    fst (scheduled_channel post w) = Ok channel /\
    truthy_str (sp_content post) = true /\
    truthy_str (sp_type post) = true /\
    sendable_type (default "" (sp_type post)) = true /\
    import_reaction_functions = Ok tt /\
    (sp_reactions post = [] \/ create_reactions_keyboard (sp_reactions post) = Ok tt) /\
    bot_send E (Some channel) (default "" (sp_type post)) (sp_content post)
      = Ok (Some sent) /\
    sqlite_error E = None.

(** Lines 2809-2829: the channel the pending posts go to. *)
Definition normal_channel (ps : list post) : M string :=
  let* w := get in
  match ps with
  | [] => raise "list index out of range"
  | first :: _ =>
      let of_post := match p_channel first with Some c => c | None => None end in
      let channel :=
        if truthy_str of_post then default "" of_post
        else match selected_channel (ud w) with
             | Some ch => default "@default_channel" (ch_username ch)
             | None => "@default_channel"
             end in
      let* channel :=
        (if negb (truthy_str (Some channel)) || String.eqb channel "@default_channel"
         then
           let* channels := lift list_channels in
           match channels with
           | [] => ret channel
           | username :: _ => ret (at_prefixed (default "@default_channel" username))
           end
         else ret channel) in
      ret (if negb (startswith "@" channel) && negb (startswith "-" channel)
           then "@" +:+ channel else channel)
  end.

(** One round of the loop of lines 2834-2967, under its [try]; the
    result is the new [sent_count]. *)
Definition send_one (channel : string) (auto_destruction_time : Z) (p : post)
    (sent_count : Z) : M Z :=
  try_catch
    (if negb (truthy_str (p_content p)) then ret sent_count
     else if negb (truthy_str (p_type p)) then ret sent_count
     else
       let post_type := default "" (p_type p) in
       if sendable_type post_type then
         let* sent_message := lift (bot_send E (Some channel) post_type (p_content p)) in
         match sent_message with
         | Some message_id =>
             (if 0 <? auto_destruction_time then
                let* _ := SendNow.schedule_auto_destruction E (Some channel)
                            message_id auto_destruction_time in
                ret tt
              else ret tt) >>
             ret (sent_count + 1)
         | None => ret sent_count
         end
       else ret sent_count)
    (fun e => modify (add_log (LogSendError e)) >> ret sent_count).

Fixpoint send_all (channel : string) (auto_destruction_time : Z)
    (ps : list post) (sent_count : Z) : M Z :=
  match ps with
  | [] => ret sent_count
  | p :: rest =>
      let* n := send_one channel auto_destruction_time p sent_count in
      send_all channel auto_destruction_time rest n
  end.

(** [handle_send_normal_posts(update, context, posts)]. *)
Definition handle_send_normal_posts (ps : list post) : M conv_state :=
  try_catch
    (let* channel := normal_channel ps in
     let* w := get in
     let auto_destruction_time := Intake.or_zero (auto_destruction_time (ud w)) in
     let* sent_count := send_all channel auto_destruction_time ps 0 in
     modify (set_ud after_normal_send) >>
     ui E (MsgSent sent_count channel) >>
     ret MAIN_MENU)
    (fun _ => Callback.ui_text E >> ret MAIN_MENU).

(** The posts that one round of the loop delivers: the content and the
    type are there, the type is one the loop sends, and Telegram returns
    the message. *)
Definition delivered (channel : string) (p : post) : bool :=
  truthy_str (p_content p) && truthy_str (p_type p) &&
  sendable_type (default "" (p_type p)) &&
  match bot_send E (Some channel) (default "" (p_type p)) (p_content p) with
  | Ok (Some _) => true
  | _ => false
  end.

End WithEnv.
End Sending.

(** ** The thumbnail files of [thumb_utils] *)

Module ThumbFile.
Import Bot Env Prim.
Local Open Scope eff_scope.

Section WithEnv.
Variable E : env.
Variable cfg : Thumb.settings.
Variable Image_open : string -> option Thumb.encoder.

(** [optimize_thumbnail(image_path, output_path)] on the file system of
    the bot. *)
Definition optimize_to (image_path : string) (output_path : option string)
  : M (option string) :=
  fun w =>
    let '(out, f) :=
      Thumb.optimize_thumbnail cfg Image_open (fs w) image_path output_path in
    (Ok out, set_fs (fun _ => f) w).

(** [file_obj.download_to_drive(temp_path)]: the Bot API download, whose
    result is a [pathlib.Path]. *)
Definition download_to_drive (thumb_id : string) : M (option pathlike) :=
  let* p := download BotAPI (bot_download E thumb_id) in
  ret (option_map PathObj p).

(** [os.makedirs(settings.temp_folder, exist_ok=True)]. *)
Definition make_temp_folder : M unit :=
  fun w =>
    let '(r, f) := FS.makedirs (Thumb.temp_folder cfg) (fs w) in
    (r, set_fs (fun _ => f) w).

(** [download_thumbnail_for_telethon(context, thumb_id, user_id)]. *)
Definition download_thumbnail_for_telethon (thumb_id : string) : M (option string) :=
  try_catch
    (make_temp_folder >>
     let* downloaded_path := download_to_drive thumb_id in
     let* w := get in
     match downloaded_path with
     | None => ret None
     | Some d =>
         if negb (truthy_path d) || negb (FS.exists_ (fs w) (fspath d))
         then ret None
         else
           let* output_path := lift (add_str d "_opt.jpg") in
           let* optimized_path :=
             optimize_to (fspath d) (Some (fspath output_path)) in
           (match optimized_path with
            | Some o =>
                if truthy_str optimized_path && negb (str_eq o d)
                then modify (set_fs (fun f => FS.remove_quiet f (fspath d)))
                else ret tt
            | None => ret tt
            end) >>
           ret (if truthy_str optimized_path then optimized_path
                else Some (fspath d))
     end)
    (fun _ => ret None).

(** [cleanup_thumbnail_file(file_path)]. *)
Definition cleanup_thumbnail_file (file_path : option string) : M unit :=
  match file_path with
  | Some p =>
      if truthy_str file_path then Pipeline.cleanup_one p else ret tt
  | None => ret tt
  end.

End WithEnv.
End ThumbFile.

(** ** The hashtags of a channel *)

Module Tags.

(** What [handle_tag_input] does with the text of the message once a
    channel is being edited (lines 978-1034). *)
Inductive outcome : Type :=
| Cleared
| Rejected
| Stored (hashtag_string : string) (limit_reached : bool).

Section WithStrip.
(** [str.strip]. *)
Variable strip : string -> string.

(** One round of the loop of lines 990-1000. *)
Definition add_word (hashtags : list string) (word : string) : list string :=
  let clean_word := strip word in
  let clean_word :=
    if negb (String.eqb clean_word "") && negb (startswith "#" clean_word)
    then "#" +:+ clean_word else clean_word in
  if negb (String.eqb clean_word "") && (1 <? String.length clean_word)%nat
     && negb (bool_decide (clean_word ∈ hashtags))
  then (hashtags ++ [clean_word])%list else hashtags.

(** The hashtags kept from [words = text.split()], cut to ten. *)
Definition hashtags_of (words : list string) : list string :=
  take 10 (fold_left add_word words []).

(** Lines 978-1026, from [text] and [text.split()]. *)
Definition tag_input (text : string) (words : list string) : outcome :=
  if String.eqb text "." then Cleared
  else
    let hashtags := fold_left add_word words [] in
    match hashtags with
    | [] => Rejected
    | _ => Stored (Str.join " " (take 10 hashtags))
                  (10 <? length hashtags)%nat
    end.

End WithStrip.

(** A hashtag as the loop keeps it: a [#] and something after it. *)
Definition well_formed (t : string) : Prop :=
  startswith "#" t = true /\ (1 < String.length t)%nat.

End Tags.

(** ** Predicates used in the statements below *)

Module Frame.
Import Bot Env.

(** Between [w] and [w'] nothing was scheduled, cancelled or changed in
    the session: the posts table, the job store of the scheduler, the job
    queue and the session are the same. *)
Definition untouched (w w' : world) : Prop :=
  db_posts w' = db_posts w /\ scheduler w' = scheduler w /\
  job_queue w' = job_queue w /\ ud w' = ud w.

(** The row that [handle_schedule_time] inserts for a post (lines
    1010-1016). *)
Definition row_for (channel_id : option Z) (target : Time.aware) (p : post) : row :=
  {| r_channel_id := channel_id;
     r_type := default "" (p_type p);
     r_content := default "" (p_content p);
     r_caption := p_caption p;
     r_scheduled_time := Time.strftime target |}.

(** The job it arms for the row [post_id] (lines 1048-1054). *)
Definition job_for (target : Time.aware) (post_id : Z) : job :=
  {| j_run_at := Time.to_utc target; j_post_id := post_id |}.

(** A post that carries the two keys the scheduling loop reads. *)
Definition schedulable (p : post) : Prop :=
  is_Some (p_type p) /\ is_Some (p_content p).

(** What a call may add to the job queue: nothing, or one job. *)
Definition at_most_one_job (w w' : world) : Prop :=
  job_queue w' = job_queue w \/
  exists q j, job_queue w = Some q /\ job_queue w' = Some (q ++ [j])%list.

(** The effect of one call on the outbox, on the job queue and on the
    list of posts. *)
Definition one_delivery (w w' : world) : Prop :=
  (exists k, outbox w' = (outbox w ++ k)%list /\
             forall n c, In (MsgSent n c) k -> n = 0 \/ n = 1) /\
  at_most_one_job w w' /\
  (posts (ud w') = posts (ud w) \/ posts (ud w') = Some []).

End Frame.
(** * Reasoning about handlers *)

Module Logic.
Create HintDb stable.
Create HintDb wpspec.
Import Bot Env Prim.
Local Open Scope eff_scope.

Lemma wp_ret {A} (a : A) Q w : Q (Ok a) w -> wp (ret a) Q w.
Proof. exact id. Qed.

Lemma wp_raise {A} e (Q : res A -> world -> Prop) w : Q (Exc e) w -> wp (raise e) Q w.
Proof. exact id. Qed.

Lemma wp_lift {A} (r : res A) Q w : Q r w -> wp (lift r) Q w.
Proof. exact id. Qed.

Lemma wp_get Q w : Q (Ok w) w -> wp get Q w.
Proof. exact id. Qed.

Lemma wp_modify f Q w : Q (Ok tt) (f w) -> wp (modify f) Q w.
Proof. exact id. Qed.

Lemma wp_bind {A B} (m : M A) (k : A -> M B) Q w :
  wp m (fun r w' => match r with
                    | Ok a => wp (k a) Q w'
                    | Exc e => Q (Exc e) w'
                    end) w ->
  wp (bind m k) Q w.
Proof. unfold wp, bind. destruct (m w) as [[a|e] w']; simpl; auto. Qed.

Lemma wp_try_catch {A} (m : M A) (h : string -> M A) Q w :
  wp m (fun r w' => match r with
                    | Ok a => Q (Ok a) w'
                    | Exc e => wp (h e) Q w'
                    end) w ->
  wp (try_catch m h) Q w.
Proof. unfold wp, try_catch. destruct (m w) as [[a|e] w']; simpl; auto. Qed.

Lemma wp_finally {A} (m : M A) (f : M unit) Q w :
  wp m (fun r w' =>
          wp f (fun r2 w'' => match r2 with
                              | Ok _ => Q r w''
                              | Exc e => Q (Exc e) w''
                              end) w') w ->
  wp (finally m f) Q w.
Proof.
  unfold wp, finally. destruct (m w) as [r w']; simpl.
  destruct (f w') as [[u|e] w'']; simpl; auto.
Qed.

Lemma wp_mono {A} (m : M A) (Q Q' : res A -> world -> Prop) w :
  wp m Q w -> (forall r w', Q r w' -> Q' r w') -> wp m Q' w.
Proof. unfold wp. auto. Qed.

Lemma wp_stable {A} (m : M A) (Q : res A -> world -> Prop) w :
  stable m ->
  (forall r w', posts (ud w') = posts (ud w) -> Q r w') ->
  wp m Q w.
Proof. intros Hs HQ. apply HQ, Hs. Qed.

Lemma stable_ret {A} (a : A) : stable (ret a).
Proof. intros w. reflexivity. Qed.

Lemma stable_raise {A} e : stable (@raise A e).
Proof. intros w. reflexivity. Qed.

Lemma stable_lift {A} (r : res A) : stable (lift r).
Proof. intros w. reflexivity. Qed.

Lemma stable_get : stable get.
Proof. intros w. reflexivity. Qed.

Lemma stable_bind {A B} (m : M A) (k : A -> M B) :
  stable m -> (forall a, stable (k a)) -> stable (bind m k).
Proof.
  intros Hm Hk w. unfold bind. specialize (Hm w).
  destruct (m w) as [[a|e] w']; simpl in *; [|done].
  rewrite <- Hm. apply Hk.
Qed.

Lemma stable_try_catch {A} (m : M A) (h : string -> M A) :
  stable m -> (forall e, stable (h e)) -> stable (try_catch m h).
Proof.
  intros Hm Hh w. unfold try_catch. specialize (Hm w).
  destruct (m w) as [[a|e] w']; simpl in *; [done|].
  rewrite <- Hm. apply Hh.
Qed.

Lemma stable_finally {A} (m : M A) (f : M unit) :
  stable m -> stable f -> stable (finally m f).
Proof.
  intros Hm Hf w. unfold finally. specialize (Hm w).
  destruct (m w) as [r w']; simpl in *. specialize (Hf w').
  destruct (f w') as [[u|e] w'']; simpl in *; congruence.
Qed.

Lemma stable_modify f :
  (forall w, posts (ud (f w)) = posts (ud w)) -> stable (modify f).
Proof. intros Hf w. apply Hf. Qed.

Section WithEnv.
Variable E : env.

Lemma stable_ui m : stable (ui E m).
Proof. intros w. unfold ui. destruct (ui_fails E _); reflexivity. Qed.

Lemma stable_ui_sending m : stable (ui_sending E m).
Proof. intros w. unfold ui_sending. destruct (ui_fails E _); reflexivity. Qed.

Lemma stable_download b d : stable (download b d).
Proof.
  intros w. unfold download.
  destruct d as [msg|[p|] [sz|]]; reflexivity.
Qed.
End WithEnv.

(** Symbolic execution: structural rules first, then the stable calls. *)
Ltac stable_step :=
  first
    [ apply stable_ret | apply stable_raise | apply stable_lift
    | apply stable_get | apply stable_ui | apply stable_ui_sending
    | apply stable_download
    | apply stable_bind | apply stable_try_catch | apply stable_finally
    | apply stable_modify; intros ?; reflexivity
    | match goal with
      | |- stable (if ?b then _ else _) => destruct b
      | |- stable (match ?x with _ => _ end) => destruct x
      | |- forall _, _ => intros ?
      end ].
Ltac stable_tac := repeat (stable_step || solve [auto with stable nocore]).

(** A call with a specification [R] of its own. *)
Lemma wp_use {A} (m : M A) (R : world -> res A -> world -> Prop)
    (Q : res A -> world -> Prop) w :
  spec m R ->
  (forall r w', R w r w' -> Q r w') ->
  wp m Q w.
Proof. intros HR HQ. apply HQ, HR. Qed.

Lemma spec_wp {A} (m : M A) (R : world -> res A -> world -> Prop) :
  (forall w, wp m (R w) w) -> spec m R.
Proof. exact id. Qed.

Ltac wp_step :=
  lazymatch goal with
  | |- wp (bind _ _) _ _ => apply wp_bind
  | |- wp (try_catch _ _) _ _ => apply wp_try_catch
  | |- wp (finally _ _) _ _ => apply wp_finally
  | |- wp (ret _) _ _ => apply wp_ret
  | |- wp (raise _) _ _ => apply wp_raise
  | |- wp (lift _) _ _ => apply wp_lift
  | |- wp get _ _ => apply wp_get
  | |- wp (modify _) _ _ => apply wp_modify
  | |- wp (if ?b then _ else _) _ _ => destruct b eqn:?
  | |- wp (match ?x with _ => _ end) _ _ => destruct x eqn:?
  | |- match ?r with Ok _ => _ | Exc _ => _ end => destruct r eqn:?
  | |- wp _ _ _ =>
      first [ eapply wp_use; [solve [auto with wpspec nocore] | lazy beta; intros ? ? ?]
            | apply wp_stable; [solve [stable_tac] | intros ? ? ?] ]
  end; lazy beta iota.

End Logic.

(** * Directories *)

Module FSProps.
Import FS.

Lemma grown_refl (fs : t) : grown fs fs.
Proof. split; auto. Qed.

Lemma grown_trans (fs1 fs2 fs3 : t) : grown fs1 fs2 -> grown fs2 fs3 -> grown fs1 fs3.
Proof.
  intros [H1 H2] [H3 H4]. split.
  - intros p x Hp. apply H3, H1, Hp.
  - intros p x Hp. destruct (H4 p x Hp) as [Hq| ->]; [apply H2, Hq | right; reflexivity].
Qed.

Lemma mkdir_grown (fs fs' : t) (name : string) :
  mkdir fs name = Ok fs' -> grown fs fs'.
Proof.
  unfold mkdir, present, exists_.
  destruct (String.eqb name ""); [discriminate|].
  destruct (is_root name) eqn:Hroot; [discriminate|]. cbn [orb].
  destruct (bool_decide (is_Some (fs !! norm name))) eqn:Hex; [discriminate|].
  apply bool_decide_eq_false in Hex.
  assert (fs !! norm name = None) as Hnone
    by (destruct (fs !! norm name); [exfalso; apply Hex; eauto | reflexivity]).
  destruct (_ || _); [|destruct (_ || _); discriminate].
  intros [= <-]. split.
  - intros p x Hp. rewrite lookup_insert_ne; [exact Hp | congruence].
  - intros p x Hp. destruct (decide (norm name = p)) as [<-|Hne].
    + rewrite lookup_insert_eq in Hp. right. congruence.
    + rewrite lookup_insert_ne in Hp by exact Hne. left. exact Hp.
Qed.

(** [os.makedirs] adds directories and changes nothing that was there,
    whether it raises or not. *)
Lemma makedirs_from_grown (fuel : nat) :
  forall (name : string) (fs : t),
    grown fs (snd (makedirs_from fuel name fs)).
Proof.
  assert (forall fs1 name,
            grown fs1 (snd (match mkdir fs1 name with
                            | Ok fs2 => (Ok tt, fs2)
                            | Exc e => if isdir fs1 name then (Ok tt, fs1) else (Exc e, fs1)
                            end))) as Hcreate.
  { intros fs1 name. destruct (mkdir fs1 name) as [fs2|e] eqn:Hmk.
    - exact (mkdir_grown _ _ _ Hmk).
    - destruct (isdir fs1 name); apply grown_refl. }
  induction fuel as [|fuel IH]; intros name fs; cbn [makedirs_from].
  - destruct (split name) as [head tail].
    destruct (if String.eqb tail "" then split head else (head, tail)) as [head' tail'].
    destruct (_ && _); [apply grown_refl | apply Hcreate].
  - destruct (split name) as [head tail].
    destruct (if String.eqb tail "" then split head else (head, tail)) as [head' tail'].
    destruct (_ && _); [|apply Hcreate].
    pose proof (IH head' fs) as Hrec.
    destruct (makedirs_from fuel head' fs) as [r fs1]. cbn [snd] in Hrec.
    destruct r as [[]|e].
    + destruct (String.eqb tail' "."); [exact Hrec|].
      eapply grown_trans; [exact Hrec | apply Hcreate].
    + destruct (String.eqb e "File exists"); [|exact Hrec].
      destruct (String.eqb tail' "."); [exact Hrec|].
      eapply grown_trans; [exact Hrec | apply Hcreate].
Qed.

Lemma makedirs_grown (name : string) (fs : t) : grown fs (snd (makedirs name fs)).
Proof. apply makedirs_from_grown. Qed.

(** There is no directory to make for a path without a folder part:
    [os.makedirs('')] raises. *)
Lemma makedirs_empty (fs : t) :
  makedirs "" fs = (Exc "No such file or directory", fs).
Proof. reflexivity. Qed.

End FSProps.

(** * Thumbnail optimisation *)

Module ThumbProps.
Import Thumb.

(** The loop stops before its fuel runs out: the quality drops by 5 at
    every round and the loop needs it above 5. *)
Lemma reduce_quality_spec (enc : encoder) (cap : Z) :
  (forall x, is_Some (enc x)) ->
  forall (fuel : nat) (q size : Z),
    (Z.to_nat q <= fuel)%nat ->
    exists k qf sf,
      0 <= k /\
      reduce_quality fuel enc cap q size = Finished qf sf /\
      qf = q - 5 * k /\
      (sf <= cap \/ qf <= 5) /\
      (k = 0 -> sf = size) /\
      (0 < k -> enc qf = Some sf /\ cap < size) /\
      (forall j, 0 <= j < k -> 5 < q - 5 * j) /\
      (forall j, 0 < j < k -> exists s, enc (q - 5 * j) = Some s /\ cap < s).
Proof.
  intros Htotal fuel. induction fuel as [|fuel IH]; intros q size Hfuel.
  - exists 0, q, size. simpl.
    destruct (Z.ltb_spec cap size), (Z.ltb_spec 5 q); simpl; try lia;
      repeat split; try lia; f_equal; lia.
  - simpl.
    destruct (Z.ltb_spec cap size) as [Hover|Hunder];
      destruct (Z.ltb_spec 5 q) as [Hq|Hq]; simpl.
    2-4: exists 0, q, size; repeat split; try lia; f_equal; lia.
    destruct (Htotal (q - 5)) as [size' Henc]. rewrite Henc.
    destruct (IH (q - 5) size') as (k & qf & sf & Hk & Hred & Hqf & Hstop & H0 & Hpos & Hq5 & Hmid);
      [lia|].
    exists (k + 1), qf, sf. repeat split; try lia; try assumption.
    + destruct (Z.eq_dec k 0) as [->|Hk0].
      * rewrite (H0 eq_refl). replace qf with (q - 5) by lia. exact Henc.
      * apply Hpos. lia.
    + intros j Hj. destruct (Z.eq_dec j 0) as [->|Hj0]; [lia|].
      specialize (Hq5 (j - 1)). lia.
    + intros j Hj. destruct (Z.eq_dec j 1) as [->|Hj1].
      * exists size'. split; [exact Henc|].
        destruct (Z.eq_dec k 0) as [->|Hk0]; [lia|].
        apply Hpos. lia.
      * destruct (Hmid (j - 1)) as (s & Hs & Hcap); [lia|].
        exists s. split; [|exact Hcap].
        replace (q - 5 * j) with (q - 5 - 5 * (j - 1)) by lia. exact Hs.
Qed.

(** C6, as the code has it. Once the folder of the output is there, and
    the output path is no directory, for an image whose first encoding
    exceeds the cap, [optimize_thumbnail]
    lowers the JPEG quality in steps of 5 and encodes again until the file
    is at most the cap or the quality is at most 5; it then returns the
    output path in both cases, holding the last encoding, over the cap or
    not. Besides that file, the file system holds what it held and the
    directories made for the output. *)
Theorem optimize_thumbnail_over_cap (cfg : settings)
    (Image_open : string -> option encoder) (fs fs0 : FS.t)
    (image_path : string) (output_path : option string)
    (enc : encoder) (size0 : Z) :
  FS.makedirs (FS.dirname (chosen_output cfg output_path)) fs = (Ok tt, fs0) ->
  fs0 !! chosen_output cfg output_path <> Some FS.Dir ->
  Image_open image_path = Some enc ->
  (forall q, is_Some (enc q)) ->
  enc (thumb_quality cfg) = Some size0 ->
  max_thumb_size cfg < size0 ->
  exists k quality size,
    0 <= k /\
    optimize_thumbnail cfg Image_open fs image_path output_path =
      (Some (chosen_output cfg output_path),
       <[chosen_output cfg output_path := FS.File size true]> fs0) /\
    FS.grown fs fs0 /\
    quality = thumb_quality cfg - 5 * k /\
    enc quality = Some size /\
    (size <= max_thumb_size cfg \/ quality <= 5) /\
    (forall j, 0 <= j < k ->
       5 < thumb_quality cfg - 5 * j /\
       exists s, enc (thumb_quality cfg - 5 * j) = Some s /\ max_thumb_size cfg < s).
Proof.
  intros Hdirs Hnodir Hopen Htotal Hfirst Hover.
  destruct (reduce_quality_spec enc (max_thumb_size cfg) Htotal
              (Z.to_nat (thumb_quality cfg)) (thumb_quality cfg) size0)
    as (k & qf & sf & Hk & Hred & Hqf & Hstop & H0 & Hpos & Hq5 & Hmid); [lia|].
  exists k, qf, sf.
  split; [exact Hk|]. split.
  - unfold optimize_thumbnail.
    rewrite Hdirs, Hopen, Hfirst.
    destruct (Z.ltb_spec (max_thumb_size cfg) size0); [|lia].
    rewrite Hred.
    destruct (fs0 !! chosen_output cfg output_path) as [[sz rd|]|];
      [reflexivity | congruence | reflexivity].
  - split.
    { pose proof (FSProps.makedirs_grown
                    (FS.dirname (chosen_output cfg output_path)) fs) as Hg.
      rewrite Hdirs in Hg. exact Hg. }
    split; [exact Hqf|]. split; [|split; [exact Hstop|]].
    + destruct (Z.eq_dec k 0) as [->|Hk0].
      * rewrite (H0 eq_refl). replace qf with (thumb_quality cfg) by lia. exact Hfirst.
      * apply Hpos. lia.
    + intros j Hj. split; [apply Hq5; lia|].
      destruct (Z.eq_dec j 0) as [->|Hj0].
      * exists size0. replace (thumb_quality cfg - 5 * 0) with (thumb_quality cfg) by lia.
        split; [exact Hfirst | exact Hover].
      * apply Hmid. lia.
Qed.

(** What the [except] clause leaves. *)
Lemma optimize_failed_outcome (fs : FS.t) (out : string) :
  fst (optimize_failed fs out) = None /\
  FS.isfile (snd (optimize_failed fs out)) out = false /\
  forall p, p <> out -> snd (optimize_failed fs out) !! p = fs !! p.
Proof.
  unfold optimize_failed, FS.exists_, FS.remove_quiet, FS.remove, FS.isfile.
  cbn [fst snd]. split; [reflexivity|].
  destruct (fs !! out) as [[sz r|]|] eqn:Hout.
  - rewrite bool_decide_eq_true_2 by eauto. split.
    + rewrite lookup_delete_eq. reflexivity.
    + intros p Hp. apply lookup_delete_ne. congruence.
  - rewrite bool_decide_eq_true_2 by eauto. rewrite Hout. auto.
  - rewrite bool_decide_eq_false_2 by (intros [? ?]; discriminate).
    rewrite Hout. auto.
Qed.

(** What the loop returns was measured on an encoding, or is the size it
    started from. *)
Lemma reduce_quality_finished (enc : encoder) (cap : Z) :
  forall (fuel : nat) (q size qf sf : Z),
    reduce_quality fuel enc cap q size = Finished qf sf ->
    (qf = q /\ sf = size) \/ (qf < q /\ enc qf = Some sf).
Proof.
  induction fuel as [|fuel IH]; intros q size qf sf; cbn [reduce_quality].
  - destruct ((cap <? size) && (5 <? q)); [discriminate|].
    intros [= <- <-]. left. auto.
  - destruct ((cap <? size) && (5 <? q)); [|intros [= <- <-]; left; auto].
    destruct (enc (q - 5)) as [size'|] eqn:Henc; [|discriminate].
    intros Hred. destruct (IH _ _ _ _ Hred) as [[-> ->]|[Hlt Hsf]].
    + right. split; [lia | exact Henc].
    + right. split; [lia | exact Hsf].
Qed.

(** The two outcomes of [optimize_thumbnail], from the file system [fs0]
    that [os.makedirs] left. *)
Lemma optimize_thumbnail_outcome (cfg : settings)
    (Image_open : string -> option encoder) (fs : FS.t)
    (image_path : string) (output_path : option string) :
  let out := chosen_output cfg output_path in
  let dirs := FS.makedirs (FS.dirname out) fs in
  let r := optimize_thumbnail cfg Image_open fs image_path output_path in
  (forall p, p <> out -> snd r !! p = snd dirs !! p) /\
  ((fst r = None /\ FS.isfile (snd r) out = false) \/
   (fst r = Some out /\ fst dirs = Ok tt /\
    exists enc quality size,
      Image_open image_path = Some enc /\ enc quality = Some size /\
      quality <= thumb_quality cfg /\
      snd r !! out = Some (FS.File size true))).
Proof.
  intros out dirs r. subst r dirs. unfold optimize_thumbnail. fold out.
  destruct (FS.makedirs (FS.dirname out) fs) as [[[]|e] fs0]; cbn [fst snd].
  2: { destruct (optimize_failed_outcome fs0 out) as (H1 & H2 & H3). auto. }
  destruct (Image_open image_path) as [enc|] eqn:Hopen.
  2: { destruct (optimize_failed_outcome fs0 out) as (H1 & H2 & H3). auto. }
  destruct (enc (thumb_quality cfg)) as [size0|] eqn:Hfirst.
  2: { destruct (optimize_failed_outcome fs0 out) as (H1 & H2 & H3). auto. }
  destruct (fs0 !! out) as [[sz rd|]|] eqn:Hout.
  2: { destruct (optimize_failed_outcome fs0 out) as (H1 & H2 & H3). auto. }
  all: cbv zeta; destruct (max_thumb_size cfg <? size0).
  2, 4: cbn [fst snd]; split;
        [ intros p Hp; apply lookup_insert_ne; congruence
        | right; split; [reflexivity|]; split; [reflexivity|];
          exists enc, (thumb_quality cfg), size0;
          split_and!; auto; [lia | apply lookup_insert_eq] ].
  all: destruct (reduce_quality _ enc _ _ size0) as [qf sf| |] eqn:Hred.
  1, 4: cbn [fst snd]; split;
        [ intros p Hp; apply lookup_insert_ne; congruence
        | right; split; [reflexivity|]; split; [reflexivity|];
          destruct (reduce_quality_finished _ _ _ _ _ _ _ Hred)
            as [[-> ->]|[Hlt Hsf]];
          [ exists enc, (thumb_quality cfg), size0;
            split_and!; auto; [lia | apply lookup_insert_eq]
          | exists enc, qf, sf; split_and!; auto; [lia | apply lookup_insert_eq] ] ].
  all: destruct (optimize_failed_outcome (<[out := FS.File size0 true]> fs0) out)
         as (H1 & H2 & H3);
       (split; [|auto]);
       intros p Hp; rewrite H3 by exact Hp; apply lookup_insert_ne; congruence.
Qed.

(** [optimize_thumbnail] keeps every file and directory that is not its
    output. *)
Lemma optimize_thumbnail_frame (cfg : settings)
    (Image_open : string -> option encoder) (fs : FS.t)
    (image_path : string) (output_path : option string) (p : string) (x : FS.node) :
  p <> chosen_output cfg output_path ->
  fs !! p = Some x ->
  snd (optimize_thumbnail cfg Image_open fs image_path output_path) !! p = Some x.
Proof.
  intros Hp Hx.
  destruct (optimize_thumbnail_outcome cfg Image_open fs image_path output_path)
    as [Hframe _].
  rewrite (Hframe p Hp).
  apply (FSProps.makedirs_grown (FS.dirname (chosen_output cfg output_path)) fs).
  exact Hx.
Qed.

(** [prepare_thumbnail] removes the file it downloaded, whatever
    [optimize_thumbnail] made of it. *)
Lemma prepare_thumbnail_removes_download (E : Env.env) (cfg : settings)
    (Image_open : string -> option encoder) (b : Bot.backend)
    (thumb_id p : string) (sz : Z) (w : Bot.world) :
  Env.client_download E b thumb_id = Env.DlReturn (Some p) (Some sz) ->
  p <> "" ->
  p <> default_output cfg ->
  Bot.fs (snd (ThumbPrep.prepare_thumbnail E cfg Image_open b thumb_id w)) !! p = None.
Proof.
  intros Hdl Hne Hout.
  unfold ThumbPrep.prepare_thumbnail, Bot.try_catch, Bot.bind, Prim.download.
  rewrite Hdl. cbv beta iota.
  assert (truthy_str (Some p) = true) as ->.
  { simpl. destruct (String.eqb_spec p ""); [congruence|reflexivity]. }
  unfold ThumbPrep.optimize. simpl Bot.fs.
  pose proof (optimize_thumbnail_frame cfg Image_open
                (<[p := FS.File sz true]> (Bot.fs w)) p None p (FS.File sz true)
                Hout (lookup_insert_eq _ _ _)) as Hframe.
  destruct (optimize_thumbnail cfg Image_open _ p None) as [out f]. simpl in *.
  unfold FS.remove_quiet, FS.remove. rewrite Hframe.
  apply lookup_delete_eq.
Qed.

(** The theorem at work on the heavy image of the scenarios: the folder
    [temp] is made, the file is written in it. *)
Lemma optimize_thumbnail_over_cap_witness :
  exists k quality size,
    0 <= k /\
    optimize_thumbnail Scenario.thumb_settings Scenario.open_heavy ∅ "logo.png" None =
      (Some "temp/thumb_temp.jpg",
       <["temp/thumb_temp.jpg" := FS.File size true]> (<["temp" := FS.Dir]> ∅)) /\
    FS.grown ∅ (<["temp" := FS.Dir]> ∅) /\
    quality = 85 - 5 * k /\
    Scenario.heavy_image quality = Some size /\
    (size <= 204800 \/ quality <= 5) /\
    (forall j, 0 <= j < k ->
       5 < 85 - 5 * j /\
       exists s, Scenario.heavy_image (85 - 5 * j) = Some s /\ 204800 < s).
Proof.
  apply (optimize_thumbnail_over_cap Scenario.thumb_settings Scenario.open_heavy
           ∅ (<["temp" := FS.Dir]> ∅) "logo.png" None Scenario.heavy_image 335000).
  - vm_compute. reflexivity.
  - vm_compute. discriminate.
  - reflexivity.
  - intros q. eexists. reflexivity.
  - reflexivity.
  - reflexivity.
Defined.

(** C6, as the spec states it, fails on the heavy image: at quality 5 the
    encoding still takes 255 kB, over the cap of 200 kB, and
    [optimize_thumbnail] returns the path of that file instead of failing. *)
Lemma over_cap_thumbnail_is_returned :
  let result := optimize_thumbnail Scenario.thumb_settings Scenario.open_heavy
                  ∅ "logo.png" None in
  Scenario.heavy_image 5 = Some 255000 /\
  max_thumb_size Scenario.thumb_settings < 255000 /\
  fst result = Some "temp/thumb_temp.jpg" /\
  fst result <> None /\
  snd result !! "temp/thumb_temp.jpg" = Some (FS.File 255000 true).
Proof. vm_compute. repeat split; try reflexivity; discriminate. Qed.

End ThumbProps.

(** * Content intake: the list of pending posts *)

Module IntakeProps.
Import Bot Env Prim Logic Intake.
Local Open Scope eff_scope.

Section WithEnv.
Variable E : env.

Lemma stable_via_client b ci fid : stable (via_client E b ci fid).
Proof. unfold via_client. stable_tac. Qed.
Hint Resolve stable_via_client : stable.

Lemma stable_save_photo ph : stable (save_photo E ph).
Proof. unfold save_photo. stable_tac. Qed.

Lemma stable_save_video v : stable (save_video E v).
Proof. unfold save_video. stable_tac. Qed.
Hint Resolve stable_save_photo stable_save_video : stable.

Lemma stable_video_post base msg v : stable (video_post E base msg v).
Proof. unfold video_post. stable_tac. Qed.
Hint Resolve stable_video_post : stable.

Lemma stable_make_post base msg : stable (make_post E base msg).
Proof. unfold make_post. stable_tac. Qed.

Lemma stable_send_post_with_buttons i : stable (_send_post_with_buttons E i).
Proof. unfold _send_post_with_buttons. stable_tac. Qed.
Hint Resolve stable_make_post stable_send_post_with_buttons : stable.

(** What a call of the handler does to the list of posts: nothing, or one
    post appended when fewer than 24 were held and a channel is selected. *)
Lemma handle_post_content_posts msg w :
  wp (handle_post_content E msg)
     (fun _ w' =>
        posts (ud w') = posts (ud w) \/
        ((length (default [] (posts (ud w))) < 24)%nat /\
         exists p, posts (ud w') = Some (default [] (posts (ud w)) ++ [p])%list))
     w.
Proof.
  unfold handle_post_content.
  repeat wp_step; auto; try (left; congruence).
  all: right; split;
    [ match goal with H : (_ <=? _) = false |- _ => apply Z.leb_gt in H; lia end
    | match goal with p : post |- _ => exists p end; simpl in *; congruence ].
Qed.

(** At the limit the handler changes neither the session nor the files. *)
Lemma handle_post_content_full msg w :
  (24 <= length (default [] (posts (ud w))))%nat ->
  let w' := snd (handle_post_content E msg w) in
  ud w' = ud w /\ fs w' = fs w /\
  (selected_channel (ud w) <> None -> ui_fails E (ui_calls w) = false ->
   fst (handle_post_content E msg w) = Ok WAITING_PUBLICATION_CONTENT /\
   outbox w' = (outbox w ++ [MsgLimit24])%list).
Proof.
  intros Hlen. unfold handle_post_content, try_catch, bind, get, ret, ui.
  simpl.
  destruct (selected_channel (ud w)) as [ch|]; simpl.
  - destruct (Z.leb_spec 24 (Z.of_nat (length (default [] (posts (ud w)))))); [|lia].
    simpl. destruct (ui_fails E (ui_calls w)) eqn:Hui; simpl.
    + destruct (ui_fails E (S (ui_calls w))); simpl; repeat split; done.
    + repeat split; done.
  - destruct (ui_fails E (ui_calls w)) eqn:Hui; simpl.
    + destruct (ui_fails E (S (ui_calls w))); simpl; repeat split; done.
    + repeat split; done.
Qed.

End WithEnv.

(** C10. The list of pending posts of a session never grows past 24
    entries through the content-intake handler: a call made while the list
    holds 24 posts or more rejects the content and leaves the list (and the
    whole session) as it was, and any other call appends at most one post. *)
Theorem pending_posts_never_exceed_24 (E : env) (msg : message) (w : world) :
  let ps := default [] (posts (ud w)) in
  let r := fst (handle_post_content E msg w) in
  let w' := snd (handle_post_content E msg w) in
  let ps' := default [] (posts (ud w')) in
  ((24 <= length ps)%nat ->
     ud w' = ud w /\
     (selected_channel (ud w) <> None -> ui_fails E (ui_calls w) = false ->
      r = Ok WAITING_PUBLICATION_CONTENT /\
      outbox w' = (outbox w ++ [MsgLimit24])%list)) /\
  (posts (ud w') = posts (ud w) \/
   exists p, posts (ud w') = Some (ps ++ [p])%list) /\
  ((length ps <= 24)%nat -> (length ps' <= 24)%nat).
Proof.
  intros ps r w' ps'.
  pose proof (handle_post_content_posts E msg w) as Hposts.
  unfold wp in Hposts. fold w' in Hposts. fold ps in Hposts.
  split; [|split].
  - intros Hlen.
    destruct (handle_post_content_full E msg w Hlen) as (Hud & _ & Hout).
    split; [exact Hud | exact Hout].
  - destruct Hposts as [Heq|[_ [p Hp]]]; [left; exact Heq | right; eauto].
  - intros Hlen. subst ps'.
    destruct Hposts as [Heq|[Hlt [p Hp]]].
    + rewrite Heq. exact Hlen.
    + rewrite Hp. simpl. rewrite length_app. simpl. lia.
Qed.

End IntakeProps.

(** * The thumbnail substitution pipeline *)

Module PipelineProps.
Import Bot Env Prim Logic Pipeline Spec.
Local Open Scope eff_scope.

Section WithEnv.
Variable E : env.

Lemma stable_delete_quiet mid : stable (delete_quiet E mid).
Proof. unfold delete_quiet. stable_tac. Qed.
Hint Resolve stable_delete_quiet : stable.

Lemma stable_check_local lp : stable (check_local E lp).
Proof. unfold check_local. stable_tac. Qed.

Lemma stable_fetch_advanced c : stable (fetch_advanced E c).
Proof. unfold fetch_advanced. stable_tac. Qed.
Hint Resolve stable_check_local stable_fetch_advanced : stable.

Lemma stable_fetch_original c : stable (fetch_original E c).
Proof. unfold fetch_original. stable_tac. Qed.

Lemma stable_after_swap ty : stable (after_swap E ty).
Proof. unfold after_swap. stable_tac. Qed.

Lemma stable_cleanup_one p : stable (cleanup_one p).
Proof.
  intros w. unfold cleanup_one.
  destruct (FS.exists_ _ _); [|done]. destruct (FS.remove _ _); done.
Qed.
Hint Resolve stable_fetch_original stable_after_swap stable_cleanup_one : stable.

Lemma stable_cleanup l : stable (cleanup l).
Proof. induction l; simpl; stable_tac. Qed.
Hint Resolve stable_cleanup : stable.

(** A download that returns a path was given that path by the backend. *)
Lemma download_spec b d :
  spec (download b d)
    (fun w r w' =>
       posts (ud w') = posts (ud w) /\
       forall p, r = Ok (Some p) -> exists sz, d = DlReturn (Some p) sz).
Proof.
  intros w. unfold download.
  destruct d as [msg|[p|] [sz|]]; simpl; split; try done;
    intros q [= <-]; eauto.
Qed.
Hint Resolve download_spec : wpspec.

Lemma check_local_spec lp :
  spec (check_local E lp)
    (fun w r w' =>
       posts (ud w') = posts (ud w) /\
       (forall b, r = Ok (inl b) -> b = false) /\
       forall x, r = Ok (inr x) -> x = Some lp).
Proof.
  apply spec_wp; intros w. unfold check_local.
  repeat wp_step; (split; [congruence|]); split; intros x ?; simplify_eq; done.
Qed.
Hint Resolve check_local_spec : wpspec.

Lemma fetch_advanced_spec c :
  spec (fetch_advanced E c)
    (fun w r w' =>
       posts (ud w') = posts (ud w) /\
       forall x, r = Ok x ->
         exists fp b sz, x = Some fp /\ client_download E b c = DlReturn (Some fp) sz).
Proof.
  apply spec_wp; intros w. unfold fetch_advanced.
  repeat wp_step; (split; [simpl; intuition congruence|]).
  all: intros x ?; simplify_eq.
  all: repeat match goal with H : _ /\ _ |- _ => destruct H end.
  all: match goal with
       | H : forall p, Ok ?a = Ok (Some p) -> _ |- _ =>
           destruct a as [fp|]; [destruct (H fp eq_refl) as [sz ?]|]
       end; simplify_eq; eauto.
Qed.
Hint Resolve fetch_advanced_spec : wpspec.

Lemma truthy_nonempty s : truthy_str (Some s) = true -> s <> "".
Proof. simpl. intros H ->. done. Qed.

Lemma invalid_download_false f p :
  invalid_download f p = false -> exists fp, p = Some fp.
Proof. destruct p; [eauto|done]. Qed.

Lemma fetch_original_spec c :
  spec (fetch_original E c)
    (fun w r w' =>
       posts (ud w') = posts (ud w) /\
       (forall b, r = Ok (inl b) -> b = false) /\
       forall x, r = Ok (inr x) ->
         exists fp, x = Some fp /\
           ((exists sz, bot_download E c = DlReturn (Some fp) sz) \/
            (exists b sz, client_download E b c = DlReturn (Some fp) sz))).
Proof.
  apply spec_wp; intros w. unfold fetch_original.
  repeat wp_step; (split; [simpl in *; intuition congruence|]).
  all: (split; [intros ? ?; simplify_eq; done|]).
  all: intros x ?; simplify_eq.
  all: repeat match goal with H : _ /\ _ |- _ => destruct H end.
  - match goal with H : invalid_download _ _ = false |- _ =>
      apply invalid_download_false in H as [fp ->] end.
    match goal with H : forall p, _ -> _ |- _ =>
      destruct (H fp eq_refl) as [sz ?] end.
    eauto 6.
  - match goal with H : forall x, Ok ?a = Ok x -> _ |- _ =>
      destruct (H a eq_refl) as (fp & b & sz & ? & ?) end.
    eauto 8.
Qed.
Hint Resolve fetch_original_spec : wpspec.

(** The three assignments of step 5 set the reference and the flag, keep
    the old reference aside and leave the rest of the post alone. *)
Lemma swap_content_swapped (old : post) (new_file_id : string) :
  swapped old new_file_id (swap_content old new_file_id).
Proof. unfold swapped, swap_content. cbn. split_and!; reflexivity. Qed.

Lemma upload_and_swap_spec k p ty fp thumb :
  spec (upload_and_swap E k p ty fp thumb)
    (fun w r w' =>
       (posts (ud w') = posts (ud w) /\ r <> Ok true) \/
       (exists fid,
          uploaded E fp fid /\
          posts (ud w') =
            option_map (fun ps => <[k := swap_content p fid]> ps) (posts (ud w)))).
Proof.
  apply spec_wp; intros w. unfold upload_and_swap.
  repeat wp_step.
  all: try solve [left; split; [simpl in *; congruence | discriminate]].
  all: right; eexists; split;
       [unfold uploaded; do 2 eexists; repeat split; eauto using truthy_nonempty|].
  all: simpl in *; congruence.
Qed.
Hint Resolve upload_and_swap_spec : wpspec.

Lemma process_body_spec i :
  spec (process_body E i)
    (fun w r w' =>
       (posts (ud w') = posts (ud w) /\ r <> Ok true) \/ substituted E i w w').
Proof.
  apply spec_wp; intros w. unfold process_body.
  repeat wp_step.
  all: try solve [left; split; [simpl in *; intuition congruence | discriminate]].
  all: repeat match goal with H : _ /\ _ |- _ => destruct H end.
  all: try solve [left; split; [simpl in *; congruence|];
                  match goal with
                  | H : forall b, Ok (inl ?c) = Ok (inl b) -> b = false |- _ =>
                      rewrite (H c eq_refl); discriminate
                  end].
  all: match goal with
       | H : _ \/ _ |- _ =>
           destruct H as [[? ?]|(fid & Hup & Hp)]
       end; [left; split; [congruence|done] | right].
  all: match goal with
       | H : forall x, Ok (inr ?y) = Ok (inr x) -> _ |- _ =>
           specialize (H y eq_refl)
       end.
  all: match goal with
       | Hps : posts (ud _) = Some ?l, Hk : py_index ?l _ = Ok ?k,
         Hold : ?l !! ?k = Some ?old, Hc : p_content ?old = Some ?c,
         Ht : get_thumbnail _ ?clean = Ok (Some ?t),
         Hu : uploaded _ ?fp _ |- _ =>
           exists l, k, old, c, clean, t, fp, fid, (swap_content old fid)
       end.
  all: split_and!; try done; try apply swap_content_swapped.
  all: try solve [unfold fetched; simplify_eq; auto];
       try solve [unfold fetched;
                  match goal with
                  | H : exists _, _ |- _ => destruct H as (? & ? & [?|?])
                  end; simplify_eq; auto].
  all: rewrite Hp; repeat match goal with
                   | H : posts (ud _) = _ |- _ => rewrite H
                   end; done.
Qed.
Hint Resolve process_body_spec : wpspec.

Lemma substituted_transport i w1 w1' w2 w2' :
  posts (ud w1) = posts (ud w2) ->
  posts (ud w2') = posts (ud w1') ->
  substituted E i w1 w1' -> substituted E i w2 w2'.
Proof.
  intros H1 H2 (ps & k & old & c & clean & t & fp & fid & new & Hs).
  exists ps, k, old, c, clean, t, fp, fid, new.
  rewrite <- H1, H2. exact Hs.
Qed.

(** The whole call: the outcome and the list of posts it leaves. *)
Lemma process_spec i :
  spec (process_thumbnail_and_upload E i)
    (fun w r w' =>
       (posts (ud w') = posts (ud w) /\ r <> Ok true) \/ substituted E i w w').
Proof.
  apply spec_wp; intros w. unfold process_thumbnail_and_upload.
  repeat wp_step.
  all: match goal with
       | H : _ \/ _ |- _ => destruct H as [[? ?]|Hsub]
       end;
       [ left; split; [simpl in *; congruence | congruence]
       | right; eapply substituted_transport; [| |exact Hsub];
         simpl in *; congruence ].
Qed.

(** A run that went through every stage contradicts the failure of one. *)
Lemma substituted_needs_every_stage i w w' :
  substituted E i w w' ->
  ~ no_post i w /\ ~ no_thumbnail E /\ ~ refetch_fails E w /\ ~ upload_fails E.
Proof.
  intros (ps & k & old & c & clean & t & fp & fid & new &
          Hps & Hk & Hold & Hc & Ht & Hf & (th & res0 & Hs & Hok & Hfid & Hne) & _).
  repeat split.
  - unfold no_post. rewrite Hps. intros Hge.
    unfold py_index in Hk.
    destruct (Z.leb_spec 0 i), (Z.ltb_spec i (Z.of_nat (length ps)));
      simpl in Hk; try lia.
    destruct (Z.ltb_spec i 0); simpl in Hk; [lia|].
    destruct (- Z.of_nat (length ps) <=? i); simpl in Hk; discriminate.
  - intros Hno. exact (Hno clean t Ht).
  - intros (Hlocal & Hbot & Hcl).
    destruct Hf as [Hl|[[sz Hd]|(b & sz & Hd)]].
    + rewrite (Hlocal ps old Hps) in Hl; [discriminate|].
      apply list_elem_of_lookup. eauto.
    + exact (Hbot _ _ _ Hd).
    + exact (Hcl _ _ _ _ Hd).
  - intros Hup. destruct (Hup _ _ _ Hs) as [H|[H|H]]; congruence.
Qed.

End WithEnv.

(** C4. Thumbnail substitution is atomic on the post: a run of the
    pipeline either leaves the list of posts exactly as it was, or, after
    an upload that succeeded and returned a file_id, replaces the post by
    one whose content is that file_id and whose has_custom_thumbnail flag
    is set, every other entry of the post and every other post being kept.
    A run answers [True] only in the second case; a missing post, a missing
    thumbnail, a failed re-fetch or a failed upload all leave the posts
    untouched; and a post whose flag or whose reference differs from what
    it was carries both the flag and the file_id that an upload returned. *)
Theorem thumbnail_substitution_atomic (E : env) (post_index : Z) (w : world) :
  let r := fst (process_thumbnail_and_upload E post_index w) in
  let w' := snd (process_thumbnail_and_upload E post_index w) in
  (posts (ud w') = posts (ud w) \/ substituted E post_index w w') /\
  (r = Ok true -> substituted E post_index w w') /\
  (no_post post_index w \/ no_thumbnail E \/ refetch_fails E w \/ upload_fails E ->
   posts (ud w') = posts (ud w) /\ r <> Ok true) /\
  (forall ps ps', posts (ud w) = Some ps -> posts (ud w') = Some ps' ->
     length ps' = length ps /\
     forall j old q, ps !! j = Some old -> ps' !! j = Some q ->
       q = old \/
       exists file_path new_file_id,
         uploaded E file_path new_file_id /\ swapped old new_file_id q) /\
  (forall ps ps' j old q,
     posts (ud w) = Some ps -> posts (ud w') = Some ps' ->
     ps !! j = Some old -> ps' !! j = Some q ->
     p_has_custom_thumbnail q <> p_has_custom_thumbnail old \/
     p_content q <> p_content old ->
     p_has_custom_thumbnail q = Some true /\
     exists file_path new_file_id,
       uploaded E file_path new_file_id /\ p_content q = Some new_file_id).
Proof.
  intros r w'.
  pose proof (process_spec E post_index w) as Hspec.
  fold r w' in Hspec.
  assert (forall ps ps', posts (ud w) = Some ps -> posts (ud w') = Some ps' ->
            length ps' = length ps /\
            forall j old q, ps !! j = Some old -> ps' !! j = Some q ->
              q = old \/
              exists file_path new_file_id,
                uploaded E file_path new_file_id /\ swapped old new_file_id q)
    as Hposts.
  { intros ps ps' Hps Hps'.
    destruct Hspec as [[Heq _]|Hsub].
    - assert (ps' = ps) as -> by congruence.
      split; [reflexivity|]. intros j old q Hold Hq. left. congruence.
    - destruct Hsub as (ps0 & k & old0 & c & clean & t & fp & fid & new &
                        Hps0 & _ & Hold0 & _ & _ & _ & Hup & Hsw & Hnew).
      assert (ps0 = ps) as -> by congruence.
      assert (ps' = <[k := new]> ps) as -> by congruence.
      split; [apply length_insert|].
      intros j old q Hold Hq.
      destruct (decide (j = k)) as [->|Hjk].
      + right. exists fp, fid.
        rewrite list_lookup_insert_eq in Hq by (eapply lookup_lt_Some; eauto).
        assert (old = old0) as -> by congruence.
        assert (q = new) as -> by congruence.
        split; [exact Hup | exact Hsw].
      + left. rewrite list_lookup_insert_ne in Hq by congruence. congruence. }
  split; [|split; [|split; [|split]]].
  - destruct Hspec as [[Heq _]|Hsub]; auto.
  - intros Hr. destruct Hspec as [[_ Hne]|Hsub]; [congruence | exact Hsub].
  - intros Hstage. destruct Hspec as [H|Hsub]; [exact H|].
    destruct (substituted_needs_every_stage E _ _ _ Hsub) as (H1 & H2 & H3 & H4).
    tauto.
  - exact Hposts.
  - intros ps ps' j old q Hps Hps' Hold Hq Hdiff.
    destruct (Hposts ps ps' Hps Hps') as [_ Hcase].
    destruct (Hcase j old q Hold Hq) as [->|(fp & fid & Hup & Hsw)].
    + destruct Hdiff as [Hd|Hd]; exfalso; apply Hd; reflexivity.
    + destruct Hsw as (Hc & Hflag & _).
      split; [exact Hflag|]. exists fp, fid. split; [exact Hup | exact Hc].
Qed.

(** The pipeline at work: the video of the scenarios is too big for the
    Bot API, the advanced client fetches it, the upload returns a new
    file_id, and the post carries it with the flag. *)
Example substitution_of_a_video :
  let w := Scenario.start (Scenario.session [Scenario.video_post] None None None) in
  let run := process_thumbnail_and_upload Scenario.E0 0 w in
  fst run = Ok true /\
  exists q,
    posts (ud (snd run)) = Some [q] /\
    p_content q = Some "new-file-id" /\
    p_has_custom_thumbnail q = Some true /\
    p_original_file_id q = Some "BAACAgQAAx0" /\
    p_content Scenario.video_post = Some "BAACAgQAAx0" /\
    p_has_custom_thumbnail Scenario.video_post = None.
Proof.
  vm_compute. split; [reflexivity|]. eexists. split_and!; reflexivity.
Qed.

(** The [finally] block does its work on what was registered: no path of
    [temp_files] is a file once the loop is over. *)
Lemma cleanup_one_not_file (q p : string) (w : world) :
  FS.isfile (fs w) p = false ->
  FS.isfile (fs (snd (cleanup_one q w))) p = false.
Proof.
  unfold cleanup_one, FS.isfile, FS.exists_, FS.remove. intros Hp.
  destruct (bool_decide (is_Some (fs w !! q))); [|exact Hp].
  destruct (fs w !! q) as [[sz r|]|] eqn:Hq; simpl; try exact Hp.
  destruct (decide (p = q)) as [->|Hne].
  - rewrite lookup_delete_eq. reflexivity.
  - rewrite lookup_delete_ne by congruence. exact Hp.
Qed.

Lemma cleanup_one_removes (p : string) (w : world) :
  FS.isfile (fs (snd (cleanup_one p w))) p = false.
Proof.
  unfold cleanup_one, FS.isfile, FS.exists_, FS.remove.
  destruct (bool_decide (is_Some (fs w !! p))) eqn:Hex.
  - destruct (fs w !! p) as [[sz r|]|] eqn:Hq; simpl.
    + rewrite lookup_delete_eq. reflexivity.
    + rewrite Hq. reflexivity.
    + rewrite Hq. reflexivity.
  - apply bool_decide_eq_false in Hex.
    destruct (fs w !! p) as [n|] eqn:Hq; [exfalso; apply Hex; eauto|].
    simpl. rewrite Hq. reflexivity.
Qed.

Lemma cleanup_keeps_not_file (l : list string) (p : string) :
  forall w, FS.isfile (fs w) p = false ->
            FS.isfile (fs (snd (cleanup l w))) p = false.
Proof.
  induction l as [|q l IH]; intros w Hp; [exact Hp|].
  simpl. unfold bind.
  pose proof (cleanup_one_not_file q p w Hp) as Hq.
  destruct (cleanup_one q w) as [[[]|e] w1] eqn:Hone; simpl in *.
  - apply IH. exact Hq.
  - unfold cleanup_one in Hone. repeat case_match; simplify_eq.
Qed.

Lemma cleanup_removes (l : list string) (p : string) :
  p ∈ l -> forall w, FS.isfile (fs (snd (cleanup l w))) p = false.
Proof.
  induction l as [|q l IH]; intros Hin w; [inversion Hin|].
  simpl. unfold bind.
  destruct (decide (p = q)) as [->|Hne].
  - pose proof (cleanup_one_removes q w) as Hq.
    destruct (cleanup_one q w) as [[[]|e] w1] eqn:Hone; simpl in *.
    + apply cleanup_keeps_not_file. exact Hq.
    + exact Hq.
  - assert (p ∈ l) as Hl by (inversion Hin; subst; [congruence|assumption]).
    destruct (cleanup_one q w) as [[[]|e] w1] eqn:Hone; simpl.
    + apply IH. exact Hl.
    + unfold cleanup_one in Hone. repeat case_match; simplify_eq.
Qed.

(** C9. A run of the pipeline on a post without a local copy, whose Bot
    API download comes back as an empty file: the download is rejected
    before its path reaches [temp_files], the call answers [False], and the
    empty file it created is still there when it returns. *)
Theorem empty_download_is_left_behind :
  let w := Scenario.start (Scenario.session [Scenario.video_post] None None None) in
  let r := fst (process_thumbnail_and_upload Scenario.E_empty 0 w) in
  let w' := snd (process_thumbnail_and_upload Scenario.E_empty 0 w) in
  fs w !! "AgADBAAD_video.mp4" = None /\
  r = Ok false /\
  temp_files w' = [] /\
  fs w' !! "AgADBAAD_video.mp4" = Some (FS.File 0 true).
Proof. vm_compute. repeat split; reflexivity. Qed.

End PipelineProps.

(** * Scheduling, cancelling and firing *)

Module SchedulerProps.
Import Bot Env Prim Logic Scheduler.
Local Open Scope eff_scope.

(** What a message to the user leaves untouched. *)
Lemma ui_frame (E : env) (m : ui_msg) (w : world) :
  let w' := snd (ui E m w) in
  ud w' = ud w /\ db_posts w' = db_posts w /\ scheduler w' = scheduler w /\
  job_queue w' = job_queue w /\ fs w' = fs w /\ dispatched w' = dispatched w /\
  log w' = log w /\ ui_calls w' = S (ui_calls w).
Proof. unfold ui. destruct (ui_fails E (ui_calls w)); simpl; auto 10. Qed.

Lemma ui_ok (E : env) (m : ui_msg) (w : world) :
  ui_fails E (ui_calls w) = false ->
  ui E m w = (Ok tt, ui_step (Some m) w).
Proof. unfold ui. intros ->. reflexivity. Qed.

(** C5. A request whose target on the user's clock is not strictly after
    now is refused: the handler reports the past time, keeps the
    conversation on the time prompt, inserts no row in the posts table and
    arms no trigger. *)
Theorem past_time_is_rejected (E : env) (txt : string) (w : world)
    (day : string) (hour minute : Z) (stored : option string) (tz : Time.zone) :
  truthy_str (Some txt) = true ->
  schedule_day (ud w) = Some day ->
  (default [] (posts (ud w)) <> [] \/ is_Some (current_scheduled_post (ud w))) ->
  parse_time E txt = Some (hour, minute) ->
  0 <= hour <= 23 ->
  0 <= minute <= 59 ->
  get_user_timezone E = Ok stored ->
  pytz_timezone E (if truthy_str stored then default "" stored else "Europe/Paris")
    = Ok tz ->
  Time.le (target_date_local E tz day hour minute) (Time.now tz (now_utc E)) = true ->
  let r := fst (handle_schedule_time E (Some txt) w) in
  let w' := snd (handle_schedule_time E (Some txt) w) in
  db_posts w' = db_posts w /\
  scheduler w' = scheduler w /\
  job_queue w' = job_queue w /\
  ud w' = ud w /\
  (ui_fails E (ui_calls w) = false ->
   r = Ok SCHEDULE_SEND /\ outbox w' = (outbox w ++ [MsgPastTime])%list).
Proof.
  intros Htxt Hday Hposts Hparse Hh Hm Hstored Htz Hpast.
  assert (bool_decide (default [] (posts (ud w)) = []) &&
          negb (bool_decide (is_Some (current_scheduled_post (ud w)))) = false) as Hguard.
  { destruct Hposts as [Hne|Hsome].
    - rewrite bool_decide_eq_false_2 by exact Hne. reflexivity.
    - rewrite (bool_decide_eq_true_2 _ Hsome). apply andb_false_r. }
  assert (negb ((0 <=? hour) && (hour <=? 23)) || negb ((0 <=? minute) && (minute <=? 59))
          = false) as Hrange.
  { destruct (Z.leb_spec 0 hour), (Z.leb_spec hour 23),
             (Z.leb_spec 0 minute), (Z.leb_spec minute 59); simpl; lia. }
  unfold handle_schedule_time, try_catch, bind, get, lift, ret.
  cbv beta iota. rewrite Htxt. change (negb true) with false. cbv beta iota.
  rewrite Hday. cbv beta iota zeta. rewrite Hguard, Hparse. cbv beta iota.
  rewrite Hrange, Hstored. cbv beta iota. rewrite Htz. cbv beta iota. rewrite Hpast.
  cbv beta iota.
  destruct (ui_fails E (ui_calls w)) eqn:Hui.
  - assert (ui E MsgPastTime w = (Exc "telegram error", ui_step None w)) as ->
      by (unfold ui; rewrite Hui; reflexivity).
    cbv beta iota.
    destruct (ui_frame E MsgHandlerError (ui_step None w))
      as (Hud1 & Hdb1 & Hsch1 & Hjq1 & _).
    destruct (ui E MsgHandlerError (ui_step None w)) as [[[]|e] w2];
      simpl in *; (repeat split; [congruence..|discriminate]).
  - rewrite (ui_ok E MsgPastTime w Hui). simpl. repeat split; reflexivity.
Qed.

(** The theorem at work: at 11:00 in Paris the user asks for 10:30 today. *)
Lemma past_time_is_rejected_witness :
  let E := Scenario.E0 in
  let w := Scenario.start (Scenario.session [Scenario.text_post] (Some "today") None None) in
  truthy_str (Some "10:30") = true /\
  schedule_day (ud w) = Some "today" /\
  (default [] (posts (ud w)) <> [] \/ is_Some (current_scheduled_post (ud w))) /\
  parse_time E "10:30" = Some (10, 30) /\
  0 <= 10 <= 23 /\
  0 <= 30 <= 59 /\
  get_user_timezone E = Ok (Some "Europe/Paris") /\
  pytz_timezone E "Europe/Paris" = Ok Scenario.paris_winter /\
  Time.le (target_date_local E Scenario.paris_winter "today" 10 30)
          (Time.now Scenario.paris_winter (now_utc E)) = true /\
  db_posts (snd (handle_schedule_time E (Some "10:30") w)) = db_posts w /\
  scheduler (snd (handle_schedule_time E (Some "10:30") w)) = scheduler w /\
  job_queue (snd (handle_schedule_time E (Some "10:30") w)) = job_queue w /\
  fst (handle_schedule_time E (Some "10:30") w) = Ok SCHEDULE_SEND /\
  outbox (snd (handle_schedule_time E (Some "10:30") w)) = [MsgPastTime].
Proof.
  intros E w.
  assert (default [] (posts (ud w)) <> [] \/ is_Some (current_scheduled_post (ud w)))
    as Hposts by (left; discriminate).
  split; [reflexivity|]. split; [reflexivity|]. split; [exact Hposts|].
  split; [reflexivity|]. split; [lia|]. split; [lia|].
  split; [reflexivity|]. split; [reflexivity|]. split; [reflexivity|].
  destruct (past_time_is_rejected E "10:30" w "today" 10 30
              (Some "Europe/Paris") Scenario.paris_winter)
    as (Hdb & Hsched & Hjq & _ & Hui).
  - reflexivity.
  - reflexivity.
  - exact Hposts.
  - reflexivity.
  - lia.
  - lia.
  - reflexivity.
  - reflexivity.
  - reflexivity.
  - split; [exact Hdb|]. split; [exact Hsched|]. split; [exact Hjq|].
    exact (Hui eq_refl).
Defined.

(** Every row that a scheduling loop adds to the posts table stores the
    wall clock of the target, not its UTC instant. *)
Lemma schedule_posts_rows (E : env) mgr cid (target : Time.aware) :
  forall (ps : list post) (n : Z) (w : world) (id : Z) (r : row),
    db_posts (snd (schedule_posts E mgr cid target ps n w)) !! id = Some r ->
    db_posts w !! id = Some r \/ r_scheduled_time r = Time.wall target.
Proof.
  induction ps as [|p ps IH]; intros n w id r Hrow; [left; exact Hrow|].
  simpl in Hrow. unfold bind at 1 in Hrow.
  destruct (schedule_post E mgr cid target p n w) as [[n'|e] w1] eqn:Hstep;
    simpl in Hrow.
  - destruct (IH n' w1 id r Hrow) as [Hold|Hnew]; [|right; exact Hnew].
    clear Hrow IH.
    unfold schedule_post, try_catch, bind, get, sql, modify, ret, raise in Hstep.
    destruct (p_type p), (p_content p), (sqlite_error E), mgr;
      simpl in Hstep; simplify_eq; simpl in Hold; auto.
    all: destruct (decide (id = lastrowid (db_posts w))) as [->|Hne];
      [ rewrite lookup_insert_eq in Hold; simplify_eq; right; reflexivity
      | rewrite lookup_insert_ne in Hold by congruence; left; exact Hold ].
  - unfold schedule_post, try_catch, bind, get, sql, modify, ret, raise in Hstep.
    destruct (p_type p), (p_content p), (sqlite_error E), mgr;
      simpl in Hstep; simplify_eq.
Qed.

(** C1. Scheduling 14:30 for today from Paris (UTC+1): the row written to
    the posts table holds 14:30, the local wall clock, where the UTC
    normalisation of the request is 13:30; the trigger itself is armed at
    the right instant; and the listing, which reads the stored time as UTC
    and converts it to the user's zone, shows 15:30 instead of 14:30. *)
Theorem stored_time_is_local_wall_clock :
  let E := Scenario.E0 in
  let w := Scenario.start (Scenario.session [Scenario.text_post] (Some "today") None None) in
  let target := target_date_local E Scenario.paris_winter "today" 14 30 in
  let w' := snd (handle_schedule_time E (Some "14:30") w) in
  Time.wall target = Scenario.half_past_two_wall /\
  Time.to_utc target = Scenario.half_past_two_utc /\
  fst (handle_schedule_time E (Some "14:30") w) = Ok MAIN_MENU /\
  (exists r,
     db_posts w' !! 1 = Some r /\
     r_scheduled_time r = Scenario.half_past_two_wall /\
     r_scheduled_time r <> Time.to_utc target /\
     shown_time Scenario.paris_winter r = Scenario.half_past_three_wall /\
     shown_time Scenario.paris_winter r <> Time.wall target) /\
  (exists jobs j,
     scheduler w' = Some jobs /\ jobs !! "post_1" = Some j /\
     j_run_at j = Scenario.half_past_two_utc).
Proof.
  vm_compute. repeat split; try reflexivity.
  - eexists. repeat split; try reflexivity; discriminate.
  - do 2 eexists. repeat split; reflexivity.
Qed.

(** Cancelling never touches the job store of the scheduler manager. *)
Lemma cancel_keeps_scheduler (E : env) (w : world) :
  scheduler (snd (handle_confirm_cancel E w)) = scheduler w.
Proof.
  unfold handle_confirm_cancel, try_catch, bind, get, ret, sql, modify, raise,
    job_queue_remove, ui.
  repeat (case_match; simplify_eq/=); reflexivity.
Qed.

(** C2. Cancelling a pending job deletes its row and leaves its trigger
    armed: [handle_confirm_cancel] never changes the job store of the
    scheduler manager. In the session below a post is scheduled for 14:30
    and cancelled; the cancel is confirmed to the user and the row is gone,
    yet the job is still armed, and when 14:30 comes it runs and calls the
    dispatch for the cancelled post. *)
Theorem cancel_leaves_the_trigger_armed :
  (forall (E : env) (w : world),
     scheduler (snd (handle_confirm_cancel E w)) = scheduler w) /\
  let E := Scenario.E_remove in
  let w0 := Scenario.start (Scenario.session [Scenario.text_post] (Some "today") None None) in
  let w1 := snd (handle_schedule_time E (Some "14:30") w0) in
  let cancel := handle_confirm_cancel E (Scenario.open_post 1 w1) in
  let w2 := snd cancel in
  let w3 := snd (on_trigger E Scenario.half_past_two_utc "post_1" w2) in
  is_Some (db_posts w1 !! 1) /\
  fst cancel = Ok MAIN_MENU /\
  outbox w2 = [MsgScheduled 1; MsgAnswer; MsgCancelled] /\
  db_posts w2 !! 1 = None /\
  (exists jobs, scheduler w2 = Some jobs /\
     jobs !! "post_1" = Some {| j_run_at := Scenario.half_past_two_utc; j_post_id := 1 |}) /\
  dispatched w2 = [] /\
  dispatched w3 = [1].
Proof.
  split; [exact cancel_keeps_scheduler|].
  vm_compute. repeat split; try reflexivity.
  - eexists. reflexivity.
  - eexists. split; reflexivity.
Qed.

(** C7, as the code has it. When the dispatch of a due job raises, the
    wrapper catches the exception and logs it with the post id and the
    reason; it returns normally, writes nothing of its own to the posts
    table (no Failed state), tells the user nothing, calls the dispatch
    once, and the one-shot job leaves the scheduler without being armed
    again. *)
Theorem failed_dispatch_is_logged_only (E : env) (t : Z) (id : string)
    (w : world) (jobs : gmap string job) (j : job)
    (db' : gmap Z row) (reason : string) :
  scheduler w = Some jobs ->
  jobs !! id = Some j ->
  j_run_at j <= t ->
  send_scheduled_file E (j_post_id j) (db_posts w) = (db', Exc reason) ->
  let r := fst (on_trigger E t id w) in
  let w' := snd (on_trigger E t id w) in
  r = Ok tt /\
  db_posts w' = db' /\
  log w' = (log w ++ [LogJobError (j_post_id j) reason])%list /\
  scheduler w' = Some (delete id jobs) /\
  dispatched w' = (dispatched w ++ [j_post_id j])%list /\
  ud w' = ud w /\
  outbox w' = outbox w.
Proof.
  intros Hsched Hjob Hdue Hdispatch.
  unfold on_trigger, bind, get. cbv beta iota.
  rewrite Hsched, Hjob.
  destruct (Z.leb_spec (j_run_at j) t); [|lia].
  unfold modify, send_post_job, try_catch, bind, dispatch. simpl.
  rewrite Hdispatch. simpl. rewrite Hsched. repeat split; reflexivity.
Qed.

(** The theorem at work: the job of the 14:30 post fires while the bot is
    no longer a member of the channel. *)
Lemma failed_dispatch_is_logged_only_witness :
  let E := Scenario.E0 in
  let w0 := Scenario.start (Scenario.session [Scenario.text_post] (Some "today") None None) in
  let w := snd (handle_schedule_time E (Some "14:30") w0) in
  let armed := {| j_run_at := Scenario.half_past_two_utc; j_post_id := 1 |} in
  let reason := "Forbidden: bot is not a member of the channel chat" in
  let w' := snd (on_trigger E Scenario.half_past_two_utc "post_1" w) in
  scheduler w = Some {[ "post_1" := armed ]} /\
  ({[ "post_1" := armed ]} : gmap string job) !! "post_1" = Some armed /\
  j_run_at armed <= Scenario.half_past_two_utc /\
  send_scheduled_file E (j_post_id armed) (db_posts w) = (db_posts w, Exc reason) /\
  fst (on_trigger E Scenario.half_past_two_utc "post_1" w) = Ok tt /\
  db_posts w' = db_posts w /\
  log w' = (log w ++ [LogJobError 1 reason])%list /\
  scheduler w' = Some (delete "post_1" ({[ "post_1" := armed ]} : gmap string job)) /\
  dispatched w' = (dispatched w ++ [1])%list.
Proof.
  intros E w0 w armed reason w'.
  assert (scheduler w = Some {[ "post_1" := armed ]}) as Hsched by (vm_compute; reflexivity).
  split; [exact Hsched|]. split; [reflexivity|]. split; [reflexivity|].
  split; [reflexivity|].
  destruct (failed_dispatch_is_logged_only E Scenario.half_past_two_utc "post_1" w
              {[ "post_1" := armed ]} armed (db_posts w) reason)
    as (Hr & Hdb & Hlog & Hs & Hd & _).
  - exact Hsched.
  - reflexivity.
  - reflexivity.
  - reflexivity.
  - split; [exact Hr|]. split; [exact Hdb|]. split; [exact Hlog|].
    split; [exact Hs | exact Hd].
Defined.

(** C7, as the spec states it, fails in that session: after the failed
    run the posts table is what it was while the job was pending, with no
    state and no reason in the row, the listing shows the same line, and
    the job is gone from the scheduler; the failure is in the log only. *)
Lemma failed_job_leaves_no_failed_record :
  let E := Scenario.E0 in
  let w0 := Scenario.start (Scenario.session [Scenario.text_post] (Some "today") None None) in
  let pending := snd (handle_schedule_time E (Some "14:30") w0) in
  let fired := snd (on_trigger E Scenario.half_past_two_utc "post_1" pending) in
  db_posts fired = db_posts pending /\
  db_posts fired !! 1 =
    Some {| r_channel_id := Some 3; r_type := "text"; r_content := "hello";
            r_caption := None; r_scheduled_time := Scenario.half_past_two_wall |} /\
  planifier_post_rows E Scenario.paris_winter (db_posts fired) =
    planifier_post_rows E Scenario.paris_winter (db_posts pending) /\
  scheduler fired = Some ∅ /\
  log fired = [LogJobError 1 "Forbidden: bot is not a member of the channel chat"].
Proof. vm_compute. repeat split; reflexivity. Qed.

End SchedulerProps.

(** * Delivery and auto-destruction *)

Module SendNowProps.
Import Bot Env Prim SendNow.
Local Open Scope eff_scope.

(** [run_once] refuses the call before a job is made: the handlers pass
    [context=], which is no parameter of the method. *)
Lemma run_once_refuses_context :
  exists msg, run_once ["when"; "name"; "context"] = Exc msg.
Proof. eexists. reflexivity. Qed.

(** [schedule_auto_destruction] answers [False] and leaves the state as it
    was, whatever the message and the duration. *)
Lemma schedule_auto_destruction_refused (E : env) (chat_id : option string)
    (message_id t : Z) (w : world) :
  schedule_auto_destruction E chat_id message_id t w = (Ok false, w).
Proof.
  unfold schedule_auto_destruction, try_catch, bind, get, lift, modify, ret.
  destruct (job_queue w) as [q|]; reflexivity.
Qed.

(** One delivery: the state is left as it was when the send returned. *)
Lemma deliver_sent (E : env) (channel : option string) (post_type : string)
    (content : option string) (auto_destruction_time : option Z)
    (success_count message_id : Z) (w : world) :
  bot_send E channel post_type content = Ok (Some message_id) ->
  deliver E channel post_type content auto_destruction_time success_count w =
    (Ok (success_count + 1, false), w).
Proof.
  intros Hsent. unfold deliver, try_catch, bind, lift, ret. rewrite Hsent.
  cbv beta iota.
  destruct (destruct_requested auto_destruction_time) as [t|]; [|reflexivity].
  rewrite schedule_auto_destruction_refused. reflexivity.
Qed.

Lemma deliver_job_queue (E : env) (channel : option string) (post_type : string)
    (content : option string) (auto_destruction_time : option Z)
    (success_count : Z) (w : world) :
  job_queue (snd (deliver E channel post_type content auto_destruction_time
                    success_count w)) = job_queue w.
Proof.
  unfold deliver, try_catch, bind, lift, ret, modify.
  destruct (bot_send E channel post_type content) as [[message_id|]|e];
    cbv beta iota; try reflexivity.
  destruct (destruct_requested auto_destruction_time) as [t|]; [|reflexivity].
  rewrite schedule_auto_destruction_refused. reflexivity.
Qed.

Lemma ui_job_queue (E : env) (m : ui_msg) (w : world) :
  job_queue (snd (ui E m w)) = job_queue w.
Proof. unfold ui. destruct (ui_fails E (ui_calls w)); reflexivity. Qed.

Lemma send_posts_job_queue (E : env) (channel : option string) :
  forall (ps : list post) (i : nat) (n : Z) (w : world),
    job_queue (snd (send_posts E channel ps i n w)) = job_queue w.
Proof.
  induction ps as [|p ps IH]; intros i n w; [reflexivity|].
  cbn [send_posts]. unfold bind at 1. unfold get at 1. cbv beta iota zeta.
  set (auto := auto_destruction_time (ud w)).
  set (post_type := default "" (p_type p)).
  assert (forall (step : Z * bool) (w1 : world),
            job_queue w1 = job_queue w ->
            job_queue
              (snd ((if snd step then send_posts E channel ps (S i) (fst step)
                     else modify (set_ud after_send) >>
                          ui E (MsgSent (fst step) (default "" channel)) >>
                          ret (Some MAIN_MENU)) w1)) = job_queue w) as Hnext.
  { intros [n1 []] w1 Hw1; cbn [fst snd].
    - rewrite IH. exact Hw1.
    - unfold bind, modify, ret.
      pose proof (ui_job_queue E (MsgSent n1 (default "" channel))
                    (set_ud after_send w1)) as Hui.
      destruct (ui E (MsgSent n1 (default "" channel)) (set_ud after_send w1))
        as [[[]|e] w2]; cbn [snd] in *; rewrite Hui; exact Hw1. }
  assert (forall (m : M (Z * bool)),
            job_queue (snd (m w)) = job_queue w ->
            job_queue
              (snd (bind m (fun step =>
                      if snd step then send_posts E channel ps (S i) (fst step)
                      else modify (set_ud after_send) >>
                           ui E (MsgSent (fst step) (default "" channel)) >>
                           ret (Some MAIN_MENU)) w)) = job_queue w) as Hbind.
  { intros m Hm. unfold bind at 1.
    destruct (m w) as [[step|e] w1]; cbn [snd] in Hm.
    - exact (Hnext step w1 Hm).
    - exact Hm. }
  apply Hbind.
  destruct (String.eqb post_type "photo" || String.eqb post_type "video"
            || String.eqb post_type "document").
  - destruct (default false (p_has_custom_thumbnail p)); [apply deliver_job_queue|].
    destruct (truthy_str (p_thumbnail p)); [|apply deliver_job_queue].
    unfold bind, ret.
    pose proof (ui_job_queue E (MsgThumbNotApplied i) w) as Hui.
    destruct (ui E (MsgThumbNotApplied i) w) as [[[]|e] w1]; exact Hui.
  - destruct (String.eqb post_type "text"); [apply deliver_job_queue | reflexivity].
Qed.

Lemma send_post_now_job_queue (E : env) (w : world) :
  job_queue (snd (send_post_now E w)) = job_queue w.
Proof.
  unfold send_post_now, try_catch. unfold bind at 1. unfold get at 1.
  cbv beta iota zeta.
  destruct (default [] (posts (ud w))) as [|first rest].
  - unfold bind, ret.
    pose proof (ui_job_queue E MsgNothingToSend w) as H1.
    destruct (ui E MsgNothingToSend w) as [[[]|e] w1]; cbn [snd] in H1; [exact H1|].
    pose proof (ui_job_queue E MsgSendError w1) as H2.
    destruct (ui E MsgSendError w1) as [[[]|e2] w2]; cbn [snd] in *; congruence.
  - match goal with
    | |- context [send_posts E ?ch ?ps 0%nat 0 w] =>
        pose proof (send_posts_job_queue E ch ps 0 0 w) as H1;
        destruct (send_posts E ch ps 0%nat 0 w) as [[s|e] w1]
    end; cbn [snd] in H1; [exact H1|].
    unfold bind, ret.
    pose proof (ui_job_queue E MsgSendError w1) as H2.
    destruct (ui E MsgSendError w1) as [[[]|e2] w2]; cbn [snd] in *; congruence.
Qed.

(** C8 fails on the code. A text post is delivered with an auto-destruct
    duration of 300 seconds: the message goes out and is counted, and the
    job queue is as empty as before. [schedule_auto_destruction] hands
    [run_once] the keyword [context], which the method does not take; the
    [TypeError] is swallowed by its own [except], so no delivery ever gets
    a destruct job, whatever the duration. *)
Theorem destruct_job_is_never_created :
  (let w := Scenario.start
              (Scenario.session [Scenario.text_post] None None (Some 300)) in
   let run := send_post_now Scenario.E0 w in
   auto_destruction_time (ud w) = Some 300 /\
   fst run = Ok (Some MAIN_MENU) /\
   outbox (snd run) = [MsgSent 1 "@news"] /\
   job_queue w = Some [] /\
   job_queue (snd run) = Some []) /\
  (forall (E : env) (channel : option string) (post_type : string)
          (content : option string) (duration : option Z)
          (success_count message_id : Z) (w : world),
     bot_send E channel post_type content = Ok (Some message_id) ->
     deliver E channel post_type content duration success_count w =
       (Ok (success_count + 1, false), w)) /\
  (forall (E : env) (w : world),
     job_queue (snd (send_post_now E w)) = job_queue w).
Proof.
  split; [|split].
  - vm_compute. split_and!; reflexivity.
  - intros E channel post_type content duration success_count message_id w Hsent.
    exact (deliver_sent E channel post_type content duration success_count
             message_id w Hsent).
  - exact send_post_now_job_queue.
Qed.

End SendNowProps.

(** * Backend fallback when fetching a file *)

Module FallbackProps.
Import Bot Env Prim Spec.
Local Open Scope eff_scope.

Lemma download_attempts (b : backend) (d : dl) (w : world) :
  attempts (snd (download b d w)) = (attempts w ++ [b])%list.
Proof. unfold download. destruct d as [msg|[p|] [sz|]]; reflexivity. Qed.

Lemma ui_attempts (E : env) (m : ui_msg) (w : world) :
  attempts (snd (ui E m w)) = attempts w.
Proof. unfold ui. destruct (ui_fails E (ui_calls w)); reflexivity. Qed.

Lemma invalid_download_is_not_a_fallback_error :
  too_big_or_expired "Fichier téléchargé invalide via API Bot" = false.
Proof. vm_compute. reflexivity. Qed.

(** Closes a leaf of the case analysis: the recorded attempts are
    rewritten with the facts gathered on the way. *)
Ltac leaf :=
  simpl;
  repeat match goal with
         | H : attempts _ = _ |- _ => rewrite H; clear H
         end;
  rewrite <- ?app_assoc; simpl;
  split; [reflexivity|];
  split; [unfold one_fallback; auto|];
  first [ intros Hne; exfalso; apply Hne; reflexivity
        | intros _; eexists; split; eassumption ].

Lemma download_raises (b : backend) (d : dl) (w w1 : world) (msg : string) :
  download b d w = (Exc msg, w1) -> d = DlRaise msg.
Proof.
  unfold download. destruct d as [m|[q|] [sz|]]; simpl; congruence.
Qed.

(** The fallback of lines 599-630, once the Bot API has raised. *)
Lemma video_fallback_attempts (E : env) (fid : string) (size : Z) (w1 : world) :
  let m :=
    (let* ci := lift (get_best_client E size) in
     if negb (ci_client ci) then raise "Aucun client avancé disponible"
     else
       let* p :=
         (if String.eqb (ci_type ci) "pyrogram" then
            download Pyrogram (client_download E Pyrogram fid)
          else if String.eqb (ci_type ci) "telethon" then
            download Telethon (client_download E Telethon fid)
          else raise "Client non supporté") in
       let* w := get in
       if invalid_download (fs w) p
       then raise "Fichier téléchargé invalide ou vide"
       else ret (inr p : conv_state + option string))%eff in
  exists rest, attempts (snd (m w1)) = (attempts w1 ++ rest)%list /\ one_fallback rest.
Proof.
  unfold bind, lift, get, ret, raise, one_fallback. simpl.
  destruct (get_best_client E size) as [ci|e]; simpl; [|exists []; rewrite app_nil_r; auto].
  destruct (ci_client ci); simpl; [|exists []; rewrite app_nil_r; auto].
  destruct (String.eqb (ci_type ci) "pyrogram"); simpl.
  { pose proof (download_attempts Pyrogram (client_download E Pyrogram fid) w1) as Hsnd.
    destruct (download Pyrogram _ w1) as [[q|e] w2]; simpl in *;
      [destruct (invalid_download (fs w2) q); simpl|]; exists [Pyrogram]; auto. }
  destruct (String.eqb (ci_type ci) "telethon"); simpl.
  { pose proof (download_attempts Telethon (client_download E Telethon fid) w1) as Hsnd.
    destruct (download Telethon _ w1) as [[q|e] w2]; simpl in *;
      [destruct (invalid_download (fs w2) q); simpl|]; exists [Telethon]; auto. }
  exists []. rewrite app_nil_r. auto.
Qed.

(** Saving a video at intake: the Bot API is tried first, always. *)
Lemma save_video_attempts (E : env) (v : Intake.media) (w : world) :
  exists rest,
    attempts (snd (Intake.save_video E v w)) = (attempts w ++ BotAPI :: rest)%list /\
    one_fallback rest /\
    (rest <> [] ->
     exists msg, bot_download E (Intake.file_id v) = DlRaise msg /\
                 too_big_or_expired msg = true).
Proof.
  unfold Intake.save_video. unfold try_catch at 1. unfold bind at 1.
  pose proof (download_attempts BotAPI (bot_download E (Intake.file_id v)) w) as Hfirst.
  destruct (download BotAPI (bot_download E (Intake.file_id v)) w) as [[p|msg] w1] eqn:Hdl;
    simpl in Hfirst.
  - exists []. leaf.
  - apply download_raises in Hdl.
    destruct (too_big_or_expired msg) eqn:Hmsg.
    + unfold try_catch.
      destruct (video_fallback_attempts E (Intake.file_id v)
                  (Intake.or_zero (Intake.file_size v)) w1) as (rest & Hrest & Hone).
      cbv zeta in Hrest.
      match type of Hrest with
      | attempts (snd (?m w1)) = _ => destruct (m w1) as [[a|e] w2] eqn:Hm
      end; simpl in Hrest.
      * exists rest. simpl. rewrite Hrest, Hfirst, <- app_assoc. simpl. eauto.
      * exists rest. unfold bind. pose proof (ui_attempts E MsgDownloadFailed w2) as Hui.
        destruct (ui E MsgDownloadFailed w2) as [[[]|e2] w3]; simpl in *;
          rewrite Hui, Hrest, Hfirst, <- app_assoc; simpl; eauto.
    + exists []. unfold bind. pose proof (ui_attempts E MsgDownloadFailed w1) as Hui.
      destruct (ui E MsgDownloadFailed w1) as [[[]|e2] w3]; simpl in *;
        rewrite Hui, Hfirst; unfold one_fallback; repeat split; auto; congruence.
Qed.

(** The advanced client of the pipeline (lines 3202-3228). *)
Lemma fetch_advanced_attempts (E : env) (content : string) (w1 : world) :
  exists rest,
    attempts (snd (Pipeline.fetch_advanced E content w1)) = (attempts w1 ++ rest)%list /\
    one_fallback rest.
Proof.
  unfold Pipeline.fetch_advanced, bind, lift, get, ret, raise, modify, one_fallback.
  simpl.
  destruct (get_best_client E _) as [ci|e]; simpl; [|exists []; rewrite app_nil_r; auto].
  destruct (String.eqb (ci_type ci) "pyrogram"); simpl.
  { destruct (ci_client ci); simpl; [|exists []; rewrite app_nil_r; auto].
    pose proof (download_attempts Pyrogram (client_download E Pyrogram content) w1) as Hsnd.
    destruct (download Pyrogram _ w1) as [[q|e] w2]; simpl in *;
      [destruct (invalid_download (fs w2) q); simpl|]; exists [Pyrogram]; auto. }
  destruct (String.eqb (ci_type ci) "telethon"); simpl.
  { destruct (ci_client ci); simpl; [|exists []; rewrite app_nil_r; auto].
    pose proof (download_attempts Telethon (client_download E Telethon content) w1) as Hsnd.
    destruct (download Telethon _ w1) as [[q|e] w2]; simpl in *;
      [destruct (invalid_download (fs w2) q); simpl|]; exists [Telethon]; auto. }
  exists []. rewrite app_nil_r. auto.
Qed.

(** Fetching the original in the pipeline: nothing is tried when the
    progress message fails; otherwise the Bot API is tried first. *)
Lemma fetch_original_attempts (E : env) (content : string) (w : world) :
  attempts (snd (Pipeline.fetch_original E content w)) = attempts w \/
  exists rest,
    attempts (snd (Pipeline.fetch_original E content w)) =
      (attempts w ++ BotAPI :: rest)%list /\
    one_fallback rest /\
    (rest <> [] ->
     exists msg, bot_download E content = DlRaise msg /\
                 too_big_or_expired msg = true).
Proof.
  unfold Pipeline.fetch_original, bind, try_catch, get, raise, modify, ret.
  pose proof (ui_attempts E (MsgProgress 2) w) as Hui0.
  destruct (ui E (MsgProgress 2) w) as [[[]|e0] w0]; simpl in Hui0;
    [|left; exact Hui0].
  right. cbv beta iota.
  pose proof (download_attempts BotAPI (bot_download E content) w0) as Hfirst.
  destruct (download BotAPI (bot_download E content) w0) as [[p|msg] w1] eqn:Hdl;
    simpl in Hfirst; rewrite Hui0 in Hfirst; cbv beta iota.
  - destruct (invalid_download (fs w1) p); cbv beta iota.
    + rewrite invalid_download_is_not_a_fallback_error. cbv beta iota.
      pose proof (ui_attempts E (MsgThumbError "download") w1) as Hui.
      exists [].
      destruct (ui E (MsgThumbError "download") w1) as [[[]|e2] w3]; simpl in *;
        rewrite Hui, Hfirst; unfold one_fallback; repeat split; auto; congruence.
    + exists []. simpl. rewrite Hfirst. unfold one_fallback.
      repeat split; auto; congruence.
  - apply download_raises in Hdl.
    destruct (too_big_or_expired msg) eqn:Hmsg; cbv beta iota.
    + destruct (fetch_advanced_attempts E content w1) as (rest & Hrest & Hone).
      destruct (Pipeline.fetch_advanced E content w1) as [[a|e] w2]; simpl in Hrest;
        cbv beta iota.
      * exists rest. simpl. rewrite Hrest, Hfirst, <- app_assoc. simpl. eauto.
      * exists rest.
        pose proof (ui_attempts E (MsgThumbError "fetch") w2) as Hui.
        destruct (ui E (MsgThumbError "fetch") w2) as [[[]|e2] w3]; simpl in *;
          rewrite Hui, Hrest, Hfirst, <- app_assoc; simpl; eauto.
    + exists [].
      pose proof (ui_attempts E (MsgThumbError "download") w1) as Hui.
      destruct (ui E (MsgThumbError "download") w1) as [[[]|e2] w3]; simpl in *;
        rewrite Hui, Hfirst; unfold one_fallback; repeat split; auto; congruence.
Qed.

(** X26. Whatever the size of the file, fetching it starts with an
    attempt on the primary backend, the Bot API, both when a video is taken
    in and when the pipeline fetches the original of a post; a fallback
    backend is tried only after that attempt raised an error that reports a
    file too big or an expired file reference, and then one advanced client
    at most is tried. *)
Theorem primary_backend_is_tried_first (E : env) :
  (forall (v : Intake.media) (w : world),
     exists rest,
       attempts (snd (Intake.save_video E v w)) = (attempts w ++ BotAPI :: rest)%list /\
       one_fallback rest /\
       (rest <> [] ->
        exists msg, bot_download E (Intake.file_id v) = DlRaise msg /\
                    too_big_or_expired msg = true)) /\
  (forall (content : string) (w : world),
     attempts (snd (Pipeline.fetch_original E content w)) = attempts w \/
     exists rest,
       attempts (snd (Pipeline.fetch_original E content w)) =
         (attempts w ++ BotAPI :: rest)%list /\
       one_fallback rest /\
       (rest <> [] ->
        exists msg, bot_download E content = DlRaise msg /\
                    too_big_or_expired msg = true)).
Proof.
  split.
  - exact (save_video_attempts E).
  - exact (fetch_original_attempts E).
Qed.

(** Fetching at work on a 2 GB video, far above the 50 MB of the primary
    backend: the handler knows the size from the message, tries the Bot API
    all the same, is refused, and only then turns to the advanced client. *)
Example oversized_video_is_fetched_primary_first :
  let w := Scenario.start (Scenario.session [] None None None) in
  let w' := snd (Intake.handle_post_content Scenario.E0 Scenario.big_video w) in
  Scenario.primary_limit < 2147483648 /\
  (exists ps p, posts (ud w') = Some ps /\ ps !! 0%nat = Some p /\
                p_file_size p = Some 2147483648) /\
  attempts w' = [BotAPI; Pyrogram] /\
  BotAPI ∈ attempts w'.
Proof.
  vm_compute. repeat split; try reflexivity.
  - do 2 eexists. repeat split; reflexivity.
  - apply list_elem_of_here.
Qed.

End FallbackProps.

(** * The backend of a send *)

Module DispatcherProps.
Import Bot Dispatcher.

(** The attempts on a backend are attempts on that backend, one at least. *)
Lemma attempt_made (send : backend -> nat -> sent) (b : backend) :
  forall (retries n : nat),
    (exists rest, snd (attempt send b retries n) = b :: rest) /\
    forall x, x ∈ snd (attempt send b retries n) -> x = b.
Proof.
  induction retries as [|retries IH]; intros n; cbn [attempt].
  - destruct (send b n) as [m|[]]; cbn [snd];
      (split; [eexists; reflexivity|]);
      intros x Hx; apply list_elem_of_singleton in Hx; exact Hx.
  - destruct (send b n) as [m|[]]; cbn [snd];
      try ((split; [eexists; reflexivity|]);
           intros x Hx; apply list_elem_of_singleton in Hx; exact Hx).
    destruct (IH (S n)) as [_ Hall].
    destruct (attempt send b retries (S n)) as [answer made]. cbn [snd] in *.
    split; [eexists; reflexivity|].
    intros x Hx. apply elem_of_cons in Hx as [->|Hx]; [reflexivity | exact (Hall x Hx)].
Qed.

(** The backend chosen is one of the registry that satisfies the
    requirement, and what comes after it comes from the registry. *)
Lemma first_capable_spec (r : requirement) :
  forall (registry : list entry) (e : entry) (rest : list entry),
    first_capable registry r = Some (e, rest) ->
    e ∈ registry /\ satisfies e r = true /\ forall e', e' ∈ rest -> e' ∈ registry.
Proof.
  induction registry as [|e0 registry IH]; intros e rest; cbn [first_capable];
    [discriminate|].
  destruct (satisfies e0 r) eqn:Hsat.
  - intros [= <- <-]. split; [apply list_elem_of_here|]. split; [exact Hsat|].
    intros e' He'. apply list_elem_of_further, He'.
  - intros Hfirst. destruct (IH e rest Hfirst) as (Hin & Hs & Hrest).
    split; [apply list_elem_of_further, Hin|]. split; [exact Hs|].
    intros e' He'. apply list_elem_of_further, Hrest, He'.
Qed.

(** Every backend attempted by [deliver] is a backend of the registry that
    satisfies the requirement. *)
Lemma deliver_attempts_capable (send : backend -> nat -> sent)
    (registry : list entry) (r : requirement) (b : backend) :
  b ∈ snd (deliver send registry r) ->
  exists e, e ∈ registry /\ backend_of e = b /\ satisfies e r = true.
Proof.
  unfold deliver.
  destruct (first_capable registry r) as [[e rest]|] eqn:Hfirst; cbn [snd];
    [|intros Hb; apply elem_of_nil in Hb as []].
  destruct (first_capable_spec r registry e rest Hfirst) as (Hin & Hsat & Hrest).
  destruct (attempt_made send (backend_of e) retry_bound 0) as [_ Hall].
  destruct (attempt send (backend_of e) retry_bound 0) as [answer made].
  cbn [snd] in Hall.
  assert (b ∈ made -> exists e0, e0 ∈ registry /\ backend_of e0 = b /\
                                 satisfies e0 r = true) as Hmade.
  { intros Hb. exists e. rewrite (Hall b Hb). auto. }
  destruct answer as [m|kind]; cbn [outcome_of snd]; [exact Hmade|].
  destruct kind; cbn [snd]; try exact Hmade.
  all: destruct (first_capable rest r) as [[e' rest']|] eqn:Hnext; cbn [snd];
       [|exact Hmade].
  all: destruct (first_capable_spec r rest e' rest' Hnext) as (Hin' & Hsat' & _).
  all: destruct (attempt_made send (backend_of e') retry_bound (length made))
         as [_ Hall'].
  all: destruct (attempt send (backend_of e') retry_bound (length made))
         as [answer' made'].
  all: cbn [snd] in *.
  all: intros Hb; apply elem_of_app in Hb as [Hb|Hb]; [exact (Hmade Hb)|].
  all: exists e'; rewrite (Hall' b Hb); auto.
Qed.



End DispatcherProps.

(** * Properties of the rest of the handlers *)

(** ** Strings *)

Module StrProps.
Import Str.

Lemma append_cons (c : ascii) (a b : string) : String c a +:+ b = String c (a +:+ b).
Proof. reflexivity. Qed.

Lemma append_empty_l (s : string) : "" +:+ s = s.
Proof. reflexivity. Qed.

Lemma append_empty_r (s : string) : s +:+ "" = s.
Proof.
  induction s as [|c s IH]; [reflexivity|].
  now rewrite append_cons, IH.
Qed.

Lemma append_assoc (a b c : string) : (a +:+ b) +:+ c = a +:+ (b +:+ c).
Proof.
  induction a as [|x a IH]; [reflexivity|].
  now rewrite !append_cons, IH.
Qed.

Lemma split_on_not_nil sep s cur : split_on sep s cur <> [].
Proof.
  revert cur. induction s as [|c s IH]; intros cur; simpl; [discriminate|].
  destruct (Ascii.eqb c sep); [discriminate | apply IH].
Qed.

(** [sep.join(s.split(sep))] gives [s] back. *)
Lemma join_split_on sep s cur :
  join (String sep "") (split_on sep s cur) = cur +:+ s.
Proof.
  revert cur. induction s as [|c s IH]; intros cur.
  - cbn [split_on join]. symmetry. apply append_empty_r.
  - cbn [split_on]. destruct (Ascii.eqb_spec c sep) as [->|Hne].
    + specialize (IH "").
      destruct (split_on sep s "") as [|p rest] eqn:Hsplit.
      * now apply split_on_not_nil in Hsplit.
      * cbn [join] in *. rewrite IH. reflexivity.
    + rewrite IH, append_assoc. reflexivity.
Qed.

Lemma split_on_free sep s cur :
  mentions sep s = false -> split_on sep s cur = [cur +:+ s].
Proof.
  revert cur. induction s as [|c s IH]; intros cur; cbn [split_on mentions].
  - now rewrite append_empty_r.
  - intros H. apply orb_false_iff in H as [Hc Hs]. rewrite Hc.
    rewrite IH by exact Hs. now rewrite append_assoc.
Qed.

(** The first separator after a part that has none ends that part. *)
Lemma split_on_app sep a b cur :
  mentions sep a = false ->
  split_on sep (a +:+ String sep b) cur = (cur +:+ a) :: split_on sep b "".
Proof.
  revert cur. induction a as [|c a IH]; intros cur.
  - intros _. rewrite append_empty_l.
    cbn [split_on]. rewrite Ascii.eqb_refl, append_empty_r. reflexivity.
  - rewrite append_cons.
    cbn [split_on mentions].
    intros H. apply orb_false_iff in H as [Hc Ha]. rewrite Hc.
    rewrite IH by exact Ha. now rewrite append_assoc.
Qed.

(** The last part of a string that ends in a separator and a part
    without separator is that part. *)
Lemma last_part_app sep a d :
  mentions sep d = false -> last_part sep (a +:+ String sep d) = d.
Proof.
  intros Hd. unfold last_part, split.
  assert (forall cur, last (split_on sep (a +:+ String sep d) cur) = Some d) as H.
  { induction a as [|c a IH]; intros cur.
    - rewrite append_empty_l. cbn [split_on].
      rewrite Ascii.eqb_refl. rewrite split_on_free by exact Hd. reflexivity.
    - rewrite append_cons.
      cbn [split_on]. destruct (Ascii.eqb c sep).
      + rewrite last_cons, IH. reflexivity.
      + apply IH. }
  rewrite H. reflexivity.
Qed.

Lemma startswith_app p u : startswith p (p +:+ u) = true.
Proof.
  induction p as [|c p IH]; [reflexivity|].
  rewrite append_cons. cbn [startswith].
  now rewrite Ascii.eqb_refl, IH.
Qed.

Lemma remove_go_skip old q u : remove_go old (q +:+ u) (String.length q) = remove_go old u 0.
Proof.
  induction q as [|c q IH]; [reflexivity|].
  rewrite append_cons. exact IH.
Qed.

Lemma remove_go_free old u : contains old u = false -> remove_go old u 0 = u.
Proof.
  induction u as [|c u IH]; [reflexivity|].
  intros H. change (startswith old (String c u) || contains old u = false) in H.
  apply orb_false_iff in H as [Hs Hc].
  change (remove_go old (String c u) 0)
    with (if startswith old (String c u)
          then remove_go old u (String.length old - 1)
          else String c (remove_go old u 0)).
  rewrite Hs, IH by exact Hc. reflexivity.
Qed.

Lemma remove_go_length old u skip :
  (String.length (remove_go old u skip) <= String.length u)%nat.
Proof.
  revert skip. induction u as [|c u IH]; intros skip; [simpl; lia|].
  destruct skip as [|k].
  - change (remove_go old (String c u) 0)
      with (if startswith old (String c u)
            then remove_go old u (String.length old - 1)
            else String c (remove_go old u 0)).
    destruct (startswith old (String c u)); simpl.
    + specialize (IH (String.length old - 1)%nat). lia.
    + specialize (IH 0%nat). lia.
  - simpl. specialize (IH k). lia.
Qed.

(** An occurrence of [old] makes the result shorter. *)
Lemma remove_go_shorter old u :
  old <> "" -> contains old u = true ->
  (String.length (remove_go old u 0) < String.length u)%nat.
Proof.
  intros Hold. induction u as [|c u IH].
  - simpl. destruct old; [congruence | discriminate].
  - intros H. change (startswith old (String c u) || contains old u = true) in H.
    change (remove_go old (String c u) 0)
      with (if startswith old (String c u)
            then remove_go old u (String.length old - 1)
            else String c (remove_go old u 0)).
    destruct (startswith old (String c u)) eqn:Hs.
    + pose proof (remove_go_length old u (String.length old - 1)). simpl. lia.
    + simpl in H. specialize (IH H). simpl. lia.
Qed.

Lemma remove_all_prefix_go (p u : string) :
  p <> "" -> remove_all p (p +:+ u) = remove_go p u 0.
Proof.
  intros Hp. destruct p as [|c p]; [congruence|].
  unfold remove_all. rewrite append_cons.
  change (remove_go (String c p) (String c (p +:+ u)) 0)
    with (if startswith (String c p) (String c (p +:+ u))
          then remove_go (String c p) (p +:+ u) (String.length (String c p) - 1)
          else String c (remove_go (String c p) (p +:+ u) 0)).
  rewrite <- append_cons, (startswith_app (String c p) u).
  replace (String.length (String c p) - 1)%nat with (String.length p)
    by (simpl; lia).
  apply remove_go_skip.
Qed.

(** [(prefix + u).replace(prefix, '')] is [u] exactly when [u] holds no
    occurrence of [prefix]. *)
Lemma remove_all_prefix (p u : string) :
  p <> "" -> (remove_all p (p +:+ u) = u <-> contains p u = false).
Proof.
  intros Hp. rewrite remove_all_prefix_go by exact Hp.
  split.
  - intros Heq. destruct (contains p u) eqn:Hc; [|reflexivity].
    pose proof (remove_go_shorter p u Hp Hc) as Hlt. rewrite Heq in Hlt. lia.
  - apply remove_go_free.
Qed.

Lemma remove_all_free (p u : string) :
  p <> "" -> contains p u = false -> remove_all p (p +:+ u) = u.
Proof. intros Hp Hc. apply remove_all_prefix; assumption. Qed.

Lemma is_digit_not (a c : ascii) :
  is_digit a = false -> is_digit c = true -> Ascii.eqb a c = false.
Proof.
  intros Ha Hc. destruct (Ascii.eqb_spec a c) as [->|]; [congruence | reflexivity].
Qed.

Lemma startswith_digits (a : ascii) (p d : string) :
  is_digit a = false -> all_digits d = true -> startswith (String a p) d = false.
Proof.
  intros Ha Hd. destruct d as [|c d]; [reflexivity|].
  simpl in Hd. apply andb_true_iff in Hd as [Hc Hd].
  simpl. rewrite (is_digit_not a c Ha Hc). reflexivity.
Qed.

(** A string of digits holds no string that starts with another
    character. *)
Lemma contains_digits (a : ascii) (p d : string) :
  is_digit a = false -> all_digits d = true -> contains (String a p) d = false.
Proof.
  intros Ha. induction d as [|c d IH]; intros Hd; [reflexivity|].
  simpl in Hd. apply andb_true_iff in Hd as [Hc Hd].
  change (startswith (String a p) (String c d) || contains (String a p) d = false).
  rewrite IH by exact Hd. simpl.
  rewrite (is_digit_not a c Ha Hc). reflexivity.
Qed.

Lemma mentions_digits (a : ascii) (d : string) :
  is_digit a = false -> all_digits d = true -> mentions a d = false.
Proof.
  intros Ha. induction d as [|c d IH]; intros Hd; [reflexivity|].
  simpl in Hd. apply andb_true_iff in Hd as [Hc Hd].
  simpl. rewrite IH by exact Hd.
  destruct (Ascii.eqb_spec c a) as [->|]; [congruence | reflexivity].
Qed.

Lemma pretty_N_go_digits (x : N) (s : string) :
  all_digits s = true -> all_digits (pretty_N_go x s) = true.
Proof.
  revert s. induction (N.lt_wf_0 x) as [x _ IH]; intros s Hs.
  destruct (decide (x = 0)%N) as [->|Hx].
  - rewrite pretty_N_go_0. exact Hs.
  - rewrite pretty_N_go_step by lia. apply IH.
    + apply N.div_lt; lia.
    + simpl. rewrite Hs, andb_true_r.
      unfold pretty_N_char. repeat case_match; reflexivity.
Qed.

(** [f"{n}"] for a natural number is a string of digits. *)
Lemma pretty_nat_digits (n : nat) : all_digits (pretty n) = true.
Proof.
  unfold pretty, pretty_nat, pretty, pretty_N.
  destruct (decide (N.of_nat n = 0)%N); [reflexivity|].
  apply pretty_N_go_digits. reflexivity.
Qed.

End StrProps.

(** ** The dispatch of [handle_callback] *)

Module RouterProps.
Import Str StrProps Router.

(** The argument a branch reads with [split('_')[-1]] from the data of a
    button that ends in an index. *)
Lemma last_part_index (action d : string) :
  all_digits d = true -> last_part "_" (action +:+ String "_" d) = d.
Proof. intros Hd. apply last_part_app, mentions_digits; [reflexivity | exact Hd]. Qed.

(** The same for a branch that reads it with [replace(prefix, '')]. *)
Lemma remove_all_index (a : ascii) (p d : string) :
  is_digit a = false -> all_digits d = true ->
  remove_all (String a p) (String a p +:+ d) = d.
Proof.
  intros Ha Hd. apply remove_all_prefix; [discriminate|].
  apply contains_digits; assumption.
Qed.

Ltac run_route :=
  unfold route, post_button, channel_data;
  lazy -[remove_all last_part pretty].

Lemma route_index (d : string) :
  all_digits d = true ->
  route ("add_reactions" +:+ "_" +:+ d) = to_add_reactions_to_post d /\
  route ("remove_reactions" +:+ "_" +:+ d) = to_remove_reactions d /\
  route ("add_url_button" +:+ "_" +:+ d) = to_add_url_button_to_post d /\
  route ("edit_file" +:+ "_" +:+ d) = to_show_edit_file_menu d /\
  route ("delete_post" +:+ "_" +:+ d) = to_handle_delete_post d /\
  route ("rename_post" +:+ "_" +:+ d) = to_handle_rename_post d /\
  route ("add_thumbnail" +:+ "_" +:+ d) = to_handle_add_thumbnail_to_post_callback d /\
  route ("add_thumb" +:+ "_" +:+ d) = add_thumb d /\
  route ("remove_url" +:+ "_" +:+ d) = unhandled.
Proof.
  intros Hd.
  assert (startswith "remove_url_buttons_" ("remove_url" +:+ "_" +:+ d) = false) as Hb.
  { exact (startswith_digits "b" "uttons_" d eq_refl Hd). }
  repeat split; unfold route; cbv beta zeta; rewrite ?Hb; run_route;
    try reflexivity; f_equal.
  - exact (last_part_index "add_reactions" d Hd).
  - exact (last_part_index "remove_reactions" d Hd).
  - exact (last_part_index "add_url_button" d Hd).
  - exact (remove_all_index "e" "dit_file_" d eq_refl Hd).
  - exact (last_part_index "delete_post" d Hd).
  - exact (remove_all_index "r" "ename_post_" d eq_refl Hd).
  - exact (remove_all_index "a" "dd_thumbnail_" d eq_refl Hd).
  - exact (last_part_index "add_thumb" d Hd).
Qed.

(** X1. Every button shown under a pending post but one reaches the
    branch of [handle_callback] written for it, and the branch reads the
    index the button was built with: the buttons of
    [_send_post_with_buttons], of [show_edit_file_menu] and of the
    thumbnail pipeline, for every position of the post in the list. *)
Theorem post_buttons_reach_their_handler (post_index : nat) :
  let i := pretty post_index in
  route (post_button "add_reactions" post_index) = to_add_reactions_to_post i /\
  route (post_button "remove_reactions" post_index) = to_remove_reactions i /\
  route (post_button "add_url_button" post_index) = to_add_url_button_to_post i /\
  route (post_button "edit_file" post_index) = to_show_edit_file_menu i /\
  route (post_button "delete_post" post_index) = to_handle_delete_post i /\
  route (post_button "rename_post" post_index) = to_handle_rename_post i /\
  route (post_button "add_thumbnail" post_index) =
    to_handle_add_thumbnail_to_post_callback i /\
  route (post_button "add_thumb" post_index) = add_thumb i.
Proof.
  intros i. unfold post_button.
  destruct (route_index i (pretty_nat_digits post_index))
    as (H1 & H2 & H3 & H4 & H5 & H6 & H7 & H8 & _).
  repeat split; assumption.
Qed.

(** X2. The button that removes the URL buttons of a post, as the
    thumbnail pipeline builds it ([remove_url_<index>], line 3380),
    reaches no branch of [handle_callback]: the branch written for it tests
    the prefix [remove_url_buttons_], so the click ends in the code for
    callbacks that are not handled, for every position of the post. *)
Theorem remove_url_button_is_not_handled (post_index : nat) :
  route (post_button "remove_url" post_index) = unhandled /\
  forall d, route ("remove_url_buttons_" +:+ d) = to_remove_url_buttons
              (last_part "_" ("remove_url_buttons_" +:+ d)).
Proof.
  split.
  - unfold post_button.
    destruct (route_index (pretty post_index) (pretty_nat_digits post_index))
      as (_ & _ & _ & _ & _ & _ & _ & _ & H).
    exact H.
  - intros d. run_route. reflexivity.
Qed.

(** X3. A button that names a channel hands the username it was built
    with to its handler whenever the username holds no occurrence of the
    prefix of the button: the branch reads it with
    [callback_data.replace(prefix, '')]. *)
Theorem channel_buttons_round_trip (action u : string)
    (Haction : In action ["select_channel"; "channel"; "custom_channel"; "edit_tag"])
    (Hfree : contains (action +:+ "_") u = false) :
  route (channel_data action u) =
    (if String.eqb action "select_channel" then to_select_channel u
     else if String.eqb action "channel" then to_show_channel_options u
     else if String.eqb action "custom_channel" then to_custom_channel_settings u
     else to_handle_edit_tag u).
Proof.
  simpl in Haction.
  destruct Haction as [<-|[<-|[<-|[<-|[]]]]]; run_route; f_equal.
  - exact (remove_all_free "select_channel_" u ltac:(discriminate) Hfree).
  - exact (remove_all_free "channel_" u ltac:(discriminate) Hfree).
  - exact (remove_all_free "custom_channel_" u ltac:(discriminate) Hfree).
  - exact (remove_all_free "edit_tag_" u ltac:(discriminate) Hfree).
Qed.

Lemma channel_buttons_round_trip_witness :
  route (channel_data "select_channel" "my_channel_fr") =
    to_select_channel "my_channel_fr".
Proof.
  exact (channel_buttons_round_trip "select_channel" "my_channel_fr"
           (or_introl eq_refl) eq_refl).
Defined.

(** X4. The button of a channel in the channel menu
    ([channel_<username>], lines 1264 and 1449) opens the options of that
    channel exactly when the username holds no [channel_]: from any other
    username [replace] removes every occurrence, and
    [show_channel_options] is given a shorter name. *)
Theorem channel_menu_button_mangles_username (u : string) :
  (route (channel_data "channel" u) = to_show_channel_options u <->
   contains "channel_" u = false) /\
  (contains "channel_" u = true ->
   exists v, route (channel_data "channel" u) = to_show_channel_options v /\
             (String.length v < String.length u)%nat).
Proof.
  assert (route (channel_data "channel" u) =
          to_show_channel_options (remove_all "channel_" ("channel_" +:+ u))) as Hr.
  { run_route. reflexivity. }
  split.
  - rewrite Hr. split.
    + intros H. apply (remove_all_prefix "channel_" u); [discriminate|]. congruence.
    + intros H. f_equal. apply remove_all_prefix; [discriminate | exact H].
  - intros Hc. eexists. split; [exact Hr|].
    rewrite remove_all_prefix_go by discriminate.
    apply remove_go_shorter; [discriminate | exact Hc].
Qed.

End RouterProps.

(** ** Keyboards *)

Module KeyboardProps.
Import Bot Keyboard.

(** The rows appended by the loop of the reactions, from an open row of
    fewer than four buttons. *)
Lemma reaction_rows_spec (post_index : nat) (reactions : list string) :
  forall current_row keyboard,
    (length current_row < 4)%nat ->
    exists rows,
      reaction_rows post_index reactions current_row keyboard = (keyboard ++ rows)%list /\
      concat rows = (current_row ++ map (reaction_button post_index) reactions)%list /\
      Forall (fun row => (1 <= length row <= 4)%nat) rows /\
      (forall k row, rows !! k = Some row -> (S k < length rows)%nat -> length row = 4%nat) /\
      length rows = ((length current_row + length reactions + 3) / 4)%nat.
Proof.
  induction reactions as [|r rest IH]; intros cur kb Hcur; cbn [reaction_rows].
  - destruct cur as [|b cur].
    + exists []. rewrite app_nil_r. split_and!; auto.
      intros k row Hk. rewrite lookup_nil in Hk. discriminate.
    + exists [b :: cur]. split_and!.
      * reflexivity.
      * simpl. rewrite !app_nil_r. reflexivity.
      * constructor; [simpl in *; lia | constructor].
      * intros k row Hk Hlen. simpl in Hlen. lia.
      * simpl in *.
        assert (length cur = 0 \/ length cur = 1 \/ length cur = 2)%nat
          as [-> | [-> | ->]] by lia; reflexivity.
  - destruct (Nat.eqb_spec (length (cur ++ [reaction_button post_index r])) 4)
      as [Hfull|Hopen].
    + destruct (IH [] (kb ++ [cur ++ [reaction_button post_index r]])%list)
        as (rows & Heq & Hcat & Hall & Hlast & Hlen); [simpl; lia|].
      exists ((cur ++ [reaction_button post_index r]) :: rows)%list.
      rewrite Heq, <- app_assoc. split_and!.
      * reflexivity.
      * simpl. rewrite Hcat, <- app_assoc. reflexivity.
      * constructor; [lia | exact Hall].
      * intros [|k] row Hk Hk'; simpl in *.
        -- inversion Hk; subst. exact Hfull.
        -- apply (Hlast k row Hk). lia.
      * cbn [length] in *. rewrite Hlen. rewrite length_app in Hfull.
        cbn [length] in Hfull.
        replace (length cur + S (length rest) + 3)%nat
          with (1 * 4 + (0 + length rest + 3))%nat by lia.
        rewrite Nat.div_add_l by lia. reflexivity.
    + rewrite length_app in Hopen. simpl in Hopen.
      destruct (IH (cur ++ [reaction_button post_index r])%list kb)
        as (rows & Heq & Hcat & Hall & Hlast & Hlen);
        [rewrite length_app; simpl; lia|].
      exists rows. split_and!; auto.
      * rewrite Hcat, <- app_assoc. reflexivity.
      * rewrite Hlen, length_app. cbn [length]. f_equal. lia.
Qed.

(** X5. The reactions of a post are laid out in rows of four under it:
    every reaction gets one button, in the order of the list; no row is
    empty or longer than four buttons; every row but the last is full;
    and [n] reactions take [ceil(n / 4)] rows. *)
Theorem reaction_rows_of_four (post_index : nat) (reactions : list string) :
  let rows := reaction_rows post_index reactions [] [] in
  concat rows = map (reaction_button post_index) reactions /\
  Forall (fun row => (1 <= length row <= 4)%nat) rows /\
  (forall k row, rows !! k = Some row -> (S k < length rows)%nat -> length row = 4%nat) /\
  length rows = ((length reactions + 3) / 4)%nat.
Proof.
  intros rows.
  destruct (reaction_rows_spec post_index reactions [] [])
    as (new & Heq & Hcat & Hall & Hlast & Hlen); [simpl; lia|].
  subst rows. rewrite Heq. simpl. auto.
Qed.

(** The same for the loop of the channels, which closes the open row at
    the last channel. *)
Lemma channel_rows_spec (n : nat) (channels : list (string * string)) :
  forall i current_row keyboard,
    n = (i + length channels)%nat ->
    (length current_row < 2)%nat ->
    (channels = [] -> current_row = []) ->
    exists rows,
      channel_rows n i channels current_row keyboard = (keyboard ++ rows)%list /\
      concat rows = (current_row ++ map channel_button channels)%list /\
      Forall (fun row => (1 <= length row <= 2)%nat) rows /\
      (forall k row, rows !! k = Some row -> (S k < length rows)%nat -> length row = 2%nat).
Proof.
  induction channels as [|ch rest IH]; intros i cur kb Hn Hcur Hnil; cbn [channel_rows].
  - exists []. rewrite (Hnil eq_refl), app_nil_r. split_and!; auto.
    intros k row Hk. rewrite lookup_nil in Hk. discriminate.
  - simpl in Hn.
    destruct (Nat.eqb (length (cur ++ [channel_button ch])) 2 || Nat.eqb i (n - 1))
      eqn:Hflush.
    + destruct (IH (S i) [] (kb ++ [cur ++ [channel_button ch]])%list)
        as (rows & Heq & Hcat & Hall & Hlast); [lia | simpl; lia | auto |].
      exists ((cur ++ [channel_button ch]) :: rows)%list.
      rewrite Heq, <- app_assoc. split_and!.
      * reflexivity.
      * simpl. rewrite Hcat, <- app_assoc. reflexivity.
      * constructor; [rewrite length_app; simpl; lia | exact Hall].
      * intros [|k] row Hk Hk'; simpl in *.
        -- injection Hk as <-.
           apply orb_true_iff in Hflush as [H|H].
           ++ apply Nat.eqb_eq in H. exact H.
           ++ apply Nat.eqb_eq in H.
              assert (rest = []) as -> by (destruct rest; [reflexivity | simpl in Hn; lia]).
              assert (rows = []) as ->.
              { destruct rows as [|row0 rows]; [reflexivity|].
                simpl in Hcat. apply (f_equal (@length _)) in Hcat.
                rewrite length_app in Hcat. simpl in Hcat.
                inversion Hall; subst. lia. }
              simpl in Hk'. lia.
        -- apply (Hlast k row Hk). lia.
    + apply orb_false_iff in Hflush as [Hlen Hi].
      apply Nat.eqb_neq in Hlen. apply Nat.eqb_neq in Hi.
      rewrite length_app in Hlen. simpl in Hlen.
      destruct (IH (S i) (cur ++ [channel_button ch])%list kb)
        as (rows & Heq & Hcat & Hall & Hlast).
      * lia.
      * rewrite length_app. simpl. lia.
      * intros ->. simpl in Hn. lia.
      * exists rows. split_and!; auto.
        rewrite Hcat, <- app_assoc. reflexivity.
Qed.

(** X8. [handle_create_publication] lays the channels of the user out in
    rows of two: every channel gets one button that selects it, in the
    order of the list; no row is empty or longer than two buttons; only the
    last row can hold a single button. *)
Theorem channel_rows_of_two (channels : list (string * string)) :
  let rows := channel_keyboard channels in
  concat rows = map channel_button channels /\
  Forall (fun row => (1 <= length row <= 2)%nat) rows /\
  (forall k row, rows !! k = Some row -> (S k < length rows)%nat -> length row = 2%nat).
Proof.
  intros rows.
  destruct (channel_rows_spec (length channels) channels 0 [] [])
    as (new & Heq & Hcat & Hall & Hlast); [reflexivity | simpl; lia | auto |].
  subst rows. unfold channel_keyboard. rewrite Heq. simpl. auto.
Qed.

End KeyboardProps.

(** ** Reactions *)

Module ReactionProps.
Import Str StrProps Keyboard Reaction.

(** What [split('_')] makes of the data of a reaction button. *)
Lemma split_reaction_data (post_index : nat) (reaction : string) :
  split "_" (reaction_data post_index reaction) =
    "reaction" :: pretty post_index :: split "_" reaction.
Proof.
  unfold split, reaction_data.
  change ("reaction_" +:+ pretty post_index +:+ "_" +:+ reaction)
    with ("reaction" +:+ String "_" (pretty post_index +:+ String "_" reaction)).
  rewrite split_on_app by reflexivity.
  rewrite split_on_app
    by (apply mentions_digits; [reflexivity | apply pretty_nat_digits]).
  reflexivity.
Qed.

(** The entry of [reaction_counts] a click on the button of [reaction]
    under the post at [post_index] is counted in. *)
Lemma reaction_click_data (post_index : nat) (reaction : string)
    (counts : option (gmap string Z)) :
  reaction_click (reaction_data post_index reaction) counts =
    (Some (<[reaction_key post_index reaction :=
               count_of counts (reaction_key post_index reaction) + 1]>
             (default ∅ counts)),
     Counted reaction).
Proof.
  unfold reaction_click. rewrite split_reaction_data.
  pose proof (split_on_not_nil "_" reaction "") as Hne.
  pose proof (join_split_on "_" reaction "") as Hjoin.
  unfold split in *.
  destruct (split_on "_" reaction "") as [|p rest] eqn:Hs; [congruence|].
  cbn [length Nat.leb nth drop]. rewrite Hjoin, append_empty_l.
  reflexivity.
Qed.

(** X6. A click on a reaction button is counted for that button: for
    every position of the post and every reaction text (underscores
    included), the handler reads back the reaction the button was built
    with, adds one to its counter (starting at zero when the entry or the
    dictionary is missing) and leaves every other counter as it was. *)
Theorem reaction_click_counts_its_button (post_index : nat) (reaction : string)
    (counts : option (gmap string Z)) :
  let after := reaction_click (reaction_data post_index reaction) counts in
  let key := reaction_key post_index reaction in
  snd after = Counted reaction /\
  count_of (fst after) key = count_of counts key + 1 /\
  forall other, other <> key -> count_of (fst after) other = count_of counts other.
Proof.
  intros after key. subst after. rewrite reaction_click_data. fold key.
  cbn [fst snd].
  assert (forall m k, count_of (Some m) k = default 0 (m !! k)) as Hsome
    by reflexivity.
  split; [reflexivity|]. split.
  - rewrite Hsome, lookup_insert_eq. reflexivity.
  - intros other Hne. rewrite Hsome, lookup_insert_ne by congruence. reflexivity.
Qed.

Lemma digits_then_underscore (d d' r r' : string) :
  all_digits d = true -> all_digits d' = true ->
  d +:+ String "_" r = d' +:+ String "_" r' -> d = d' /\ r = r'.
Proof.
  revert d'. induction d as [|c d IH]; intros [|c' d'] Hd Hd' Heq.
  - rewrite !append_empty_l in Heq. inversion Heq. auto.
  - rewrite append_empty_l, append_cons in Heq. inversion Heq; subst.
    simpl in Hd'. discriminate.
  - rewrite append_empty_l, append_cons in Heq. inversion Heq; subst.
    simpl in Hd. discriminate.
  - rewrite !append_cons in Heq. inversion Heq; subst.
    simpl in Hd, Hd'.
    apply andb_true_iff in Hd as [_ Hd]. apply andb_true_iff in Hd' as [_ Hd'].
    destruct (IH d' Hd Hd' H1) as [-> ->]. auto.
Qed.

Lemma reaction_key_inj (i j : nat) (r s : string) :
  reaction_key i r = reaction_key j s -> i = j /\ r = s.
Proof.
  unfold reaction_key. intros Heq.
  destruct (digits_then_underscore (pretty i) (pretty j) r s
              (pretty_nat_digits i) (pretty_nat_digits j) Heq) as [Hp ->].
  split; [|reflexivity].
  exact (pretty_nat_inj _ _ Hp).
Qed.

(** X7. The counter of a reaction is keyed by the position of the post
    and the text of the reaction, and by nothing else: a click on the
    button made for position [i] and reaction [r] moves the counter that
    the button for position [j] and reaction [s] is counted in exactly when
    [i = j] and [r = s]. Two clicks on buttons with the same position and
    text add up in one entry of [reaction_counts], and clicks on buttons
    that differ in the position or in the text are counted apart. *)
Theorem reaction_counter_is_keyed_by_position_and_text (i j : nat) (r s : string)
    (counts : option (gmap string Z)) :
  let first := fst (reaction_click (reaction_data i r) counts) in
  let second := fst (reaction_click (reaction_data j s) first) in
  (count_of first (reaction_key j s) <> count_of counts (reaction_key j s) <->
   i = j /\ r = s) /\
  count_of first (reaction_key j s) =
    count_of counts (reaction_key j s) + (if bool_decide (i = j /\ r = s) then 1 else 0) /\
  count_of second (reaction_key i r) =
    count_of counts (reaction_key i r) + (if bool_decide (i = j /\ r = s) then 2 else 1).
Proof.
  intros first second. subst second first.
  rewrite !reaction_click_data. cbn [fst].
  assert (forall m k, count_of (Some m) k = default 0 (m !! k)) as Hsome
    by reflexivity.
  assert (count_of (Some (<[reaction_key i r := count_of counts (reaction_key i r) + 1]>
                            (default ∅ counts))) (reaction_key j s) =
          count_of counts (reaction_key j s) +
            (if bool_decide (i = j /\ r = s) then 1 else 0)) as Hfirst.
  { rewrite Hsome. destruct (decide (i = j /\ r = s)) as [[-> ->]|Hne].
    - rewrite bool_decide_eq_true_2 by auto. rewrite lookup_insert_eq. reflexivity.
    - rewrite bool_decide_eq_false_2 by exact Hne.
      rewrite lookup_insert_ne.
      + unfold count_of. lia.
      + intros Hkey. apply Hne. exact (reaction_key_inj i j r s Hkey). }
  split; [|split; [exact Hfirst|]].
  - rewrite Hfirst. destruct (decide (i = j /\ r = s)) as [Hsame|Hne].
    + rewrite bool_decide_eq_true_2 by exact Hsame. split; [auto | lia].
    + rewrite bool_decide_eq_false_2 by exact Hne. split; [lia | tauto].
  - rewrite Hsome.
    destruct (decide (i = j /\ r = s)) as [[-> ->]|Hne].
    + rewrite bool_decide_eq_true_2 by auto.
      rewrite lookup_insert_eq. cbn [default id].
      rewrite Hsome, lookup_insert_eq. cbn [default id]. lia.
    + rewrite bool_decide_eq_false_2 by exact Hne.
      rewrite lookup_insert_ne.
      * cbn [default id]. rewrite lookup_insert_eq. reflexivity.
      * intros Hkey. apply Hne.
        destruct (reaction_key_inj j i s r Hkey) as [-> ->]. auto.
Qed.

End ReactionProps.

(** ** The buttons of a pending post *)

Module CallbackProps.
Import Bot Env Prim Logic Str StrProps Router Callback.
Local Open Scope eff_scope.

Lemma ui_text_ok (E : env) (w : world) :
  ui_fails E (ui_calls w) = false -> ui_text E w = (Ok tt, ui_step None w).
Proof. unfold ui_text. intros ->. reflexivity. Qed.

Lemma ui_text_posts (E : env) (w : world) :
  posts (ud (snd (ui_text E w))) = posts (ud w).
Proof. unfold ui_text. destruct (ui_fails E (ui_calls w)); reflexivity. Qed.

(** What [handle_delete_post] leaves of the list of posts. *)
Lemma handle_delete_post_posts (E : env) (i : Z) (w : world) :
  posts (ud (snd (handle_delete_post E i w))) =
    if ui_fails E (ui_calls w) then posts (ud w)
    else match posts (ud w) with
         | None => None
         | Some ps =>
             if Z.of_nat (length ps) <=? i then Some ps
             else match Pipeline.py_index ps i with
                  | Ok k => Some (delete k ps)
                  | Exc _ => Some ps
                  end
         end.
Proof.
  unfold handle_delete_post, try_catch, bind, get, modify, lift, ret, ui, ui_text.
  destruct (ui_fails E (ui_calls w)) eqn:Hanswer; simpl.
  - destruct (ui_fails E (S (ui_calls w))); reflexivity.
  - destruct (posts (ud w)) as [ps|] eqn:Hps; simpl.
    + destruct (Z.of_nat (length ps) <=? i); simpl.
      * destruct (ui_fails E (S (ui_calls w))); simpl; [|exact Hps].
        destruct (ui_fails E (S (S (ui_calls w)))); simpl; exact Hps.
      * destruct (Pipeline.py_index ps i) as [k|e]; simpl.
        -- destruct (ui_fails E (S (ui_calls w))); simpl; [|reflexivity].
           destruct (ui_fails E (S (S (ui_calls w)))); reflexivity.
        -- destruct (ui_fails E (S (ui_calls w))); simpl; exact Hps.
    + destruct (ui_fails E (S (ui_calls w))); simpl; [|exact Hps].
      destruct (ui_fails E (S (S (ui_calls w)))); simpl; exact Hps.
Qed.

(** Whatever Telegram answers, the handler returns, and to the state
    that waits for content, once its last message went through. *)
Lemma handle_delete_post_returns (E : env) (i : Z) (w : world) :
  (forall n, ui_fails E n = false) ->
  fst (handle_delete_post E i w) = Ok WAITING_PUBLICATION_CONTENT.
Proof.
  intros Hui.
  unfold handle_delete_post, try_catch, bind, get, modify, lift, ret, ui, ui_text.
  rewrite Hui; simpl.
  destruct (posts (ud w)) as [ps|]; simpl; rewrite ?Hui; simpl; try reflexivity.
  destruct (Z.of_nat (length ps) <=? i); simpl; rewrite ?Hui; simpl; try reflexivity.
  destruct (Pipeline.py_index ps i) as [k|e]; simpl; rewrite ?Hui; reflexivity.
Qed.

(** X9. [handle_delete_post] removes the post at the index it is given
    and no other: an index inside the list removes that post (counted from
    the end when negative, as [list.pop] does), an index outside the list
    leaves the list as it is, and nothing is removed when the callback
    query could not be answered. The channel selected for the session is
    kept in every case. *)
Theorem handle_delete_post_removes_that_post (E : env) (i : Z) (w : world)
    (ps : list post) (Hps : posts (ud w) = Some ps) :
  let n := Z.of_nat (length ps) in
  let w' := snd (handle_delete_post E i w) in
  (ui_fails E (ui_calls w) = false ->
   (0 <= i < n -> posts (ud w') = Some (delete (Z.to_nat i) ps)) /\
   (- n <= i < 0 -> posts (ud w') = Some (delete (Z.to_nat (n + i)) ps)) /\
   (n <= i \/ i < - n -> posts (ud w') = Some ps)) /\
  (ui_fails E (ui_calls w) = true -> posts (ud w') = Some ps) /\
  (forall ps', posts (ud w') = Some ps' ->
     ps' = ps \/ S (length ps') = length ps).
Proof.
  intros n w'. subst w'.
  pose proof (handle_delete_post_posts E i w) as H. rewrite Hps in H.
  unfold Pipeline.py_index in H. fold n in H.
  split; [|split].
  - intros Hanswer. rewrite Hanswer in H. rewrite H.
    split; [|split].
    + intros Hi. destruct (Z.leb_spec n i); [lia|].
      destruct (Z.leb_spec 0 i), (Z.ltb_spec i n); simpl; try lia. reflexivity.
    + intros Hi. destruct (Z.leb_spec n i); [lia|].
      destruct (Z.leb_spec 0 i), (Z.ltb_spec i n); simpl; try lia.
      destruct (Z.ltb_spec i 0), (Z.leb_spec (- n) i); simpl; try lia. reflexivity.
    + intros Hi. destruct (Z.leb_spec n i); [reflexivity|].
      destruct (Z.leb_spec 0 i), (Z.ltb_spec i n); simpl; try lia.
      destruct (Z.ltb_spec i 0), (Z.leb_spec (- n) i); simpl; try lia. reflexivity.
  - intros Hanswer. rewrite Hanswer in H. exact H.
  - intros ps' Hps'. rewrite H in Hps'.
    destruct (ui_fails E (ui_calls w)); [left; congruence|].
    destruct (Z.leb_spec n i); [left; congruence|].
    destruct ((0 <=? i) && (i <? n)) eqn:Hin.
    + right. injection Hps' as <-. rewrite length_delete.
      * assert (length ps <> 0)%nat by lia. lia.
      * apply lookup_lt_is_Some. apply andb_true_iff in Hin as [H1 H2].
        apply Z.leb_le in H1. apply Z.ltb_lt in H2. lia.
    + destruct ((i <? 0) && (- n <=? i)) eqn:Hneg; [|left; congruence].
      right. injection Hps' as <-. rewrite length_delete.
      * assert (length ps <> 0)%nat by lia. lia.
      * apply lookup_lt_is_Some. apply andb_true_iff in Hneg as [H1 H2].
        apply Z.ltb_lt in H1. apply Z.leb_le in H2. lia.
Qed.

Lemma handle_delete_post_removes_that_post_witness :
  let w := Scenario.start (Scenario.session
             [Scenario.text_post; Scenario.video_post] None None None) in
  posts (ud (snd (handle_delete_post Scenario.E0 0 w))) = Some [Scenario.video_post] /\
  posts (ud (snd (handle_delete_post Scenario.E0 (-1) w))) = Some [Scenario.text_post] /\
  posts (ud (snd (handle_delete_post Scenario.E0 2 w))) =
    Some [Scenario.text_post; Scenario.video_post].
Proof.
  intros w.
  pose proof (handle_delete_post_removes_that_post Scenario.E0 0 w _ eq_refl) as H0.
  pose proof (handle_delete_post_removes_that_post Scenario.E0 (-1) w _ eq_refl) as H1.
  pose proof (handle_delete_post_removes_that_post Scenario.E0 2 w _ eq_refl) as H2.
  split; [|split].
  - apply (proj1 H0 eq_refl). simpl. lia.
  - apply (proj1 H1 eq_refl). simpl. lia.
  - apply (proj1 H2 eq_refl). simpl. lia.
Defined.

(** The plain case: an index inside the list, Telegram answering. *)
Lemma handle_delete_post_at (E : env) (i : nat) (w : world) (ps : list post) :
  ui_fails E (ui_calls w) = false ->
  posts (ud w) = Some ps -> (i < length ps)%nat ->
  posts (ud (snd (handle_delete_post E (Z.of_nat i) w))) = Some (delete i ps).
Proof.
  intros Hui Hps Hi. rewrite handle_delete_post_posts, Hui, Hps.
  unfold Pipeline.py_index.
  destruct (Z.leb_spec (Z.of_nat (length ps)) (Z.of_nat i)); [lia|].
  destruct (Z.leb_spec 0 (Z.of_nat i)), (Z.ltb_spec (Z.of_nat i) (Z.of_nat (length ps)));
    simpl; try lia.
  rewrite Nat2Z.id. reflexivity.
Qed.

(** X10. The index in a delete button is the position the post had when
    the button was made, and deleting a post moves the later ones up: after
    the post at [i] was deleted, the button of a later post [j] deletes the
    post that was at [j + 1], and the post that was at [j] stays. *)
Theorem delete_buttons_go_stale (E : env) (w : world) (ps : list post) (i j : nat)
    (Hui : forall n, ui_fails E n = false)
    (Hps : posts (ud w) = Some ps) (Hij : (i <= j)%nat) (Hj : (S j < length ps)%nat) :
  let w1 := snd (handle_delete_post E (Z.of_nat i) w) in
  let w2 := snd (handle_delete_post E (Z.of_nat j) w1) in
  exists qs,
    posts (ud w2) = Some qs /\
    (S (S (length qs)) = length ps)%nat /\
    (forall k, qs !! k =
       ps !! (if (k <? i)%nat then k else if (k <? j)%nat then S k else S (S k))) /\
    ((i < j)%nat -> qs !! (j - 1)%nat = ps !! j).
Proof.
  intros w1 w2.
  assert (posts (ud w1) = Some (delete i ps)) as H1.
  { apply handle_delete_post_at; [apply Hui | exact Hps | lia]. }
  assert (length (delete i ps) = length ps - 1)%nat as Hlen1.
  { rewrite length_delete; [lia | apply lookup_lt_is_Some; lia]. }
  assert (posts (ud w2) = Some (delete j (delete i ps))) as H2.
  { apply handle_delete_post_at; [apply Hui | exact H1 | lia]. }
  assert (forall k, delete j (delete i ps) !! k =
            ps !! (if (k <? i)%nat then k else if (k <? j)%nat then S k else S (S k)))
    as Hlook.
  { intros k. destruct (Nat.ltb_spec k i) as [Hk|Hk].
    - rewrite list_lookup_delete_lt by lia. rewrite list_lookup_delete_lt by lia.
      reflexivity.
    - destruct (Nat.ltb_spec k j) as [Hkj|Hkj].
      + rewrite list_lookup_delete_lt by lia. rewrite list_lookup_delete_ge by lia.
        reflexivity.
      + rewrite list_lookup_delete_ge by lia. rewrite list_lookup_delete_ge by lia.
        reflexivity. }
  exists (delete j (delete i ps)). split; [exact H2|]. split; [|split].
  - rewrite length_delete; [lia | apply lookup_lt_is_Some; lia].
  - exact Hlook.
  - intros Hlt. rewrite Hlook.
    destruct (Nat.ltb_spec (j - 1) i); [lia|].
    destruct (Nat.ltb_spec (j - 1) j); [|lia].
    f_equal. lia.
Qed.

Lemma delete_buttons_go_stale_witness :
  let w := Scenario.start (Scenario.session
             [Scenario.text_post; Scenario.video_post; Scenario.text_post]
             None None None) in
  let w1 := snd (handle_delete_post Scenario.E0 0 w) in
  let w2 := snd (handle_delete_post Scenario.E0 1 w1) in
  exists qs, posts (ud w2) = Some qs /\ qs !! 0%nat = Some Scenario.video_post.
Proof.
  intros w w1 w2.
  destruct (delete_buttons_go_stale Scenario.E0 w _ 0 1 (fun _ => eq_refl) eq_refl)
    as (qs & Hqs & _ & _ & Hkeep); [lia | simpl; lia |].
  exists qs. split; [exact Hqs|]. exact (Hkeep ltac:(lia)).
Defined.

Lemma delete_last_of_app {A} (l : list A) (x : A) :
  delete (length l) (l ++ [x])%list = l.
Proof. induction l as [|a l IH]; simpl; [reflexivity | now rewrite IH]. Qed.

(** X11. The delete button shown with a post that was just taken in
    undoes the intake: [handle_post_content] followed by
    [handle_delete_post] at the index it displayed leaves the list of
    pending posts as it was before, whether the content was accepted or
    not. *)
Theorem delete_undoes_intake (E : env) (msg : Intake.message) (w : world)
    (Hui : forall n, ui_fails E n = false) :
  let ps := default [] (posts (ud w)) in
  let w1 := snd (Intake.handle_post_content E msg w) in
  let w2 := snd (handle_delete_post E (Z.of_nat (length ps)) w1) in
  default [] (posts (ud w2)) = ps.
Proof.
  intros ps w1 w2. subst w2.
  pose proof (IntakeProps.handle_post_content_posts E msg w) as Hin.
  unfold wp in Hin. fold w1 ps in Hin.
  rewrite handle_delete_post_posts, Hui.
  destruct Hin as [Heq|[_ [p Hp]]].
  - rewrite Heq. subst ps.
    destruct (posts (ud w)) as [ps0|]; [|reflexivity]. simpl.
    destruct (Z.leb_spec (Z.of_nat (length ps0)) (Z.of_nat (length ps0)));
      [reflexivity | lia].
  - rewrite Hp. rewrite length_app. simpl.
    destruct (Z.leb_spec (Z.of_nat (length ps + 1)) (Z.of_nat (length ps))); [lia|].
    unfold Pipeline.py_index. rewrite length_app. simpl.
    destruct (Z.leb_spec 0 (Z.of_nat (length ps))),
             (Z.ltb_spec (Z.of_nat (length ps)) (Z.of_nat (length ps + 1)));
      simpl; try lia.
    rewrite Nat2Z.id, delete_last_of_app. reflexivity.
Qed.

Lemma delete_undoes_intake_witness :
  let w := Scenario.start (Scenario.session [Scenario.text_post] None None None) in
  let msg := {| Intake.text := Some "second post"; Intake.photo := [];
                Intake.video := None; Intake.document := None;
                Intake.caption := None |} in
  let w1 := snd (Intake.handle_post_content Scenario.E0 msg w) in
  default [] (posts (ud (snd (handle_delete_post Scenario.E0 1 w1)))) =
    [Scenario.text_post].
Proof.
  intros w msg w1.
  exact (delete_undoes_intake Scenario.E0 msg w (fun _ => eq_refl)).
Defined.

(** The dispatch of the buttons whose branch is embedded. *)
Lemma route_auto_dest (d : string) :
  all_digits d = true -> route ("auto_dest_" +:+ d) = auto_dest d.
Proof.
  intros Hd. unfold route. lazy -[remove_all last_part pretty]. f_equal.
  exact (RouterProps.last_part_index "auto_dest" d Hd).
Qed.

(** X12. The delete button under a pending post deletes that post: a
    click on the button that [_send_post_with_buttons] made for the post at
    [i] goes through the dispatch and [int], removes the post at [i] from
    the list and keeps the conversation waiting for content. *)
Theorem delete_button_deletes_its_post (E : env) (message_id : option Z)
    (other : target -> M (option conv_state)) (w : world) (ps : list post) (i : nat)
    (Hui : forall n, ui_fails E n = false)
    (Hint : py_int E (pretty i) = Some (Z.of_nat i))
    (Hps : posts (ud w) = Some ps) (Hi : (i < length ps)%nat) :
  let r := handle_callback E message_id other (post_button "delete_post" i) w in
  fst r = Ok (Some WAITING_PUBLICATION_CONTENT) /\
  posts (ud (snd r)) = Some (delete i ps).
Proof.
  intros r.
  destruct (RouterProps.route_index (pretty i) (pretty_nat_digits i))
    as (_ & _ & _ & _ & Hroute & _).
  pose proof (handle_delete_post_returns E (Z.of_nat i) (ui_step (Some MsgAnswer) w) Hui)
    as Hret.
  pose proof (handle_delete_post_at E i (ui_step (Some MsgAnswer) w) ps (Hui _) Hps Hi)
    as Hposts.
  destruct (handle_delete_post E (Z.of_nat i) (ui_step (Some MsgAnswer) w))
    as [s w'] eqn:Hrun.
  simpl in Hret, Hposts. subst s.
  assert (r = (Ok (Some WAITING_PUBLICATION_CONTENT), w')) as ->.
  { subst r. unfold handle_callback, post_button. rewrite Hroute.
    unfold branch. rewrite Hint. unfold try_catch, bind, ret.
    rewrite SchedulerProps.ui_ok by apply Hui. rewrite Hrun. reflexivity. }
  split; [reflexivity | exact Hposts].
Qed.

Lemma delete_button_deletes_its_post_witness :
  let w := Scenario.start (Scenario.session
             [Scenario.text_post; Scenario.video_post] None None None) in
  let r := handle_callback Scenario.E0 None (fun _ => ret None)
             (post_button "delete_post" 1) w in
  fst r = Ok (Some WAITING_PUBLICATION_CONTENT) /\
  posts (ud (snd r)) = Some [Scenario.text_post].
Proof.
  intros w.
  exact (delete_button_deletes_its_post Scenario.E0 None (fun _ => ret None) w
           [Scenario.text_post; Scenario.video_post] 1
           (fun _ => eq_refl) eq_refl eq_refl ltac:(simpl; lia)).
Defined.

End CallbackProps.

(** ** The choices made from the send menu *)

Module SettingsProps.
Import Bot Env Prim Logic Str StrProps Router Callback.
Local Open Scope eff_scope.

(** What a click on a button of the auto-destruction menu leaves. *)
Lemma auto_dest_run (E : env) (message_id : option Z)
    (other : target -> M (option conv_state)) (w : world) (n : nat)
    (Hui : forall k, ui_fails E k = false)
    (Hint : py_int E (pretty n) = Some (Z.of_nat n)) :
  handle_callback E message_id other ("auto_dest_" +:+ pretty n) w =
    (Ok (Some MAIN_MENU),
     ui_step None
       (set_ud (set_auto_destruction_time
                  (if Nat.eqb n 0 then None else Some (Z.of_nat n)))
          (ui_step (Some MsgAnswer) w))).
Proof.
  unfold handle_callback.
  rewrite (CallbackProps.route_auto_dest (pretty n) (pretty_nat_digits n)).
  unfold branch. rewrite Hint.
  unfold try_catch, bind, ret, modify, safe_edit_callback_message, try_catch.
  rewrite SchedulerProps.ui_ok by apply Hui.
  destruct n as [|n].
  - change (Z.of_nat 0 =? 0) with true. cbv beta iota.
    rewrite CallbackProps.ui_text_ok by apply Hui. reflexivity.
  - replace (Z.of_nat (S n) =? 0) with false by (symmetry; apply Z.eqb_neq; lia).
    cbv beta iota.
    rewrite CallbackProps.ui_text_ok by apply Hui. reflexivity.
Qed.

(** X13. The delay chosen in the auto-destruction menu is stored and
    nothing more: a click on [auto_dest_<n>] stores [n] seconds in the
    session ([auto_dest_0] removes the setting), leaves the pending posts
    alone and returns to the main menu; a delivery made afterwards with
    that setting counts the message as sent and leaves the state, job queue
    included, as it was, for no destruct job can be created. *)
Theorem chosen_delay_is_stored (E : env) (message_id : option Z)
    (other : target -> M (option conv_state)) (w : world) (n : nat)
    (Hui : forall k, ui_fails E k = false)
    (Hint : py_int E (pretty n) = Some (Z.of_nat n)) :
  let run := handle_callback E message_id other ("auto_dest_" +:+ pretty n) w in
  let w1 := snd run in
  fst run = Ok (Some MAIN_MENU) /\
  auto_destruction_time (ud w1) = (if Nat.eqb n 0 then None else Some (Z.of_nat n)) /\
  posts (ud w1) = posts (ud w) /\
  job_queue w1 = job_queue w /\
  forall channel post_type content count sent,
    bot_send E channel post_type content = Ok (Some sent) ->
    SendNow.deliver E channel post_type content (auto_destruction_time (ud w1))
      count w1 = (Ok (count + 1, false), w1).
Proof.
  intros run w1. subst w1 run.
  rewrite (auto_dest_run E message_id other w n Hui Hint). cbn [fst snd].
  split; [reflexivity|]. split; [reflexivity|]. split; [reflexivity|].
  split; [reflexivity|].
  intros channel post_type content count sent Hsend.
  exact (SendNowProps.deliver_sent E channel post_type content _ count sent _ Hsend).
Qed.

Lemma chosen_delay_is_stored_witness :
  let w := Scenario.start (Scenario.session [Scenario.text_post] None None None) in
  let w1 := snd (handle_callback Scenario.E0 None (fun _ => ret None)
                   ("auto_dest_" +:+ pretty 300%nat) w) in
  let w2 := snd (SendNow.deliver Scenario.E0 (Some "@news") "text" (Some "hello")
                   (auto_destruction_time (ud w1)) 0 w1) in
  auto_destruction_time (ud w1) = Some 300 /\
  posts (ud w1) = Some [Scenario.text_post] /\
  job_queue w2 = Some [].
Proof.
  intros w w1 w2.
  destruct (chosen_delay_is_stored Scenario.E0 None (fun _ => ret None) w 300
              (fun _ => eq_refl) eq_refl)
    as (_ & Hset & Hposts & Hjobs & Hdeliver).
  split; [exact Hset|]. split; [exact Hposts|].
  exact (eq_trans
           (f_equal (fun x => job_queue (snd x))
              (Hdeliver (Some "@news") "text" (Some "hello") 0 555 eq_refl))
           Hjobs).
Defined.

End SettingsProps.

(** ** More on scheduling *)

Module ScheduleProps.
Import Bot Env Prim Logic Scheduler Frame.
Local Open Scope eff_scope.

(** One round of the scheduling loop never raises and touches neither
    the session nor the user interface. *)
Lemma schedule_post_frame (E : env) mgr cid (target : Time.aware) (p : post)
    (n : Z) (w : world) :
  exists n' w',
    schedule_post E mgr cid target p n w = (Ok n', w') /\
    ud w' = ud w /\ outbox w' = outbox w /\ ui_calls w' = ui_calls w /\
    job_queue w' = job_queue w.
Proof.
  unfold schedule_post, try_catch, bind, get, sql, modify, ret, raise.
  destruct (p_type p), (p_content p), (sqlite_error E), mgr; simpl;
    eexists _, _; (split; [reflexivity|]); auto.
Qed.

Lemma schedule_posts_frame (E : env) mgr cid (target : Time.aware) :
  forall (ps : list post) (n : Z) (w : world),
  exists n' w',
    schedule_posts E mgr cid target ps n w = (Ok n', w') /\
    ud w' = ud w /\ outbox w' = outbox w /\ ui_calls w' = ui_calls w /\
    job_queue w' = job_queue w.
Proof.
  induction ps as [|p ps IH]; intros n w.
  - exists n, w. simpl. auto.
  - destruct (schedule_post_frame E mgr cid target p n w)
      as (n1 & w1 & Hstep & Hud & Hout & Hui & Hjq).
    destruct (IH n1 w1) as (n2 & w2 & Hrest & Hud2 & Hout2 & Hui2 & Hjq2).
    exists n2, w2. cbn [schedule_posts]. unfold bind. rewrite Hstep, Hrest.
    split; [reflexivity|]. split_and!; congruence.
Qed.

(** The target of a request for tomorrow lies after now, and the target
    of a request for today lies after now exactly when its time of day is
    later than the one on the user's clock. *)
Lemma target_against_now (E : env) (tz : Time.zone) (hour minute : Z) :
  0 <= hour -> 0 <= minute ->
  Time.le (target_date_local E tz "tomorrow" hour minute) (Time.now tz (now_utc E))
    = false /\
  (Time.le (target_date_local E tz "today" hour minute) (Time.now tz (now_utc E))
     = true <->
   3600 * hour + 60 * minute <= (now_utc E + tz (now_utc E)) mod 86400).
Proof.
  intros Hh Hm.
  unfold target_date_local, Time.le, Time.to_utc, Time.add_days, Time.replace_time,
    Time.now.
  cbn [String.eqb Ascii.eqb Bool.eqb Time.wall Time.offset].
  pose proof (Z.mod_pos_bound (now_utc E + tz (now_utc E)) 86400 ltac:(lia)) as Hmod.
  split.
  - apply Z.leb_gt. lia.
  - rewrite Z.leb_le. lia.
Qed.

(** X14. A request for tomorrow is never refused as being in the past:
    after the user picked tomorrow in the menu, every time of day from 00:00
    to 23:59 passes the guard, whatever the clock and the zone of the user;
    the handler goes on to schedule the pending posts, reports how many it
    scheduled (or that none could be), clears the session and returns to
    the main menu. *)
Theorem tomorrow_is_never_refused (E : env) (message_id : option Z)
    (other : Router.target -> M (option conv_state)) (txt : string) (w : world)
    (ps : list post) (hour minute : Z) (stored : option string) (tz : Time.zone)
    (Hui : forall k, ui_fails E k = false)
    (Htxt : truthy_str (Some txt) = true)
    (Hps : posts (ud w) = Some ps) (Hne : ps <> [])
    (Hparse : parse_time E txt = Some (hour, minute))
    (Hh : 0 <= hour <= 23) (Hm : 0 <= minute <= 59)
    (Hstored : get_user_timezone E = Ok stored)
    (Htz : pytz_timezone E (if truthy_str stored then default "" stored
                            else "Europe/Paris") = Ok tz) :
  let w1 := snd (Callback.handle_callback E message_id other "schedule_tomorrow" w) in
  let r := handle_schedule_time E (Some txt) w1 in
  schedule_day (ud w1) = Some "tomorrow" /\
  fst r = Ok MAIN_MENU /\
  ud (snd r) = cleared /\
  exists n, outbox (snd r) =
    (outbox w ++ [MsgAnswer; if 0 <? n then MsgScheduled n else MsgScheduleError])%list.
Proof.
  intros w1 r.
  assert (w1 = ui_step None (set_ud (Callback.set_schedule_day "tomorrow")
                               (ui_step (Some MsgAnswer) w))) as Hw1.
  { subst w1. unfold Callback.handle_callback.
    change (Router.route "schedule_tomorrow")
      with (Router.schedule_day_chosen "tomorrow").
    unfold Callback.branch, try_catch, bind, ret, modify.
    rewrite SchedulerProps.ui_ok by apply Hui.
    rewrite CallbackProps.ui_text_ok by apply Hui. reflexivity. }
  split; [rewrite Hw1; reflexivity|].
  assert (negb ((0 <=? hour) && (hour <=? 23)) || negb ((0 <=? minute) && (minute <=? 59))
          = false) as Hrange.
  { destruct (Z.leb_spec 0 hour), (Z.leb_spec hour 23),
             (Z.leb_spec 0 minute), (Z.leb_spec minute 59); simpl; lia. }
  destruct (target_against_now E tz hour minute ltac:(lia) ltac:(lia)) as [Hfuture _].
  assert (schedule_day (ud w1) = Some "tomorrow") as Hday by (rewrite Hw1; reflexivity).
  assert (posts (ud w1) = Some ps) as Hps1 by (rewrite Hw1; exact Hps).
  assert (outbox w1 = (outbox w ++ [MsgAnswer])%list) as Hout1 by (rewrite Hw1; reflexivity).
  clearbody w1. subst r.
  unfold handle_schedule_time, try_catch, bind, get, lift, ret.
  cbv beta iota. rewrite Htxt. change (negb true) with false. cbv beta iota.
  rewrite Hday. cbv beta iota zeta. rewrite Hps1.
  change (default [] (Some ps)) with ps.
  rewrite bool_decide_eq_false_2 by exact Hne. cbn [andb].
  rewrite Hparse. cbv beta iota. rewrite Hrange, Hstored. cbv beta iota.
  rewrite Htz. cbv beta iota. rewrite Hfuture. cbv beta iota.
  destruct (current_scheduled_post (ud w1)) as [cur|].
  - change (0 <? 0) with false. cbv beta iota.
    rewrite SchedulerProps.ui_ok by apply Hui. unfold modify. cbn.
    split; [reflexivity|]. split; [reflexivity|].
    exists 0. rewrite Hout1, <- app_assoc. reflexivity.
  - destruct (schedule_posts_frame E (get_scheduler_manager E w1)
                (match selected_channel (ud w1) with
                 | Some ch => ch_id ch
                 | None => None
                 end)
                (target_date_local E tz "tomorrow" hour minute) ps 0 w1)
      as (n & w2 & Hrun & _ & Hout2 & _ & _).
    rewrite Hrun. cbv beta iota.
    destruct (0 <? n) eqn:Hn; rewrite SchedulerProps.ui_ok by apply Hui;
      unfold modify; cbn;
      (split; [reflexivity|]); (split; [reflexivity|]);
      exists n; rewrite Hn, Hout2, Hout1, <- app_assoc; reflexivity.
Qed.

Lemma tomorrow_is_never_refused_witness :
  let w := Scenario.start (Scenario.session [Scenario.text_post] None None None) in
  let w1 := snd (Callback.handle_callback Scenario.E0 None (fun _ => ret None)
                   "schedule_tomorrow" w) in
  fst (handle_schedule_time Scenario.E0 (Some "00:00") w1) = Ok MAIN_MENU.
Proof.
  intros w w1.
  destruct (tomorrow_is_never_refused Scenario.E0 None (fun _ => ret None) "00:00" w
              [Scenario.text_post] 0 0 (Some "Europe/Paris") Scenario.paris_winter
              (fun _ => eq_refl) eq_refl eq_refl ltac:(discriminate) eq_refl
              ltac:(lia) ltac:(lia) eq_refl eq_refl)
    as (_ & Hr & _).
  exact Hr.
Defined.

End ScheduleProps.

(** ** What scheduling writes, and when it writes nothing *)

Module ScheduleInvariants.
Import Bot Env Prim Logic Scheduler Frame.
Local Open Scope eff_scope.

Lemma untouched_refl (w : world) : untouched w w.
Proof. unfold untouched. auto. Qed.

Lemma ui_untouched (E : env) (m : ui_msg) :
  spec (ui E m) (fun w _ w' => untouched w w').
Proof.
  intros w. unfold ui, untouched.
  destruct (ui_fails E (ui_calls w)); simpl; auto.
Qed.

(** Once a request is accepted the handler ends in the main menu. *)
Lemma accepted_tail (E : env) (m : M Z) (w : world) :
  fst (bind m (fun success_count =>
         (if 0 <? success_count then ui E (MsgScheduled success_count)
          else ui E MsgScheduleError) >>
         modify (set_ud (fun _ => cleared)) >> ret MAIN_MENU) w)
  <> Ok SCHEDULE_SEND.
Proof.
  unfold bind, modify, ret, ui.
  destruct (m w) as [[n|e] w1]; simpl; [|discriminate].
  destruct (0 <? n); destruct (ui_fails E (ui_calls w1)); simpl; discriminate.
Qed.

(** The handler answers [SCHEDULE_SEND] only from a state where nothing
    was written. *)
Lemma handle_schedule_time_refusal (E : env) (text : option string) (w : world) :
  wp (handle_schedule_time E text)
     (fun r w' => r = Ok SCHEDULE_SEND -> untouched w w') w.
Proof.
  unfold handle_schedule_time.
  apply wp_try_catch.
  destruct text as [txt|]; [|intros _; apply untouched_refl].
  destruct (negb (truthy_str (Some txt))); [intros _; apply untouched_refl|].
  apply wp_bind, wp_get. lazy beta iota.
  destruct (schedule_day (ud w)) as [day|].
  2: { apply wp_bind. eapply wp_use; [apply ui_untouched|].
       intros [[]|e] w1 H1; lazy beta iota.
       - intros _. exact H1.
       - apply wp_bind. apply wp_try_catch.
         eapply wp_use; [apply ui_untouched|].
         intros [[]|e2] w2 H2; lazy beta iota; discriminate. }
  lazy zeta.
  destruct (bool_decide (default [] (posts (ud w)) = []) &&
            negb (bool_decide (is_Some (current_scheduled_post (ud w))))).
  { apply wp_bind. eapply wp_use; [apply ui_untouched|].
    intros [[]|e] w1 H1; lazy beta iota.
    - discriminate.
    - apply wp_bind. apply wp_try_catch.
      eapply wp_use; [apply ui_untouched|].
      intros [[]|e2] w2 H2; lazy beta iota; discriminate. }
  destruct (parse_time E txt) as [[hour minute]|].
  2: { apply wp_bind. eapply wp_use; [apply ui_untouched|].
       intros [[]|e] w1 H1; lazy beta iota.
       - intros _. exact H1.
       - apply wp_bind. apply wp_try_catch.
         eapply wp_use; [apply ui_untouched|].
         intros [[]|e2] w2 H2; lazy beta iota; discriminate. }
  destruct (negb ((0 <=? hour) && (hour <=? 23)) ||
            negb ((0 <=? minute) && (minute <=? 59))).
  { apply wp_bind. eapply wp_use; [apply ui_untouched|].
    intros [[]|e] w1 H1; lazy beta iota.
    - intros _. exact H1.
    - apply wp_bind. apply wp_try_catch.
      eapply wp_use; [apply ui_untouched|].
      intros [[]|e2] w2 H2; lazy beta iota; discriminate. }
  apply wp_bind, wp_lift.
  destruct (get_user_timezone E) as [stored|e]; lazy beta iota.
  2: { apply wp_bind. apply wp_try_catch.
       eapply wp_use; [apply ui_untouched|].
       intros [[]|e2] w2 H2; lazy beta iota; discriminate. }
  apply wp_bind, wp_lift.
  destruct (pytz_timezone E _) as [tz|e]; lazy beta iota.
  2: { apply wp_bind. apply wp_try_catch.
       eapply wp_use; [apply ui_untouched|].
       intros [[]|e2] w2 H2; lazy beta iota; discriminate. }
  lazy zeta.
  destruct (Time.le _ _).
  { apply wp_bind. eapply wp_use; [apply ui_untouched|].
    intros [[]|e] w1 H1; lazy beta iota.
    - intros _. exact H1.
    - apply wp_bind. apply wp_try_catch.
      eapply wp_use; [apply ui_untouched|].
      intros [[]|e2] w2 H2; lazy beta iota; discriminate. }
  (* the request is accepted: whatever happens next ends in MAIN_MENU *)
  unfold wp.
  match goal with
  | |- context [bind ?m ?k w] =>
      assert (fst (bind m k w) <> Ok SCHEDULE_SEND) as Hnot
  end.
  { apply accepted_tail. }
  match goal with
  | |- context [bind ?m ?k w] => destruct (bind m k w) as [[s|e] w1]
  end; simpl in *.
  - intros Hs. congruence.
  - unfold bind, try_catch, ret, ui.
    destruct (ui_fails E (ui_calls w1)); simpl; discriminate.
Qed.

(** X15. A request that [handle_schedule_time] sends back to the time
    prompt has written nothing: whenever the handler answers
    [SCHEDULE_SEND] (no day chosen, a time it cannot read, an hour or a
    minute out of range, a time in the past, an empty message), the posts
    table, the job store of the scheduler, the job queue and the session are
    exactly as before the call. *)
Theorem refused_request_writes_nothing (E : env) (text : option string) (w : world)
    (Hrefused : fst (handle_schedule_time E text w) = Ok SCHEDULE_SEND) :
  untouched w (snd (handle_schedule_time E text w)).
Proof.
  pose proof (handle_schedule_time_refusal E text w) as Hwp.
  unfold wp in Hwp.
  destruct (handle_schedule_time E text w) as [r w'].
  cbn [fst snd] in *. apply Hwp. exact Hrefused.
Qed.

Lemma refused_request_writes_nothing_witness :
  let w := Scenario.start
             (Scenario.session [Scenario.text_post] (Some "today") None None) in
  untouched w (snd (handle_schedule_time Scenario.E0 (Some "25:00") w)).
Proof.
  intros w.
  exact (refused_request_writes_nothing Scenario.E0 (Some "25:00") w eq_refl).
Defined.

End ScheduleInvariants.

(** ** The rows and the jobs of a scheduled batch *)

Module ScheduleRows.
Import Bot Env Prim Logic Scheduler Frame.
Local Open Scope eff_scope.

(** The largest id in use bounds every id in use. *)
Lemma max_id_bound (db : gmap Z row) :
  0 <= map_fold (fun k _ acc => Z.max k acc) 0 db /\
  forall k, is_Some (db !! k) -> k <= map_fold (fun k _ acc => Z.max k acc) 0 db.
Proof.
  apply (map_fold_weak_ind
           (fun (b : Z) (m : gmap Z row) =>
              0 <= b /\ forall k, is_Some (m !! k) -> k <= b)).
  - split; [lia|]. intros k [r Hr]. rewrite lookup_empty in Hr. discriminate.
  - intros i x m b Hi [Hb IH]. split; [lia|].
    intros k [r Hr]. destruct (decide (k = i)) as [->|Hne]; [lia|].
    rewrite lookup_insert_ne in Hr by congruence.
    specialize (IH k (ex_intro _ r Hr)). lia.
Qed.

(** [lastrowid] names no row of the table. *)
Lemma lastrowid_fresh (db : gmap Z row) (k : Z) :
  lastrowid (db) <= k -> db !! k = None.
Proof.
  intros Hk. destruct (db !! k) as [r|] eqn:Hr; [|reflexivity].
  destruct (max_id_bound db) as [_ Hb].
  specialize (Hb k (ex_intro _ r Hr)). unfold lastrowid in Hk. lia.
Qed.

(** After an insertion at [lastrowid] the next id is one more. *)
Lemma lastrowid_insert (db : gmap Z row) (r : row) :
  lastrowid (<[lastrowid db := r]> db) = lastrowid db + 1.
Proof.
  unfold lastrowid at 1.
  rewrite map_fold_insert_L.
  - destruct (max_id_bound db) as [Hb _]. unfold lastrowid. lia.
  - intros. lia.
  - apply lastrowid_fresh. lia.
Qed.

Lemma job_id_inj (a b : Z) : job_id a = job_id b -> a = b.
Proof.
  unfold job_id. intros H.
  apply (inj (String.app "post_")) in H.
  exact (pretty_Z_inj _ _ H).
Qed.

(** One round of the loop for a post that can be scheduled, with the
    scheduler manager registered and the database in reach. *)
Lemma schedule_post_registered (E : env) cid (target : Time.aware) (p : post)
    (n : Z) (w : world) :
  sqlite_error E = None -> schedulable p ->
  schedule_post E Registered cid target p n w =
    (Ok (n + 1),
     set_scheduler
       (option_map (fun jobs =>
          <[job_id (lastrowid (db_posts w)) := job_for target (lastrowid (db_posts w))]> jobs))
       (set_db (fun db => <[lastrowid (db_posts w) := row_for cid target p]> db) w)).
Proof.
  intros Hsql [[ty Hty] [c Hc]].
  unfold schedule_post, try_catch, bind, get, sql, modify, ret, row_for, job_for.
  rewrite Hty, Hc, Hsql. reflexivity.
Qed.

Lemma schedule_posts_registered (E : env) cid (target : Time.aware)
    (Hsql : sqlite_error E = None) :
  forall (ps : list post) (n : Z) (w : world) (jobs : gmap string job),
    scheduler w = Some jobs ->
    Forall schedulable ps ->
    exists w' jobs',
      schedule_posts E Registered cid target ps n w = (Ok (n + Z.of_nat (length ps)), w') /\
      scheduler w' = Some jobs' /\
      lastrowid (db_posts w') = lastrowid (db_posts w) + Z.of_nat (length ps) /\
      (forall id, id < lastrowid (db_posts w) -> db_posts w' !! id = db_posts w !! id) /\
      (forall k p, ps !! k = Some p ->
         db_posts w' !! (lastrowid (db_posts w) + Z.of_nat k) = Some (row_for cid target p) /\
         jobs' !! job_id (lastrowid (db_posts w) + Z.of_nat k) =
           Some (job_for target (lastrowid (db_posts w) + Z.of_nat k))) /\
      (forall name,
         (forall k, (k < length ps)%nat ->
            name <> job_id (lastrowid (db_posts w) + Z.of_nat k)) ->
         jobs' !! name = jobs !! name).
Proof.
  induction ps as [|p ps IH]; intros n w jobs Hjobs Hall.
  - exists w, jobs. cbn [schedule_posts length]. unfold ret.
    split; [f_equal; f_equal; lia|]. split; [exact Hjobs|].
    split; [simpl; lia|]. split; [auto|]. split; [|auto].
    intros k q Hk. rewrite lookup_nil in Hk. discriminate.
  - apply Forall_cons in Hall as [Hp Hall].
    set (first := lastrowid (db_posts w)).
    set (w1 := set_scheduler
                 (option_map (fun js => <[job_id first := job_for target first]> js))
                 (set_db (fun db => <[first := row_for cid target p]> db) w)).
    assert (scheduler w1 = Some (<[job_id first := job_for target first]> jobs)) as Hjobs1.
    { subst w1. cbn. rewrite Hjobs. reflexivity. }
    assert (lastrowid (db_posts w1) = first + 1) as Hnext.
    { subst w1 first. cbn. apply lastrowid_insert. }
    destruct (IH (n + 1) w1 _ Hjobs1 Hall)
      as (w' & jobs' & Hrun & Hsched & Hlast & Hold & Hnew & Hkeep).
    exists w', jobs'. cbn [schedule_posts]. unfold bind.
    rewrite (schedule_post_registered E cid target p n w Hsql Hp).
    fold first. fold w1. rewrite Hrun.
    split; [f_equal; f_equal; cbn [length]; lia|]. split; [exact Hsched|].
    rewrite Hnext in *. split; [cbn [length]; lia|]. split; [|split].
    + intros id Hid. rewrite Hold by lia. subst w1. cbn.
      rewrite lookup_insert_ne by lia. reflexivity.
    + intros [|k] q Hk.
      * cbn in Hk. injection Hk as <-.
        replace (first + Z.of_nat 0) with first by lia. split.
        -- rewrite Hold by lia. subst w1. cbn. apply lookup_insert_eq.
        -- rewrite Hkeep.
           ++ apply lookup_insert_eq.
           ++ intros k _ Heq. apply job_id_inj in Heq. lia.
      * cbn in Hk. destruct (Hnew k q Hk) as [Hrow Hjob].
        replace (first + Z.of_nat (S k)) with (first + 1 + Z.of_nat k) by lia.
        split; assumption.
    + intros name Hname. rewrite Hkeep.
      * apply lookup_insert_ne. intros Heq. apply (Hname 0%nat); [cbn; lia|].
        rewrite <- Heq. f_equal. lia.
      * intros k Hk Heq. apply (Hname (S k)); [cbn; lia|].
        rewrite Heq. f_equal. lia.
Qed.

(** X16. Scheduling a batch gives every post a row of its own and a job
    named after that row: with the database in reach and the scheduler
    manager registered, the posts of the batch are all counted, they get
    consecutive fresh ids in the order of the list, the row of each holds
    its type, content and caption with the target time, the job
    [post_<id>] of each is armed at the UTC instant of the target with that
    id, and the rows and the jobs that were there before are kept. *)
Theorem batch_gets_rows_and_jobs (E : env) (channel_id : option Z)
    (target : Time.aware) (ps : list post) (w : world) (jobs : gmap string job)
    (Hsql : sqlite_error E = None)
    (Hjobs : scheduler w = Some jobs)
    (Hall : Forall schedulable ps) :
  let r := schedule_posts E Registered channel_id target ps 0 w in
  let first := lastrowid (db_posts w) in
  fst r = Ok (Z.of_nat (length ps)) /\
  (forall id row, db_posts w !! id = Some row -> db_posts (snd r) !! id = Some row) /\
  exists jobs',
    scheduler (snd r) = Some jobs' /\
    (forall name j, jobs !! name = Some j ->
       (forall k, (k < length ps)%nat -> name <> job_id (first + Z.of_nat k)) ->
       jobs' !! name = Some j) /\
    forall k p, ps !! k = Some p ->
      db_posts w !! (first + Z.of_nat k) = None /\
      db_posts (snd r) !! (first + Z.of_nat k) = Some (row_for channel_id target p) /\
      jobs' !! job_id (first + Z.of_nat k) = Some (job_for target (first + Z.of_nat k)).
Proof.
  intros r first.
  destruct (schedule_posts_registered E channel_id target Hsql ps 0 w jobs Hjobs Hall)
    as (w' & jobs' & Hrun & Hsched & _ & Hold & Hnew & Hkeep).
  subst r. rewrite Hrun. cbn [fst snd].
  split; [reflexivity|]. split.
  - intros id row Hrow. rewrite Hold; [exact Hrow|].
    destruct (Z.lt_ge_cases id (lastrowid (db_posts w))) as [Hlt|Hge]; [exact Hlt|].
    rewrite (lastrowid_fresh (db_posts w) id Hge) in Hrow. discriminate.
  - exists jobs'. split; [exact Hsched|]. split.
    + intros name j Hj Hname. rewrite Hkeep by exact Hname. exact Hj.
    + intros k p Hk. destruct (Hnew k p Hk) as [Hrow Hjob].
      split; [apply lastrowid_fresh; subst first; lia|]. split; assumption.
Qed.

Lemma batch_gets_rows_and_jobs_witness :
  let w := Scenario.start (Scenario.session [] None None None) in
  let target := Time.now Scenario.paris_winter Scenario.half_past_two_utc in
  let r := schedule_posts Scenario.E_remove Registered (Some 3) target
             [Scenario.text_post; Scenario.video_post] 0 w in
  fst r = Ok 2 /\
  exists jobs',
    scheduler (snd r) = Some jobs' /\
    jobs' !! "post_2" = Some (job_for target 2).
Proof.
  intros w target r.
  destruct (batch_gets_rows_and_jobs Scenario.E_remove (Some 3) target
              [Scenario.text_post; Scenario.video_post] w ∅ eq_refl eq_refl)
    as (Hcount & _ & jobs' & Hsched & _ & Hnew).
  { repeat constructor; eexists; reflexivity. }
  split; [exact Hcount|].
  exists jobs'. split; [exact Hsched|].
  exact (proj2 (proj2 (Hnew 1%nat Scenario.video_post eq_refl))).
Defined.

End ScheduleRows.

(** ** Cancelling, sending by hand and sending the pending posts *)

Module SendingProps.
Import Bot Env Prim Logic Scheduler Frame Sending.
Local Open Scope eff_scope.

(** What [handle_confirm_cancel] leaves of the posts table. *)
Lemma cancel_db (E : env) (w : world) :
  db_posts (snd (handle_confirm_cancel E w)) =
    if ui_fails E (ui_calls w) then db_posts w
    else match current_scheduled_post (ud w), sqlite_error E with
         | Some post_id, None => delete post_id (db_posts w)
         | _, _ => db_posts w
         end.
Proof.
  unfold handle_confirm_cancel, try_catch, bind, get, ret, sql, modify, raise,
    job_queue_remove, ui.
  repeat (case_match; simplify_eq/=); reflexivity.
Qed.

(** X17. Cancelling removes the selected row and nothing else: the
    handler never adds a row and never touches the row of another post; the
    row of the post that is open is gone once the callback query was
    answered and the [DELETE] went through; and with no post open, or with
    the database out of reach, the table is left as it was. *)
Theorem cancel_deletes_only_the_selected_row (E : env) (w : world) :
  let w' := snd (handle_confirm_cancel E w) in
  (forall id row, db_posts w' !! id = Some row -> db_posts w !! id = Some row) /\
  (forall id, current_scheduled_post (ud w) <> Some id ->
     db_posts w' !! id = db_posts w !! id) /\
  (forall id, current_scheduled_post (ud w) = Some id ->
     ui_fails E (ui_calls w) = false -> sqlite_error E = None ->
     db_posts w' !! id = None) /\
  (current_scheduled_post (ud w) = None \/ sqlite_error E <> None ->
   db_posts w' = db_posts w).
Proof.
  intros w'. subst w'. rewrite cancel_db.
  split_and!.
  - intros id row Hrow.
    destruct (ui_fails E (ui_calls w)); [exact Hrow|].
    destruct (current_scheduled_post (ud w)) as [post_id|]; [|exact Hrow].
    destruct (sqlite_error E); [exact Hrow|].
    apply lookup_delete_Some in Hrow as [_ Hrow]. exact Hrow.
  - intros id Hne.
    destruct (ui_fails E (ui_calls w)); [reflexivity|].
    destruct (current_scheduled_post (ud w)) as [post_id|]; [|reflexivity].
    destruct (sqlite_error E); [reflexivity|].
    apply lookup_delete_ne. congruence.
  - intros id Hcur Hanswer Hsql. rewrite Hanswer, Hcur, Hsql.
    apply lookup_delete_eq.
  - intros Hnone.
    destruct (ui_fails E (ui_calls w)); [reflexivity|].
    destruct (current_scheduled_post (ud w)) as [post_id|]; [|reflexivity].
    destruct (sqlite_error E); [reflexivity|].
    destruct Hnone; congruence.
Qed.

Section WithOracles.
Variable E : env.
Variable channel_of_post : Z -> res (option string).
Variable import_reaction_functions : res unit.
Variable create_reactions_keyboard : list string -> res unit.
Variable list_channels : res (list (option string)).

(** A job that left the job store does not run when its time comes. *)
Lemma on_trigger_removed (t : Z) (id : string) (w : world)
    (jobs : option (gmap string job)) :
  scheduler w = (fun js => delete id js) <$> jobs ->
  on_trigger E t id w = (Ok tt, w).
Proof.
  intros Hs. unfold on_trigger, bind, get, ret. rewrite Hs.
  destruct jobs as [js|]; simpl; [|reflexivity].
  rewrite lookup_delete_eq. reflexivity.
Qed.

(** Neither the table nor the job store changed between [w] and [w']. *)
Lemma ui_text_keeps :
  spec (Callback.ui_text E)
    (fun w _ w' => db_posts w' = db_posts w /\ scheduler w' = scheduler w /\
                   ud w' = ud w).
Proof.
  intros w. unfold Callback.ui_text.
  destruct (ui_fails E (ui_calls w)); simpl; auto.
Qed.

Lemma scheduled_channel_pure (post : scheduled_post) :
  spec (scheduled_channel channel_of_post post) (fun w _ w' => w' = w).
Proof.
  intros w. unfold scheduled_channel, bind, ret, raise.
  destruct (truthy_str (sp_channel_username post)); [reflexivity|].
  destruct (channel_of_post (sp_id post)) as [[u|]|e]; reflexivity.
Qed.

Lemma sql_spec (f : gmap Z row -> gmap Z row) :
  spec (sql E f)
    (fun w r w' => (sqlite_error E = None /\ r = Ok tt /\ w' = set_db f w) \/
                   ((exists e, r = Exc e) /\ w' = w)).
Proof.
  intros w. unfold sql, modify, raise.
  destruct (sqlite_error E); simpl; eauto.
Qed.

Lemma remove_scheduled_job_spec (id : string) :
  spec (remove_scheduled_job E id)
    (fun w r w' => r = Ok tt /\ db_posts w' = db_posts w /\ ud w' = ud w /\
                   ui_calls w' = ui_calls w /\
                   scheduler w' = (fun js => delete id js) <$> scheduler w).
Proof.
  intros w. unfold remove_scheduled_job, get_scheduler_manager, bind, get, modify, ret.
  destruct (scheduler w) as [jobs|] eqn:Hs; simpl.
  - rewrite Hs. auto 6.
  - destruct (manager_unavailable E); simpl; rewrite Hs; auto 6.
Qed.

Local Hint Resolve ui_text_keeps scheduled_channel_pure sql_spec
  remove_scheduled_job_spec : wpspec.

(** The outcomes of [handle_send_scheduled_post] on the table, on the job
    store and on the session: nothing changed, or the row and the job of
    the post are gone, after Telegram returned the message. *)
Lemma send_scheduled_outcome (post : scheduled_post) (w : world) :
  wp (handle_send_scheduled_post E channel_of_post import_reaction_functions
        create_reactions_keyboard post)
     (fun _ w' =>
        (db_posts w' = db_posts w /\ scheduler w' = scheduler w /\ ud w' = ud w) \/
        (db_posts w' = delete (sp_id post) (db_posts w) /\
         scheduler w' = (fun js => delete (job_id (sp_id post)) js) <$> scheduler w /\
         sqlite_error E = None /\
         exists channel sent,
           bot_send E (Some channel) (default "" (sp_type post)) (sp_content post)
             = Ok (Some sent)))
     w.
Proof.
  unfold handle_send_scheduled_post.
  repeat wp_step.
  all: repeat match goal with
              | H : _ /\ _ |- _ => destruct H
              | H : _ \/ _ |- _ => destruct H
              | H : exists _, _ |- _ => destruct H
              end; subst; simpl in *.
  all: try (left; split_and!; congruence).
  all: right; split_and!; try congruence; eauto.
Qed.

(** The run of a post that goes out. *)
Lemma send_scheduled_goes_out (post : scheduled_post) (w : world) :
  goes_out E channel_of_post import_reaction_functions create_reactions_keyboard
    post w ->
  let w' := snd (handle_send_scheduled_post E channel_of_post
                   import_reaction_functions create_reactions_keyboard post w) in
  db_posts w' = delete (sp_id post) (db_posts w) /\
  scheduler w' = (fun js => delete (job_id (sp_id post)) js) <$> scheduler w /\
  (ui_fails E (ui_calls w) = false -> current_scheduled_post (ud w') = None).
Proof.
  intros (channel & sent & Hch & Hc & Hty & Hkind & Himp & Hkb & Hsend & Hsql).
  pose proof (scheduled_channel_pure post w) as Hpure. cbv beta in Hpure.
  destruct (scheduled_channel channel_of_post post w) as [rc wc] eqn:Hrun.
  cbn [fst snd] in Hch, Hpure. subst rc wc.
  pose proof (remove_scheduled_job_spec (job_id (sp_id post))
                (set_db (fun db => delete (sp_id post) db) w)) as Hrm.
  cbv beta in Hrm.
  destruct (remove_scheduled_job E (job_id (sp_id post))
              (set_db (fun db => delete (sp_id post) db) w)) as [rr w2] eqn:Hrmrun.
  cbn [fst snd] in Hrm. destruct Hrm as (-> & Hdb2 & Hud2 & Hn2 & Hs2).
  cbn in Hdb2, Hs2, Hud2, Hn2.
  assert (forall k : M conv_state,
            (let* sent_message :=
               (lift import_reaction_functions >>
                (match sp_reactions post with
                 | [] => ret tt
                 | reactions => lift (create_reactions_keyboard reactions)
                 end) >>
                lift (bot_send E (Some channel) (default "" (sp_type post))
                        (sp_content post))) in
             match sent_message with
             | Some _ => k
             | None => raise "Échec de l'envoi du message"
             end) w = k w) as Hsent.
  { intros k. unfold bind, lift, ret. rewrite Himp.
    destruct Hkb as [->|Hkb].
    - rewrite Hsend. reflexivity.
    - destruct (sp_reactions post); [|rewrite Hkb]; rewrite Hsend; reflexivity. }
  intros w'.
  remember (handle_send_scheduled_post E channel_of_post import_reaction_functions
              create_reactions_keyboard post w) as run eqn:Hrun0.
  unfold handle_send_scheduled_post, try_catch in Hrun0. unfold bind at 1 in Hrun0.
  rewrite Hrun, Hc, Hty, Hkind in Hrun0. cbn [negb] in Hrun0. rewrite Hsent in Hrun0.
  unfold bind at 1 in Hrun0. unfold sql in Hrun0. rewrite Hsql in Hrun0.
  unfold modify at 1 in Hrun0. unfold bind at 1 in Hrun0. rewrite Hrmrun in Hrun0.
  unfold bind, modify, ret, Callback.ui_text in Hrun0. rewrite Hn2 in Hrun0.
  destruct (ui_fails E (ui_calls w)) eqn:Hui2.
  - subst w' run. cbn. destruct (ui_fails E (S (ui_calls w2))); cbn;
      (split; [exact Hdb2|]); (split; [exact Hs2|]); discriminate.
  - subst w' run. cbn. split; [exact Hdb2|]. split; [exact Hs2|]. reflexivity.
Qed.

(** X18. A scheduled post sent by hand from its detail view does not
    fire again: [handle_send_scheduled_post] either leaves the posts table,
    the job store and the session as they were, or it has deleted the row of
    the post and taken its job out of the scheduler of the scheduler
    manager, after which the trigger of that post does nothing when its
    time comes; the second case is the one of a post that Telegram accepts
    with the database in reach. *)
Theorem sent_by_hand_is_disarmed (post : scheduled_post) (w : world) :
  let w' := snd (handle_send_scheduled_post E channel_of_post
                   import_reaction_functions create_reactions_keyboard post w) in
  let armed := job_id (sp_id post) in
  ((db_posts w' = db_posts w /\ scheduler w' = scheduler w /\ ud w' = ud w) \/
   (db_posts w' = delete (sp_id post) (db_posts w) /\
    scheduler w' = (fun js => delete armed js) <$> scheduler w /\
    forall t, on_trigger E t armed w' = (Ok tt, w'))) /\
  (goes_out E channel_of_post import_reaction_functions create_reactions_keyboard
     post w ->
   db_posts w' !! sp_id post = None /\
   forall t, on_trigger E t armed w' = (Ok tt, w')).
Proof.
  intros w' armed. split.
  - pose proof (send_scheduled_outcome post w) as H. unfold wp in H. fold w' in H.
    destruct H as [H|(Hdb & Hs & _)]; [left; exact H|].
    right. split; [exact Hdb|]. split; [exact Hs|].
    intros t. exact (on_trigger_removed t armed w' (scheduler w) Hs).
  - intros Hout.
    destruct (send_scheduled_goes_out post w Hout) as (Hdb & Hs & _).
    fold w' in Hdb, Hs. split.
    + rewrite Hdb. apply lookup_delete_eq.
    + intros t. exact (on_trigger_removed t armed w' (scheduler w) Hs).
Qed.

(** The channel of a batch is computed without touching the state. *)
Lemma normal_channel_pure (ps : list post) (w : world) :
  snd (normal_channel list_channels ps w) = w.
Proof.
  unfold normal_channel, bind, get, ret, raise, lift.
  destruct ps as [|first rest]; [reflexivity|]. cbv zeta.
  match goal with |- context [if ?c then _ else _] => destruct c end;
    [|reflexivity].
  destruct list_channels as [[|u us]|e]; reflexivity.
Qed.

(** One round of the sending loop. *)
Lemma send_one_spec (channel : string) (auto : Z) (p : post) (n : Z) (w : world) :
  exists w',
    send_one E channel auto p n w =
      (Ok (n + if delivered E channel p then 1 else 0), w') /\
    ud w' = ud w /\ outbox w' = outbox w /\ ui_calls w' = ui_calls w /\
    job_queue w' = job_queue w.
Proof.
  unfold send_one, delivered, try_catch, bind, lift, ret, modify.
  destruct (truthy_str (p_content p)); cbn [negb andb].
  2: { eexists. split; [f_equal; f_equal; lia|]. split_and!; reflexivity. }
  destruct (truthy_str (p_type p)); cbn [negb andb].
  2: { eexists. split; [f_equal; f_equal; lia|]. split_and!; reflexivity. }
  destruct (sendable_type (default "" (p_type p))); cbn [andb].
  2: { eexists. split; [f_equal; f_equal; lia|]. split_and!; reflexivity. }
  destruct (bot_send E (Some channel) (default "" (p_type p)) (p_content p))
    as [[message_id|]|e]; cbv beta iota.
  2, 3: eexists; (split; [f_equal; f_equal; lia|]); split_and!; reflexivity.
  destruct (0 <? auto) eqn:Hauto; cbv beta iota.
  2: { eexists. split; [reflexivity|]. split_and!; reflexivity. }
  rewrite SendNowProps.schedule_auto_destruction_refused. cbv beta iota.
  eexists. split; [reflexivity|]. split_and!; reflexivity.
Qed.

Lemma send_all_spec (channel : string) (auto : Z) :
  forall (ps : list post) (n : Z) (w : world),
  exists w',
    send_all E channel auto ps n w =
      (Ok (n + Z.of_nat (length (List.filter (delivered E channel) ps))), w') /\
    ud w' = ud w /\ outbox w' = outbox w /\ ui_calls w' = ui_calls w /\
    job_queue w' = job_queue w.
Proof.
  induction ps as [|p ps IH]; intros n w.
  - exists w. cbn. unfold ret. split; [f_equal; f_equal; lia|].
    split_and!; reflexivity.
  - destruct (send_one_spec channel auto p n w)
      as (w1 & Hone & Hud1 & Hout1 & Hui1 & Hjobs1).
    destruct (IH (n + if delivered E channel p then 1 else 0) w1)
      as (w2 & Hrest & Hud2 & Hout2 & Hui2 & Hjobs2).
    exists w2. cbn [send_all]. unfold bind. rewrite Hone, Hrest.
    split.
    + f_equal. f_equal. cbn [List.filter].
      destruct (delivered E channel p); cbn [length]; lia.
    + split_and!; congruence.
Qed.

(** X19. [handle_send_normal_posts] goes through every pending post: a
    post that cannot be sent does not stop the ones after it, the
    confirmation reports the number of posts that Telegram took, the
    session is emptied of the posts, of the channel and of the delay
    whether or not anything was sent, and the job queue is left as it was:
    no post gets a destruct job, with a delay set or not. *)
Theorem normal_send_goes_through_every_post (ps : list post) (w : world)
    (channel : string)
    (Hchannel : fst (normal_channel list_channels ps w) = Ok channel)
    (Hui : ui_fails E (ui_calls w) = false) :
  let r := handle_send_normal_posts E list_channels ps w in
  let sent := Z.of_nat (length (List.filter (delivered E channel) ps)) in
  fst r = Ok MAIN_MENU /\
  outbox (snd r) = (outbox w ++ [MsgSent sent channel])%list /\
  ud (snd r) = after_normal_send (ud w) /\
  job_queue (snd r) = job_queue w.
Proof.
  intros r sent.
  pose proof (normal_channel_pure ps w) as Hpure.
  destruct (normal_channel list_channels ps w) as [rc wc] eqn:Hrun.
  cbn [fst snd] in Hchannel, Hpure. subst rc wc.
  destruct (send_all_spec channel (Intake.or_zero (auto_destruction_time (ud w))) ps 0 w)
    as (w1 & Hall & Hud1 & Hout1 & Hui1 & Hjobs1).
  assert (r = (Ok MAIN_MENU,
               ui_step (Some (MsgSent sent channel)) (set_ud after_normal_send w1)))
    as ->.
  { subst r. unfold handle_send_normal_posts, try_catch. unfold bind at 1.
    rewrite Hrun. unfold bind at 1. unfold get at 1. cbv beta iota zeta.
    unfold bind at 1. rewrite Hall. cbv beta iota.
    unfold bind, modify, ret, ui. cbn [ui_calls set_ud]. rewrite Hui1, Hui.
    reflexivity. }
  cbn [fst snd]. split; [reflexivity|]. split_and!.
  - cbn. rewrite Hout1. reflexivity.
  - cbn. rewrite Hud1. reflexivity.
  - cbn. exact Hjobs1.
Qed.

End WithOracles.

Lemma sent_by_hand_is_disarmed_witness :
  let post := {| sp_id := 1; sp_channel_username := Some "@news";
                 sp_type := Some "text"; sp_content := Some "hello";
                 sp_caption := None; sp_reactions := [] |} in
  let w := Scenario.open_post 1 (Scenario.start (Scenario.session [] None None None)) in
  let w' := snd (handle_send_scheduled_post Scenario.E_remove (fun _ => Ok None)
                   (Ok tt) (fun _ => Ok tt) post w) in
  db_posts w' !! 1 = None /\
  forall t, on_trigger Scenario.E_remove t "post_1" w' = (Ok tt, w').
Proof.
  intros post w w'.
  destruct (sent_by_hand_is_disarmed Scenario.E_remove (fun _ => Ok None)
              (Ok tt) (fun _ => Ok tt) post w) as [_ Hout].
  apply Hout. exists "@news", 555.
  split_and!; try reflexivity. left. reflexivity.
Defined.

Lemma normal_send_goes_through_every_post_witness :
  let ps := [Scenario.text_post; Scenario.video_post] in
  let w := Scenario.start (Scenario.session ps None None (Some 300)) in
  let r := handle_send_normal_posts Scenario.E0 (Ok []) ps w in
  fst r = Ok MAIN_MENU /\
  outbox (snd r) = [MsgSent 2 "@news"] /\
  posts (ud (snd r)) = Some [] /\
  job_queue (snd r) = Some [].
Proof.
  intros ps w r.
  destruct (normal_send_goes_through_every_post Scenario.E0 (Ok []) ps w "@news"
              eq_refl eq_refl)
    as (Hr & Hout & Hud & Hjobs).
  split; [exact Hr|]. split; [exact Hout|].
  split; [exact (f_equal posts Hud) | exact Hjobs].
Defined.

End SendingProps.

(** ** One call of [send_post_now] *)

Module SendNowMore.
Import Bot Env Prim Logic SendNow Frame.
Local Open Scope eff_scope.

Lemma deliver_spec (E : env) channel post_type content auto (n : Z) (w : world) :
  exists n' b w',
    deliver E channel post_type content auto n w = (Ok (n', b), w') /\
    outbox w' = outbox w /\ ud w' = ud w /\
    ((b = true /\ n' = n /\ job_queue w' = job_queue w) \/
     (b = false /\ (n' = n \/ n' = n + 1) /\ at_most_one_job w w')).
Proof.
  unfold deliver, try_catch, bind, lift, ret, modify, at_most_one_job.
  destruct (bot_send E channel post_type content) as [[message_id|]|e]; cbv beta iota.
  - destruct (destruct_requested auto) as [t|]; cbv beta iota.
    + rewrite SendNowProps.schedule_auto_destruction_refused. cbv beta iota.
      eexists _, _, _. split; [reflexivity|]. split_and!; try reflexivity.
      right. split; [reflexivity|]. split; [right; reflexivity|]. left. reflexivity.
    + eexists _, _, _. split; [reflexivity|]. split_and!; try reflexivity.
      right. split; [reflexivity|]. split; [right; reflexivity|]. left. reflexivity.
  - eexists _, _, _. split; [reflexivity|]. split_and!; try reflexivity.
    right. split; [reflexivity|]. split; [left; reflexivity|]. left. reflexivity.
  - eexists _, _, _. split; [reflexivity|]. split_and!; try reflexivity.
    left. auto.
Qed.

Lemma one_delivery_refl (w : world) : one_delivery w w.
Proof.
  split; [exists []; rewrite app_nil_r; split; [reflexivity | intros ? ? []]|].
  split; [left; reflexivity | left; reflexivity].
Qed.

Lemma ui_one_delivery (E : env) (m : ui_msg) (w0 w : world) :
  (forall n c, m = MsgSent n c -> n = 0 \/ n = 1) ->
  one_delivery w0 w ->
  one_delivery w0 (snd (ui E m w)).
Proof.
  intros Hm ((k & Hout & Hk) & Hjobs & Hposts).
  unfold ui, ui_step, one_delivery, at_most_one_job.
  destruct (ui_fails E (ui_calls w)); simpl.
  - split; [exists k; split; assumption|]. split; assumption.
  - split.
    + exists (k ++ [m])%list. rewrite Hout, app_assoc. split; [reflexivity|].
      intros n c Hin. apply in_app_or in Hin as [Hin|[Heq|[]]]; eauto.
    + split; assumption.
Qed.

Lemma send_posts_spec (E : env) (channel : option string) :
  forall (ps : list post) (i : nat) (w0 w : world),
    one_delivery w0 w -> job_queue w = job_queue w0 ->
    one_delivery w0 (snd (send_posts E channel ps i 0 w)).
Proof.
  induction ps as [|p ps IH]; intros i w0 w Hone Hjq; [exact Hone|].
  cbn [send_posts]. unfold bind at 1. unfold get at 1. cbv beta iota zeta.
  set (auto := auto_destruction_time (ud w)).
  set (post_type := default "" (p_type p)).
  assert (forall n b w1,
            (b = true -> n = 0 /\ job_queue w1 = job_queue w) ->
            (n = 0 \/ n = 1) ->
            one_delivery w0 w1 ->
            (b = false -> at_most_one_job w w1) ->
            one_delivery w0
              (snd ((if b then send_posts E channel ps (S i) n
                     else modify (set_ud after_send) >>
                          ui E (MsgSent n (default "" channel)) >>
                          ret (Some MAIN_MENU)) w1))) as Hnext.
  { intros n b w1 Hb Hn Hone1 Hjobs1. destruct b.
    - destruct (Hb eq_refl) as [-> Hjq1]. apply IH; [exact Hone1 | congruence].
    - unfold bind at 1. unfold modify at 1. cbv beta iota.
      assert (one_delivery w0 (set_ud after_send w1)) as Hone2.
      { destruct Hone1 as (Hout & Hj & _). split; [exact Hout|].
        split; [exact Hj | right; reflexivity]. }
      pose proof (ui_one_delivery E (MsgSent n (default "" channel)) w0 _
                    ltac:(intros ? ? [= <- _]; exact Hn) Hone2) as Hone3.
      unfold bind, ret.
      destruct (ui E (MsgSent n (default "" channel)) (set_ud after_send w1))
        as [[[]|e] w3]; exact Hone3. }
  assert (forall w1 n b,
            deliver E channel post_type (p_content p) auto 0 w = (Ok (n, b), w1) ->
            one_delivery w0
              (snd ((if b then send_posts E channel ps (S i) n
                     else modify (set_ud after_send) >>
                          ui E (MsgSent n (default "" channel)) >>
                          ret (Some MAIN_MENU)) w1))) as Hdeliver.
  { intros w1 n b Hrun.
    destruct (deliver_spec E channel post_type (p_content p) auto 0 w)
      as (n' & b' & w1' & Hrun' & Hout & Hud & Hcase).
    rewrite Hrun in Hrun'. injection Hrun' as <- <- <-.
    destruct Hone as ((k & Hk & Hkn) & Hj & Hp).
    apply Hnext.
    - intros ->. destruct Hcase as [(_ & -> & Hjq1)|(Hb & _)]; [auto | discriminate].
    - destruct Hcase as [(_ & -> & _)|(_ & [->| ->] & _)]; auto.
    - split; [exists k; rewrite Hout; auto|]. split.
      + destruct Hcase as [(_ & _ & Hjq1)|(_ & _ & [Hjq1|(q & j & Hq & Hq1)])].
        * left. congruence.
        * left. congruence.
        * right. exists q, j. split; congruence.
      + rewrite Hud. exact Hp.
    - intros ->. destruct Hcase as [(Hb & _)|(_ & _ & Hjobs1)];
        [discriminate | exact Hjobs1]. }
  assert (forall (m : M (Z * bool)),
            (forall w1 n b, m w = (Ok (n, b), w1) ->
               one_delivery w0
                 (snd ((if b then send_posts E channel ps (S i) n
                        else modify (set_ud after_send) >>
                             ui E (MsgSent n (default "" channel)) >>
                             ret (Some MAIN_MENU)) w1))) ->
            (forall e w1, m w = (Exc e, w1) -> one_delivery w0 w1) ->
            one_delivery w0
              (snd (bind m (fun step =>
                      if snd step then send_posts E channel ps (S i) (fst step)
                      else modify (set_ud after_send) >>
                           ui E (MsgSent (fst step) (default "" channel)) >>
                           ret (Some MAIN_MENU)) w))) as Hbind.
  { intros m Hok Hexc. unfold bind at 1.
    destruct (m w) as [[[n b]|e] w1] eqn:Hm; cbn [fst snd].
    - exact (Hok w1 n b eq_refl).
    - exact (Hexc e w1 eq_refl). }
  assert (forall e w1,
            deliver E channel post_type (p_content p) auto 0 w = (Exc e, w1) ->
            one_delivery w0 w1) as Hnoexc.
  { intros e w1 Hrun.
    destruct (deliver_spec E channel post_type (p_content p) auto 0 w)
      as (n' & b' & w1' & Hrun' & _).
    rewrite Hrun in Hrun'. discriminate. }
  apply Hbind.
  - intros w1 n b Hm.
    destruct (String.eqb post_type "photo" || String.eqb post_type "video"
              || String.eqb post_type "document").
    + destruct (default false (p_has_custom_thumbnail p));
        [exact (Hdeliver w1 n b Hm)|].
      destruct (truthy_str (p_thumbnail p)); [|exact (Hdeliver w1 n b Hm)].
      unfold bind, ret in Hm.
      pose proof (ui_one_delivery E (MsgThumbNotApplied i) w0 w
                    ltac:(intros ? ? [=]) Hone) as Hone1.
      destruct (SchedulerProps.ui_frame E (MsgThumbNotApplied i) w)
        as (_ & _ & _ & Hjq1 & _).
      destruct (ui E (MsgThumbNotApplied i) w) as [[[]|e] w2]; [|discriminate].
      injection Hm as <- <- <-. cbn [fst snd] in *.
      apply (Hnext 0 true w2); auto; discriminate.
    + destruct (String.eqb post_type "text"); [exact (Hdeliver w1 n b Hm)|].
      unfold ret in Hm. injection Hm as <- <- <-.
      apply (Hnext 0 false w); auto; try discriminate. intros _. left. reflexivity.
  - intros e w1 Hm.
    destruct (String.eqb post_type "photo" || String.eqb post_type "video"
              || String.eqb post_type "document").
    + destruct (default false (p_has_custom_thumbnail p));
        [exact (Hnoexc e w1 Hm)|].
      destruct (truthy_str (p_thumbnail p)); [|exact (Hnoexc e w1 Hm)].
      unfold bind, ret in Hm.
      pose proof (ui_one_delivery E (MsgThumbNotApplied i) w0 w
                    ltac:(intros ? ? [=]) Hone) as Hone1.
      destruct (ui E (MsgThumbNotApplied i) w) as [[[]|e2] w2]; [discriminate|].
      injection Hm as <- <-. exact Hone1.
    + destruct (String.eqb post_type "text"); [exact (Hnoexc e w1 Hm)|].
      unfold ret in Hm. discriminate.
Qed.

(** X20. One call of [send_post_now] delivers one post at most, however
    many are pending: the confirmation it sends reports zero or one post,
    at most one destruct job is added to the job queue, and the list of
    pending posts is left as it was or emptied, so the posts after the
    first one that went through are dropped without being sent. *)
Theorem send_post_now_delivers_at_most_one (E : env) (w : world) :
  let w' := snd (send_post_now E w) in
  (exists k, outbox w' = (outbox w ++ k)%list /\
             forall n c, In (MsgSent n c) k -> n = 0 \/ n = 1) /\
  (job_queue w' = job_queue w \/
   exists q j, job_queue w = Some q /\ job_queue w' = Some (q ++ [j])%list) /\
  (posts (ud w') = posts (ud w) \/ posts (ud w') = Some []).
Proof.
  intros w'. subst w'.
  change (one_delivery w (snd (send_post_now E w))).
  unfold send_post_now, try_catch. unfold bind at 1. unfold get at 1.
  cbv beta iota zeta.
  destruct (default [] (posts (ud w))) as [|first rest] eqn:Hps.
  - pose proof (ui_one_delivery E MsgNothingToSend w w ltac:(intros ? ? [=])
                  (one_delivery_refl w)) as H1.
    unfold bind, ret.
    destruct (ui E MsgNothingToSend w) as [[[]|e] w1]; [exact H1|].
    cbn [snd] in H1.
    pose proof (ui_one_delivery E MsgSendError w w1 ltac:(intros ? ? [=]) H1) as H2.
    destruct (ui E MsgSendError w1) as [[[]|e2] w2]; exact H2.
  - match goal with
    | |- context [send_posts E ?ch ?ps 0%nat 0 w] =>
        pose proof (send_posts_spec E ch ps 0 w w
                      (one_delivery_refl w) eq_refl) as H1;
        destruct (send_posts E ch ps 0%nat 0 w) as [[s|e] w1]
    end; [exact H1|].
    cbn [snd] in H1.
    pose proof (ui_one_delivery E MsgSendError w w1 ltac:(intros ? ? [=]) H1) as H2.
    unfold bind, ret.
    destruct (ui E MsgSendError w1) as [[[]|e2] w2]; exact H2.
Qed.

End SendNowMore.

(** ** Thumbnail files *)

Module ThumbFileProps.
Import Bot Env Prim Thumb.
Local Open Scope eff_scope.

(** X21. [optimize_thumbnail] answers with a path exactly when the
    thumbnail is on disk. Besides the output path, it keeps every file and
    directory that was there and adds directories only (the folder of the
    output, made first). A path that is returned is the output path: its
    folder could be made and it holds an encoding of the image at a quality
    no higher than the configured one. When [None] is returned no file is
    left at the output path, not even a first encoding that had been
    written. An image that cannot be opened gives [None], and so does an
    output path with no folder part, for which [os.makedirs] raises. *)
Theorem optimize_thumbnail_leaves_a_file_or_nothing (cfg : settings)
    (Image_open : string -> option encoder) (fs : FS.t)
    (image_path : string) (output_path : option string) :
  let out := chosen_output cfg output_path in
  let r := optimize_thumbnail cfg Image_open fs image_path output_path in
  (forall p x, p <> out -> fs !! p = Some x -> snd r !! p = Some x) /\
  (forall p x, p <> out -> snd r !! p = Some x -> fs !! p = Some x \/ x = FS.Dir) /\
  (fst r = None -> FS.isfile (snd r) out = false) /\
  (forall path, fst r = Some path ->
     path = out /\
     fst (FS.makedirs (FS.dirname out) fs) = Ok tt /\
     exists enc quality size,
       Image_open image_path = Some enc /\ enc quality = Some size /\
       quality <= thumb_quality cfg /\
       snd r !! out = Some (FS.File size true)) /\
  (Image_open image_path = None -> fst r = None) /\
  (FS.dirname out = "" -> fst r = None).
Proof.
  intros out r.
  destruct (ThumbProps.optimize_thumbnail_outcome cfg Image_open fs image_path
              output_path) as [Hframe Hcase].
  fold out r in Hframe, Hcase.
  destruct (FSProps.makedirs_grown (FS.dirname out) fs) as [Hkeep Hnew].
  split_and!.
  - intros p x Hp Hx. rewrite (Hframe p Hp). exact (Hkeep p x Hx).
  - intros p x Hp Hx. rewrite (Hframe p Hp) in Hx. exact (Hnew p x Hx).
  - intros Hnone. destruct Hcase as [[_ H]|[H _]]; [exact H | congruence].
  - intros path Hpath. destruct Hcase as [[H _]|(H & Hdirs & Hfile)]; [congruence|].
    split; [congruence|]. split; [exact Hdirs | exact Hfile].
  - intros Hopen. destruct Hcase as [[H _]|(_ & _ & enc & _ & _ & Henc & _)];
      [exact H | congruence].
  - intros Hdir. destruct Hcase as [[H _]|(_ & Hdirs & _)]; [exact H|].
    rewrite Hdir, FSProps.makedirs_empty in Hdirs. discriminate.
Qed.

(** An output path given without a folder: nothing is written and the
    answer is [None], although the image can be read. *)
Example output_without_folder_is_refused :
  let r := optimize_thumbnail Scenario.thumb_settings Scenario.open_heavy ∅
             "logo.png" (Some "out.jpg") in
  fst r = None /\ snd r = ∅.
Proof. vm_compute. split; reflexivity. Qed.

Lemma nonempty_truthy (s : string) : s <> "" -> truthy_str (Some s) = true.
Proof. intros H. simpl. destruct (String.eqb_spec s ""); [congruence | reflexivity]. Qed.

Section WithEnv.
Variable E : env.
Variable cfg : settings.
Variable Image_open : string -> option encoder.


(** The run of [download_thumbnail_for_telethon], case by case. *)
Lemma telethon_run (thumb_id : string) (w : world) :
  ThumbFile.download_thumbnail_for_telethon E cfg Image_open thumb_id w =
    (Ok None,
     let '(made, f0) := FS.makedirs (temp_folder cfg) (fs w) in
     let w0 := set_fs (fun _ => f0) w in
     match made with
     | Exc _ => w0
     | Ok _ =>
         match bot_download E thumb_id with
         | DlReturn (Some p) (Some sz) =>
             set_fs (fun f => <[p := FS.File sz true]> f) (add_attempt BotAPI w0)
         | _ => add_attempt BotAPI w0
         end
     end).
Proof.
  unfold ThumbFile.download_thumbnail_for_telethon, try_catch.
  unfold bind at 1. unfold ThumbFile.make_temp_folder at 1.
  destruct (FS.makedirs (temp_folder cfg) (fs w)) as [[[]|e] f0]; [|reflexivity].
  cbv beta iota zeta.
  unfold ThumbFile.download_to_drive, bind, download, get, ret, lift.
  destruct (bot_download E thumb_id) as [msg|[p|] [sz|]]; cbv beta iota;
    cbn [option_map truthy_path negb orb fspath]; try reflexivity.
  - cbn [fs set_fs add_attempt].
    assert (FS.exists_ (<[p := FS.File sz true]> f0) p = true) as ->.
    { unfold FS.exists_. rewrite lookup_insert_eq.
      apply bool_decide_eq_true_2. eauto. }
    reflexivity.
  - destruct (FS.exists_ _ p); reflexivity.
Qed.

(** X23. [download_thumbnail_for_telethon] never returns a thumbnail.
    [download_to_drive] returns a [pathlib.Path], so the output path
    [downloaded_path + "_opt.jpg"] raises [TypeError], and the [except] of
    the function answers [None]: the result is [None] in every case,
    [optimize_thumbnail] is never reached, and a download that succeeded
    is left on disk. The files of the result are those that were there and
    that download. *)
Theorem telethon_thumbnail_is_never_returned (thumb_id : string) (w : world) :
  let run := ThumbFile.download_thumbnail_for_telethon E cfg Image_open thumb_id w in
  fst run = Ok None /\
  (forall p sz,
     bot_download E thumb_id = DlReturn (Some p) (Some sz) ->
     fst (FS.makedirs (temp_folder cfg) (fs w)) = Ok tt ->
     fs (snd run) !! p = Some (FS.File sz true)) /\
  (forall q x,
     fs w !! q = Some x ->
     (forall sz, bot_download E thumb_id <> DlReturn (Some q) (Some sz)) ->
     fs (snd run) !! q = Some x) /\
  (forall q size readable,
     fs (snd run) !! q = Some (FS.File size readable) ->
     fs w !! q = Some (FS.File size readable) \/
     bot_download E thumb_id = DlReturn (Some q) (Some size)).
Proof.
  intros run. subst run. rewrite telethon_run. cbn [fst snd].
  destruct (FSProps.makedirs_grown (temp_folder cfg) (fs w)) as [Hkeep Hnew].
  destruct (FS.makedirs (temp_folder cfg) (fs w)) as [made f0]. cbn [fst snd] in *.
  assert (forall q size rd, f0 !! q = Some (FS.File size rd) ->
            fs w !! q = Some (FS.File size rd)) as Hfiles.
  { intros q size rd Hq. destruct (Hnew q _ Hq) as [H|H]; [exact H | discriminate]. }
  split; [reflexivity|].
  destruct made as [[]|e].
  2: { cbn [fs set_fs]. split_and!.
       - intros p sz _ Hdirs. discriminate.
       - intros q x Hq _. exact (Hkeep q x Hq).
       - intros q size rd Hq. left. exact (Hfiles q size rd Hq). }
  destruct (bot_download E thumb_id) as [msg|[p|] [sz|]];
    cbn [fs set_fs add_attempt].
  2: { split_and!.
       - intros p' sz' [= <- <-] _. apply lookup_insert_eq.
       - intros q x Hq Hneq.
         rewrite lookup_insert_ne by (intros <-; exact (Hneq sz eq_refl)).
         exact (Hkeep q x Hq).
       - intros q size rd Hq.
         destruct (decide (p = q)) as [<-|Hpq].
         + rewrite lookup_insert_eq in Hq. injection Hq as <- <-.
           right. reflexivity.
         + rewrite lookup_insert_ne in Hq by exact Hpq. left.
           exact (Hfiles q size rd Hq). }
  all: split_and!;
    [ intros; discriminate
    | intros q x Hq _; exact (Hkeep q x Hq)
    | intros q size rd Hq; left; exact (Hfiles q size rd Hq) ].
Qed.

End WithEnv.


(** The Bot API returns the thumbnail as an empty file: the answer is
    [None] and the file stays. *)
Lemma telethon_thumbnail_is_never_returned_witness :
  let w := Scenario.start (Scenario.session [] None None None) in
  let run := ThumbFile.download_thumbnail_for_telethon Scenario.E_empty
               Scenario.thumb_settings Scenario.open_heavy "thumb-file-id" w in
  fst run = Ok None /\
  fs (snd run) !! "AgADBAAD_video.mp4" = Some (FS.File 0 true).
Proof.
  intros w run.
  destruct (telethon_thumbnail_is_never_returned Scenario.E_empty
              Scenario.thumb_settings Scenario.open_heavy "thumb-file-id" w)
    as (Hnone & Hleft & _).
  split; [exact Hnone|].
  apply (Hleft "AgADBAAD_video.mp4" 0); [reflexivity | vm_compute; reflexivity].
Defined.

End ThumbFileProps.

(** ** Hashtags and channel names *)

Module TagsProps.
Import Tags.

Section WithStrip.
Variable strip : string -> string.

Lemma add_word_cases (hashtags : list string) (word : string) :
  add_word strip hashtags word = hashtags \/
  exists t, add_word strip hashtags word = (hashtags ++ [t])%list /\
            well_formed t /\ (t ∉ hashtags) /\
            ((t = strip word /\ startswith "#" (strip word) = true) \/
             (t = "#" +:+ strip word /\ startswith "#" (strip word) = false)).
Proof.
  unfold add_word, well_formed.
  set (s := strip word).
  destruct (String.eqb_spec s "") as [Hs|Hs]; cbn [negb andb].
  { rewrite Hs. cbn. left. reflexivity. }
  destruct (startswith "#" s) eqn:Hhash; cbn [negb].
  - destruct (String.eqb_spec s "") as [|_]; [congruence|]. cbn [negb andb].
    destruct (1 <? String.length s)%nat eqn:Hlen; cbn [andb]; [|left; reflexivity].
    destruct (decide (s ∈ hashtags)) as [Hin|Hin].
    + rewrite bool_decide_eq_true_2 by exact Hin. left. reflexivity.
    + rewrite bool_decide_eq_false_2 by exact Hin. right. exists s.
      split; [reflexivity|]. split; [split; [exact Hhash | apply Nat.ltb_lt, Hlen]|].
      split; [exact Hin | left; split; reflexivity].
  - change (String.eqb ("#" +:+ s) "") with false. cbn [negb andb].
    assert ((1 <? String.length ("#" +:+ s))%nat = true) as ->.
    { destruct s; [congruence|]. reflexivity. }
    cbn [andb].
    destruct (decide ("#" +:+ s ∈ hashtags)) as [Hin|Hin].
    + rewrite bool_decide_eq_true_2 by exact Hin. left. reflexivity.
    + rewrite bool_decide_eq_false_2 by exact Hin. right. exists ("#" +:+ s).
      split; [reflexivity|]. split.
      * split; [reflexivity|].
        change (String.length ("#" +:+ s)) with (S (String.length s)).
        destruct s; [congruence|]. cbn [String.length]. lia.
      * split; [exact Hin | right; split; reflexivity].
Qed.

Lemma fold_add_word (words : list string) :
  forall acc,
    Forall well_formed acc -> NoDup acc ->
    let tags := fold_left (add_word strip) words acc in
    Forall well_formed tags /\ NoDup tags /\
    (forall t, t ∈ tags ->
       t ∈ acc \/ exists w, w ∈ words /\ (t = strip w \/ t = "#" +:+ strip w)) /\
    (tags = [] <-> acc = [] /\ forall w, w ∈ words -> strip w = "" \/ strip w = "#").
Proof.
  induction words as [|word words IH]; intros acc Hwf Hnd; cbn [fold_left].
  - split_and!; auto. split; [intros ->; split; [reflexivity|]|intros [-> _]; reflexivity].
    intros w Hw. apply elem_of_nil in Hw as [].
  - destruct (add_word_cases acc word) as [Hsame|(t & Hadd & Ht & Hnew & Horigin)].
    + rewrite Hsame. destruct (IH acc Hwf Hnd) as (H1 & H2 & H3 & H4).
      split; [exact H1|]. split; [exact H2|]. split.
      * intros t Ht. destruct (H3 t Ht) as [Hin|(w & Hw & Hor)]; [left; exact Hin|].
        right. exists w. split; [apply elem_of_cons; right; exact Hw | exact Hor].
      * rewrite H4. split.
        -- intros [-> Hall]. split; [reflexivity|].
           intros w Hw. apply elem_of_cons in Hw as [->|Hw]; [|apply Hall, Hw].
           clear - Hsame. unfold add_word in Hsame.
           destruct (String.eqb_spec (strip word) "") as [Hs|Hs]; [left; exact Hs|].
           cbn [negb andb] in Hsame. right.
           destruct (startswith "#" (strip word)) eqn:Hhash; cbn [negb] in Hsame.
           ++ destruct (String.eqb_spec (strip word) "") as [|_]; [congruence|].
              cbn [negb andb] in Hsame.
              destruct (1 <? String.length (strip word))%nat eqn:Hlen.
              ** rewrite bool_decide_eq_false_2 in Hsame by apply not_elem_of_nil.
                 discriminate.
              ** apply Nat.ltb_ge in Hlen.
                 destruct (strip word) as [|c [|c2 s]]; [congruence| |cbn in Hlen; lia].
                 cbn [startswith] in Hhash. apply andb_true_iff in Hhash as [Hc _].
                 apply Ascii.eqb_eq in Hc. subst. reflexivity.
           ++ change (String.eqb ("#" +:+ strip word) "") with false in Hsame.
              cbn [negb andb] in Hsame.
              assert ((1 <? String.length ("#" +:+ strip word))%nat = true) as Hl.
              { destruct (strip word); [congruence|]. reflexivity. }
              rewrite Hl in Hsame.
              rewrite bool_decide_eq_false_2 in Hsame by apply not_elem_of_nil.
              discriminate.
        -- intros [-> Hall]. split; [reflexivity|].
           intros w Hw. apply Hall. apply elem_of_cons. right. exact Hw.
    + rewrite Hadd.
      assert (t = strip word \/ t = "#" +:+ strip word) as Hweak
        by (destruct Horigin as [[? _]|[? _]]; auto).
      destruct (IH (acc ++ [t])%list) as (H1 & H2 & H3 & H4).
      * apply Forall_app. split; [exact Hwf | constructor; [exact Ht | constructor]].
      * apply NoDup_app. split; [exact Hnd|]. split.
        -- intros x Hx Hx'. apply list_elem_of_singleton in Hx'. subst. contradiction.
        -- apply NoDup_singleton.
      * split; [exact H1|]. split; [exact H2|]. split.
        -- intros x Hx. destruct (H3 x Hx) as [Hin|(w & Hw & Hor)].
           ++ apply elem_of_app in Hin as [Hin|Hin]; [left; exact Hin|].
              apply list_elem_of_singleton in Hin. subst x.
              right. exists word. split; [apply elem_of_cons; left; reflexivity|].
              exact Hweak.
           ++ right. exists w. split; [apply elem_of_cons; right; exact Hw | exact Hor].
        -- rewrite H4. split.
           ++ intros [Hnil _]. destruct acc; discriminate.
           ++ intros [-> Hall]. exfalso.
              destruct (Hall word ltac:(apply elem_of_cons; left; reflexivity))
                as [Hs|Hs]; destruct Ht as [Hhash Hlen];
                destruct Horigin as [[-> Hst]|[-> Hst]]; rewrite Hs in *;
                vm_compute in Hhash, Hlen, Hst; try discriminate; lia.
Qed.

(** X24. The hashtags stored for a channel are clean: every one starts
    with [#] and has something after it, no hashtag is stored twice (a word
    given with and without its [#] counts once), at most ten are stored,
    each comes from a word of the message, and the message is refused
    exactly when none of its words gives a hashtag (every word is empty or a
    lone [#] once stripped). *)
Theorem stored_hashtags_are_clean (words : list string) :
  let tags := hashtags_of strip words in
  Forall well_formed tags /\
  NoDup tags /\
  (length tags <= 10)%nat /\
  (forall t, t ∈ tags ->
     exists w, w ∈ words /\ (t = strip w \/ t = "#" +:+ strip w)) /\
  (forall text, text <> "." ->
     (tag_input strip text words = Rejected <->
      forall w, w ∈ words -> strip w = "" \/ strip w = "#")).
Proof.
  intros tags. subst tags. unfold hashtags_of.
  destruct (fold_add_word words [] (Forall_nil_2 _) (NoDup_nil_2))
    as (Hwf & Hnd & Horigin & Hnil).
  cbv zeta in *. split_and!.
  - apply Forall_take. exact Hwf.
  - eapply sublist_NoDup; [exact Hnd | apply sublist_take].
  - rewrite length_take. lia.
  - intros t Ht. apply elem_of_take in Ht as (i & Hi & _).
    apply list_elem_of_lookup_2 in Hi.
    destruct (Horigin t Hi) as [Hin|H]; [apply elem_of_nil in Hin as [] | exact H].
  - intros text Htext. unfold tag_input.
    destruct (String.eqb_spec text "."); [congruence|].
    destruct (fold_left (add_word strip) words []) as [|t ts] eqn:Hfold.
    + split; [intros _; apply Hnil; reflexivity | reflexivity].
    + split; [discriminate|]. intros Hall.
      destruct Hnil as [_ Hnil]. specialize (Hnil (conj eq_refl Hall)). discriminate.
Qed.

End WithStrip.
End TagsProps.

Module ChannelNames.
Import Pipeline SendNow.

Lemma lstrip_at_other (c : ascii) (s : string) :
  c <> "@"%char -> lstrip_at (String c s) = String c s.
Proof.
  intros Hc. cbn [lstrip_at].
  destruct c as [[] [] [] [] [] [] [] []]; try reflexivity. congruence.
Qed.

Lemma lstrip_at_idem (s : string) : lstrip_at (lstrip_at s) = lstrip_at s.
Proof.
  induction s as [|c s IH]; [reflexivity|].
  destruct (Ascii.eqb_spec c "@") as [->|Hc]; [exact IH|].
  rewrite !(lstrip_at_other c s Hc). reflexivity.
Qed.

Lemma lstrip_at_no_at (s : string) : startswith "@" (lstrip_at s) = false.
Proof.
  induction s as [|c s IH]; [reflexivity|].
  destruct (Ascii.eqb_spec c "@") as [->|Hc]; [exact IH|].
  rewrite (lstrip_at_other c s Hc).
  cbn [startswith]. destruct (Ascii.eqb_spec "@" c); [congruence | reflexivity].
Qed.

(** X25. The name a post is sent to and the name its thumbnail is looked
    up under agree: for a channel name that is not empty, putting the [@]
    that [send_post_now] sends with and then normalising gives the same key
    as normalising the name as stored; the key never starts with [@];
    normalising a key again, or prefixing a prefixed name again, changes
    nothing. *)
Theorem sent_name_and_lookup_key_agree (c : string) :
  (c <> "" ->
   normalize_channel_username (with_at (Some c)) = normalize_channel_username (Some c)) /\
  (forall key, normalize_channel_username (Some c) = Some key ->
     startswith "@" key = false /\
     (key <> "" -> normalize_channel_username (Some key) = Some key)) /\
  with_at (with_at (Some c)) = with_at (Some c) /\
  (forall name, with_at (Some c) = Some name ->
     startswith "@" name = true \/ startswith "-100" name = true).
Proof.
  split_and!.
  - intros Hc. unfold with_at, normalize_channel_username.
    assert (truthy_str (Some c) = true) as Htc.
    { cbn. destruct (String.eqb_spec c ""); [congruence | reflexivity]. }
    destruct (startswith "@" c) eqn:Hat; cbn [negb andb]; [reflexivity|].
    destruct (startswith "-100" c) eqn:Hid; cbn [negb]; [reflexivity|].
    rewrite Htc. cbn. reflexivity.
  - intros key. unfold normalize_channel_username.
    destruct (truthy_str (Some c)); [|discriminate].
    intros [= <-]. split; [apply lstrip_at_no_at|].
    intros Hne.
    assert (truthy_str (Some (lstrip_at c)) = true) as ->.
    { cbn. destruct (String.eqb_spec (lstrip_at c) ""); [congruence | reflexivity]. }
    rewrite lstrip_at_idem. reflexivity.
  - unfold with_at.
    destruct (startswith "@" c) eqn:Hat; cbn [negb andb]; [rewrite Hat; reflexivity|].
    destruct (startswith "-100" c) eqn:Hid; cbn [negb];
      [rewrite Hat, Hid; reflexivity|].
    reflexivity.
  - intros name. unfold with_at.
    destruct (startswith "@" c) eqn:Hat; cbn [negb andb];
      [intros [= <-]; left; exact Hat|].
    destruct (startswith "-100" c) eqn:Hid; cbn [negb];
      [intros [= <-]; right; exact Hid|].
    intros [= <-]. left. reflexivity.
Qed.

End ChannelNames.
